(** * Game.js: world state and combat core of the top-down action game

    A shallow embedding of [docs/src/Game.js].  The class [Game] keeps
    the static collider registry, places props by rejection sampling,
    validates and commits turrets, resolves knife and bullet hits, and
    drives the per-frame tick.

    JavaScript numbers are kept behind the interface [Number], so that
    every function below is written once and read twice: over IEEE
    binary64 ([Float64], what the engine computes, used to run the code
    on concrete inputs) and over the real numbers ([Ideal], used for
    the geometric facts that rounding would blur).  Calls that leave
    Game.js (Player, Enemy, EnemySpawner, Turret, UI, the renderer) are
    recorded in a trace and their results come from the interface
    [Modules]. *)

From Stdlib Require Import ZArith List Bool Lia Arith.
From Stdlib Require Import Floats Uint63.
From Stdlib Require Import Reals Lra.
From Stdlib Require String.
Import ListNotations.

(* ================================================================= *)
(** ** JavaScript numbers *)

(** The operations Game.js uses on numbers.  [nltb a b] is [a < b],
    [nleb a b] is [a <= b], [neqb a b] is [a === b]; [a > b] is
    evaluated by the language as [b < a]. *)
Class Number : Type := {
  num : Type;
  fromZ : Z -> num;
  nadd : num -> num -> num;
  nsub : num -> num -> num;
  nopp : num -> num;
  nmul : num -> num -> num;
  ndiv : num -> num -> num;
  nsqrt : num -> num;
  nround : num -> num;
  npi : num;
  nltb : num -> num -> bool;
  nleb : num -> num -> bool;
  neqb : num -> num -> bool
}.

Declare Scope js_scope.
Delimit Scope js_scope with js.
Notation "a + b" := (nadd a b) : js_scope.
Notation "a - b" := (nsub a b) : js_scope.
Notation "- a" := (nopp a) : js_scope.
Notation "a * b" := (nmul a b) : js_scope.
Notation "a / b" := (ndiv a b) : js_scope.
Notation "a <? b" := (nltb a b) : js_scope.
Notation "a >? b" := (nltb b a) (only parsing) : js_scope.
Notation "a <=? b" := (nleb a b) : js_scope.
Notation "# z" := (fromZ z%Z) (at level 1, format "# z") : js_scope.

Section Numbers.
Context {N : Number}.
Local Open Scope js_scope.

(** A decimal literal [m / 10^e], e.g. [1.6] is [dec 16 1].  The
    quotient of two exactly represented integers, correctly rounded,
    is the double the literal denotes. *)
Definition dec (m : Z) (e : nat) : num := #m / #(10 ^ Z.of_nat e).

(** [isNaN(x)]: the only number that is not equal to itself. *)
Definition isNaN (x : num) : bool := negb (neqb x x).

(** ToBoolean on a number: false for [0], [-0] and [NaN]. *)
Definition truthy (x : num) : bool := negb (neqb x #0) && negb (isNaN x).

(** [x || y] on numbers. *)
Definition orElse (x y : num) : num := if truthy x then x else y.

(** [x ** 2] and [x ** 3]. *)
Definition pow2 (x : num) : num := x * x.
Definition pow3 (x : num) : num := x * x * x.

(** [THREE.MathUtils.lerp(x, y, t)]. *)
Definition lerp (x y t : num) : num := (#1 - t) * x + t * y.

(** [THREE.MathUtils.randFloatSpread(range)] on the random draw [u]. *)
Definition randFloatSpread (range u : num) : num := range * (dec 5 1 - u).
End Numbers.

(* ----------------------------------------------------------------- *)
(** *** IEEE binary64 *)

Definition float_of_Z (z : Z) : float :=
  if (z <? 0)%Z then PrimFloat.opp (PrimFloat.of_uint63 (Uint63.of_Z (- z)))
  else PrimFloat.of_uint63 (Uint63.of_Z z).

Definition two52 : float := float_of_Z (2 ^ 52).

(** [Math.floor]: below [2^52] in magnitude, adding and removing [2^52]
    gives the nearest integer, which is then moved down when it
    overshoots; larger values, infinities and NaN are returned as
    they are. *)
Definition float_floor (x : float) : float :=
  if PrimFloat.ltb (PrimFloat.abs x) two52 then
    let r := if PrimFloat.leb PrimFloat.zero x
             then PrimFloat.sub (PrimFloat.add x two52) two52
             else PrimFloat.add (PrimFloat.sub x two52) two52 in
    if PrimFloat.ltb x r then PrimFloat.sub r PrimFloat.one else r
  else x.

(** [Math.round]: the nearest integer, halves going up. *)
Definition float_round (x : float) : float :=
  let f := float_floor x in
  if PrimFloat.ltb (PrimFloat.sub x f) (PrimFloat.div PrimFloat.one PrimFloat.two)
  then f else PrimFloat.add f PrimFloat.one.

Definition float_pi : float :=
  PrimFloat.div (float_of_Z 3141592653589793) (float_of_Z 1000000000000000).

Definition Float64 : Number := {|
  num := float;
  fromZ := float_of_Z;
  nadd := PrimFloat.add;
  nsub := PrimFloat.sub;
  nopp := PrimFloat.opp;
  nmul := PrimFloat.mul;
  ndiv := PrimFloat.div;
  nsqrt := PrimFloat.sqrt;
  nround := float_round;
  npi := float_pi;
  nltb := PrimFloat.ltb;
  nleb := PrimFloat.leb;
  neqb := PrimFloat.eqb
|}.

(* ----------------------------------------------------------------- *)
(** *** Real numbers *)

Definition Rltb (a b : R) : bool := if Rlt_dec a b then true else false.
Definition Rleb (a b : R) : bool := if Rle_dec a b then true else false.
Definition Reqb (a b : R) : bool := if Req_dec_T a b then true else false.
Definition Rround (x : R) : R := IZR (Int_part (x + / 2)).

Definition Ideal : Number := {|
  num := R;
  fromZ := IZR;
  nadd := Rplus;
  nsub := Rminus;
  nopp := Ropp;
  nmul := Rmult;
  ndiv := Rdiv;
  nsqrt := sqrt;
  nround := Rround;
  npi := PI;
  nltb := Rltb;
  nleb := Rleb;
  neqb := Reqb
|}.

(* ================================================================= *)
(** ** THREE.Vector3, THREE.Quaternion and THREE.Box3 *)

Section Geometry.
Context {N : Number}.
Local Open Scope js_scope.

Record Vector3 : Type := vec3 { vx : num; vy : num; vz : num }.
Record Quaternion : Type := quat { qx : num; qy : num; qz : num; qw : num }.
Record Box3 : Type := box3 { bmin : Vector3; bmax : Vector3 }.

Definition v_sub (a b : Vector3) : Vector3 :=
  vec3 (vx a - vx b) (vy a - vy b) (vz a - vz b).
Definition v_add (a b : Vector3) : Vector3 :=
  vec3 (vx a + vx b) (vy a + vy b) (vz a + vz b).
Definition multiplyScalar (a : Vector3) (s : num) : Vector3 :=
  vec3 (vx a * s) (vy a * s) (vz a * s).
Definition divideScalar (a : Vector3) (s : num) : Vector3 :=
  multiplyScalar a (#1 / s).
Definition dot (a b : Vector3) : num :=
  vx a * vx b + vy a * vy b + vz a * vz b.
Definition lengthSq (a : Vector3) : num :=
  vx a * vx a + vy a * vy a + vz a * vz a.
Definition v_length (a : Vector3) : num := nsqrt (lengthSq a).
Definition normalize (a : Vector3) : Vector3 :=
  divideScalar a (orElse (v_length a) #1).
Definition distanceToSquared (a b : Vector3) : num :=
  let dx := vx a - vx b in
  let dy := vy a - vy b in
  let dz := vz a - vz b in
  dx * dx + dy * dy + dz * dz.
Definition distanceTo (a b : Vector3) : num := nsqrt (distanceToSquared a b).
Definition setY (a : Vector3) (y : num) : Vector3 := vec3 (vx a) y (vz a).

(** [v.applyQuaternion(q)]: the quaternion times the vector, times
    the inverse quaternion. *)
Definition applyQuaternion (v : Vector3) (q : Quaternion) : Vector3 :=
  let x := vx v in let y := vy v in let z := vz v in
  let ix := qw q * x + qy q * z - qz q * y in
  let iy := qw q * y + qz q * x - qx q * z in
  let iz := qw q * z + qx q * y - qy q * x in
  let iw := - qx q * x - qy q * y - qz q * z in
  vec3 (ix * qw q + iw * - qx q + iy * - qz q - iz * - qy q)
       (iy * qw q + iw * - qy q + iz * - qx q - ix * - qz q)
       (iz * qw q + iw * - qz q + ix * - qy q - iy * - qx q).

(** [a.intersectsBox(b)], as three.js r150 writes it: six separating
    planes rule an intersection out. *)
Definition intersectsBox (a b : Box3) : bool :=
  if (vx (bmax b) <? vx (bmin a)) || (vx (bmin b) >? vx (bmax a)) ||
     (vy (bmax b) <? vy (bmin a)) || (vy (bmin b) >? vy (bmax a)) ||
     (vz (bmax b) <? vz (bmin a)) || (vz (bmin b) >? vz (bmax a))
  then false else true.
End Geometry.

(* ================================================================= *)
(** ** JavaScript arrays *)

(** [a[k] = x] for an index of the array; used to write a mutated
    object back to the slot it was read from. *)
Fixpoint list_set {A : Type} (k : nat) (x : A) (l : list A) : list A :=
  match l, k with
  | [], _ => []
  | _ :: t, O => x :: t
  | h :: t, S k' => h :: list_set k' x t
  end.

(** [a.splice(i, 1)]: the element at [i] leaves, the later ones move
    down by one. *)
Fixpoint splice1 {A : Type} (i : nat) (l : list A) : list A :=
  match l, i with
  | [], _ => []
  | _ :: t, O => t
  | h :: t, S i' => h :: splice1 i' t
  end.

(** The error monad of a loop body that reads [a[i]] and uses the
    result: [None] is the TypeError raised on [undefined]. *)
Definition bind {A B : Type} (c : option A) (k : A -> option B) : option B :=
  match c with
  | Some a => k a
  | None => None
  end.
Notation "x <- c ;; k" := (bind c (fun x => k))
  (at level 61, c at next level, right associativity).

(* ================================================================= *)
(** ** Entities *)

Section Entities.
Context {N : Number}.
Local Open Scope js_scope.

(** An enemy, as far as Game.js reads and writes it.  [enemy_id] stands
    for the identity of the object. *)
Record Enemy : Type := mkEnemy {
  enemy_id : nat;
  enemy_position : Vector3;
  enemy_velocity : Vector3;
  enemy_mass : num;
  enemy_radius : num;
  enemy_health : num;
  isAttacking : bool;
  attackAction : option num;
  lastAttackCycleTime : num;
  hasDamaged : bool
}.

Definition set_enemy_velocity (v : Vector3) (e : Enemy) : Enemy :=
  mkEnemy (enemy_id e) (enemy_position e) v (enemy_mass e) (enemy_radius e)
    (enemy_health e) (isAttacking e) (attackAction e) (lastAttackCycleTime e)
    (hasDamaged e).
Definition set_enemy_health (h : num) (e : Enemy) : Enemy :=
  mkEnemy (enemy_id e) (enemy_position e) (enemy_velocity e) (enemy_mass e)
    (enemy_radius e) h (isAttacking e) (attackAction e)
    (lastAttackCycleTime e) (hasDamaged e).
Definition set_lastAttackCycleTime (t : num) (e : Enemy) : Enemy :=
  mkEnemy (enemy_id e) (enemy_position e) (enemy_velocity e) (enemy_mass e)
    (enemy_radius e) (enemy_health e) (isAttacking e) (attackAction e) t
    (hasDamaged e).
Definition set_hasDamaged (b : bool) (e : Enemy) : Enemy :=
  mkEnemy (enemy_id e) (enemy_position e) (enemy_velocity e) (enemy_mass e)
    (enemy_radius e) (enemy_health e) (isAttacking e) (attackAction e)
    (lastAttackCycleTime e) b.

(** A bullet; [bullet_damage] is [None] when [bullet.damage] is null
    or undefined. *)
Record Bullet : Type := mkBullet {
  bullet_id : nat;
  bullet_position : Vector3;
  bullet_velocity : Vector3;
  bullet_mass : num;
  bullet_radius : num;
  bullet_damage : option num
}.

(** Modelled from the spec: Turret.js is not among the sources.  Of a
    turret (section 3: position, fire-cooldown timer, active flag)
    Game.js reads [t.object.position] and writes [t.active]. *)
Record Turret : Type := mkTurret {
  turret_position : Vector3;
  turret_active : bool;
  turret_cooldown : num
}.

Definition set_turret_active (b : bool) (t : Turret) : Turret :=
  mkTurret (turret_position t) b (turret_cooldown t).

(** Modelled from the spec: Turret.js is not among the sources.
    [new Turret(pos, scene, enemySpawner, bullets)] stands at [pos],
    active, ready to fire. *)
Definition newTurret (pos : Vector3) : Turret := mkTurret pos true #0.

(** The player, as far as Game.js reads it: the mesh (absent until the
    model has loaded), its position and orientation, and the mana and
    health the Player module keeps. *)
Record Player : Type := mkPlayer {
  player_mesh : bool;
  player_position : Vector3;
  player_quaternion : Quaternion;
  player_mana : num;
  player_health : num
}.

(** The translucent turret shown while dragging: where it stands and
    whether it is tinted green (valid) or red. *)
Record Ghost : Type := mkGhost {
  ghost_position : Vector3;
  ghost_green : bool
}.

(** A scattered prop: a clone of a template, scaled, turned and moved. *)
Inductive Template : Type := RockTemplate | FenceTemplate.

Record Object3D : Type := mkObject3D {
  obj_template : Template;
  obj_scale : num;
  obj_rotationY : num;
  obj_position : Vector3
}.

(** Modelled from the spec: GridPathFinder.js is not among the sources.
    The grid (section 4.3) is built with its dimensions and cell size
    and bakes one obstacle per [addCollider]; the boxes it was given
    are kept in the order of the calls. *)
Record GridPathFinder : Type := mkGridPathFinder {
  pf_cols : Z;
  pf_rows : Z;
  pf_cellSize : num;
  pf_colliders : list Box3
}.

Definition addCollider (pf : GridPathFinder) (box : Box3) : GridPathFinder :=
  mkGridPathFinder (pf_cols pf) (pf_rows pf) (pf_cellSize pf)
    (pf_colliders pf ++ [box]).
End Entities.

(* ================================================================= *)
(** ** The modules Game.js imports *)

(** What Game.js asks of the modules that are not among the sources,
    and of the environment: each method as a function of the state it
    owns.  [takeDamage] returns whether the enemy died and the health
    it is left with; [spendMana] whether the cost was paid;
    [Pickup_update] whether the pickup was collected; [Molotov_update]
    and [Potion_update] whether the object is finished.
    [setFromObject] is the world box of a prop and [Math_random k] the
    k-th value the sampling code of Game.js receives from
    [Math.random()].  Other code draws from the same generator in
    between (three.js names every object it creates, a clone of a
    template included, with an identifier made of draws); what that
    changes is which values these are, and they are left open. *)
Class Modules {N : Number} : Type := {
  Input : Type;
  Spawner : Type;
  Pickup : Type;
  Molotov : Type;
  Potion : Type;
  Camera : Type;
  Player_update : num -> Input -> Camera -> Player -> Player;
  Player_takeDamage : num -> Player -> Player;
  spendMana : num -> Player -> bool * Player;
  regenMana : num -> Player -> Player;
  Spawner_update : num -> Spawner -> list Enemy -> Spawner * list Enemy;
  Spawner_pause : Spawner -> Spawner;
  Spawner_resume : Spawner -> Spawner;
  Enemy_update : num -> Enemy -> Enemy;
  takeDamage : num -> Enemy -> bool * num;
  Bullet_update : num -> Bullet -> Bullet;
  Pickup_update : num -> Player -> Pickup -> bool * Pickup * Player;
  Turret_update : num -> list Enemy -> Turret -> Turret * list Bullet;
  Molotov_new : Vector3 -> Molotov;
  Molotov_update : num -> list Enemy -> Molotov -> bool * Molotov * list Enemy;
  Potion_update : num -> Player -> Potion -> bool * Potion * Player;
  Camera_update : num -> Input -> Player -> Camera -> Camera;
  setFromObject : Object3D -> Box3;
  Math_random : nat -> num
}.

(* ================================================================= *)
(** ** The game object *)

Section GameState.
Context {N : Number} {M : Modules}.
Local Open Scope js_scope.

Inductive SceneNode : Type :=
| PropNode (o : Object3D)
| GhostNode
| MolotovGhostNode
| BulletMesh (id : nat)
| PickupMesh (p : Pickup)
| SpotLightNode.

Inductive UICall : Type :=
| ui_dimStage
| ui_undimStage
| ui_showFloatingMessage
| ui_updateTurretCount (n : Z)
| ui_updateMolotovCount (n : Z)
| ui_update
| ui_updateManaBar
| ui_updatePlayerBars
| ui_updateCenterHUD
| ui_updateLevelRing.

(** The calls that leave Game.js, in the order they are made. *)
Inductive Call : Type :=
| RequestAnimationFrame
| ClockGetDelta
| ClockStop
| ClockStart
| RendererRender
| SceneAdd (n : SceneNode)
| SceneRemove (n : SceneNode)
| UI (c : UICall)
| CallPlayerUpdate
| CallPlayerTakeDamage (amount : num)
| CallSpendMana (cost : num)
| CallRegenMana
| CallSpawnerUpdate
| CallSpawnerPause
| CallSpawnerResume
| CallRemoveEnemy (id : nat)
| CallEnemyUpdate (id : nat)
| CallTakeDamage (id : nat) (amount : num)
| CallBulletUpdate (id : nat)
| CallPickupUpdate (p : Pickup)
| CallPickupDestroy (p : Pickup)
| CallTurretNew (pos : Vector3)
| CallTurretUpdate (pos : Vector3)
| CallMolotovNew (pos : Vector3)
| CallMolotovUpdate (m : Molotov)
| CallPotionUpdate
| CallCameraUpdate
| CallLightsUpdate
| CallMinimapUpdate.

(** The fields of [this] that the methods below read and write.
    [enemies] is [enemySpawner.enemies]; [draggingTurret] and
    [draggingMolotov] hold the ghost of the drag in progress;
    [randomCalls] counts the values the sampling code of Game.js has
    taken from [Math.random()] so far.  [pendingMolotovs] is not a
    field of [this]: it holds, oldest first, the drop positions of the
    molotov [pointerup] listeners that have paid and are suspended at
    [await import('./Molotov.js')]. *)
Record Game : Type := mkGame {
  paused : bool;
  isGameOver : bool;
  staticColliders : list Box3;
  pathfinder : option GridPathFinder;
  input : Input;
  player : Player;
  spawner : Spawner;
  enemies : list Enemy;
  bullets : list Bullet;
  pickups : list Pickup;
  turrets : list Turret;
  molotovs : list Molotov;
  activePotion : option Potion;
  turretTokens : Z;
  molotovTokens : Z;
  draggingTurret : option Ghost;
  draggingMolotov : option Vector3;
  camera : Camera;
  randomCalls : nat;
  trace : list Call;
  pendingMolotovs : list Vector3
}.

(** Field assignments [this.f = v]. *)
Definition set_paused (v : bool) (g : Game) : Game :=
  mkGame v (isGameOver g) (staticColliders g) (pathfinder g) (input g)
    (player g) (spawner g) (enemies g) (bullets g) (pickups g) (turrets g)
    (molotovs g) (activePotion g) (turretTokens g) (molotovTokens g)
    (draggingTurret g) (draggingMolotov g) (camera g) (randomCalls g)
    (trace g)
    (pendingMolotovs g).
Definition set_isGameOver (v : bool) (g : Game) : Game :=
  mkGame (paused g) v (staticColliders g) (pathfinder g) (input g)
    (player g) (spawner g) (enemies g) (bullets g) (pickups g) (turrets g)
    (molotovs g) (activePotion g) (turretTokens g) (molotovTokens g)
    (draggingTurret g) (draggingMolotov g) (camera g) (randomCalls g)
    (trace g)
    (pendingMolotovs g).
Definition set_staticColliders (v : list Box3) (g : Game) : Game :=
  mkGame (paused g) (isGameOver g) v (pathfinder g) (input g) (player g)
    (spawner g) (enemies g) (bullets g) (pickups g) (turrets g)
    (molotovs g) (activePotion g) (turretTokens g) (molotovTokens g)
    (draggingTurret g) (draggingMolotov g) (camera g) (randomCalls g)
    (trace g)
    (pendingMolotovs g).
Definition set_pathfinder (v : option GridPathFinder) (g : Game) : Game :=
  mkGame (paused g) (isGameOver g) (staticColliders g) v (input g)
    (player g) (spawner g) (enemies g) (bullets g) (pickups g) (turrets g)
    (molotovs g) (activePotion g) (turretTokens g) (molotovTokens g)
    (draggingTurret g) (draggingMolotov g) (camera g) (randomCalls g)
    (trace g)
    (pendingMolotovs g).
Definition set_player (v : Player) (g : Game) : Game :=
  mkGame (paused g) (isGameOver g) (staticColliders g) (pathfinder g)
    (input g) v (spawner g) (enemies g) (bullets g) (pickups g) (turrets g)
    (molotovs g) (activePotion g) (turretTokens g) (molotovTokens g)
    (draggingTurret g) (draggingMolotov g) (camera g) (randomCalls g)
    (trace g)
    (pendingMolotovs g).
Definition set_spawner (v : Spawner) (g : Game) : Game :=
  mkGame (paused g) (isGameOver g) (staticColliders g) (pathfinder g)
    (input g) (player g) v (enemies g) (bullets g) (pickups g) (turrets g)
    (molotovs g) (activePotion g) (turretTokens g) (molotovTokens g)
    (draggingTurret g) (draggingMolotov g) (camera g) (randomCalls g)
    (trace g)
    (pendingMolotovs g).
Definition set_enemies (v : list Enemy) (g : Game) : Game :=
  mkGame (paused g) (isGameOver g) (staticColliders g) (pathfinder g)
    (input g) (player g) (spawner g) v (bullets g) (pickups g) (turrets g)
    (molotovs g) (activePotion g) (turretTokens g) (molotovTokens g)
    (draggingTurret g) (draggingMolotov g) (camera g) (randomCalls g)
    (trace g)
    (pendingMolotovs g).
Definition set_bullets (v : list Bullet) (g : Game) : Game :=
  mkGame (paused g) (isGameOver g) (staticColliders g) (pathfinder g)
    (input g) (player g) (spawner g) (enemies g) v (pickups g) (turrets g)
    (molotovs g) (activePotion g) (turretTokens g) (molotovTokens g)
    (draggingTurret g) (draggingMolotov g) (camera g) (randomCalls g)
    (trace g)
    (pendingMolotovs g).
Definition set_pickups (v : list Pickup) (g : Game) : Game :=
  mkGame (paused g) (isGameOver g) (staticColliders g) (pathfinder g)
    (input g) (player g) (spawner g) (enemies g) (bullets g) v (turrets g)
    (molotovs g) (activePotion g) (turretTokens g) (molotovTokens g)
    (draggingTurret g) (draggingMolotov g) (camera g) (randomCalls g)
    (trace g)
    (pendingMolotovs g).
Definition set_turrets (v : list Turret) (g : Game) : Game :=
  mkGame (paused g) (isGameOver g) (staticColliders g) (pathfinder g)
    (input g) (player g) (spawner g) (enemies g) (bullets g) (pickups g) v
    (molotovs g) (activePotion g) (turretTokens g) (molotovTokens g)
    (draggingTurret g) (draggingMolotov g) (camera g) (randomCalls g)
    (trace g)
    (pendingMolotovs g).
Definition set_molotovs (v : list Molotov) (g : Game) : Game :=
  mkGame (paused g) (isGameOver g) (staticColliders g) (pathfinder g)
    (input g) (player g) (spawner g) (enemies g) (bullets g) (pickups g)
    (turrets g) v (activePotion g) (turretTokens g) (molotovTokens g)
    (draggingTurret g) (draggingMolotov g) (camera g) (randomCalls g)
    (trace g)
    (pendingMolotovs g).
Definition set_activePotion (v : option Potion) (g : Game) : Game :=
  mkGame (paused g) (isGameOver g) (staticColliders g) (pathfinder g)
    (input g) (player g) (spawner g) (enemies g) (bullets g) (pickups g)
    (turrets g) (molotovs g) v (turretTokens g) (molotovTokens g)
    (draggingTurret g) (draggingMolotov g) (camera g) (randomCalls g)
    (trace g)
    (pendingMolotovs g).
Definition set_turretTokens (v : Z) (g : Game) : Game :=
  mkGame (paused g) (isGameOver g) (staticColliders g) (pathfinder g)
    (input g) (player g) (spawner g) (enemies g) (bullets g) (pickups g)
    (turrets g) (molotovs g) (activePotion g) v (molotovTokens g)
    (draggingTurret g) (draggingMolotov g) (camera g) (randomCalls g)
    (trace g)
    (pendingMolotovs g).
Definition set_molotovTokens (v : Z) (g : Game) : Game :=
  mkGame (paused g) (isGameOver g) (staticColliders g) (pathfinder g)
    (input g) (player g) (spawner g) (enemies g) (bullets g) (pickups g)
    (turrets g) (molotovs g) (activePotion g) (turretTokens g) v
    (draggingTurret g) (draggingMolotov g) (camera g) (randomCalls g)
    (trace g)
    (pendingMolotovs g).
Definition set_draggingTurret (v : option Ghost) (g : Game) : Game :=
  mkGame (paused g) (isGameOver g) (staticColliders g) (pathfinder g)
    (input g) (player g) (spawner g) (enemies g) (bullets g) (pickups g)
    (turrets g) (molotovs g) (activePotion g) (turretTokens g)
    (molotovTokens g) v (draggingMolotov g) (camera g) (randomCalls g)
    (trace g)
    (pendingMolotovs g).
Definition set_draggingMolotov (v : option Vector3) (g : Game) : Game :=
  mkGame (paused g) (isGameOver g) (staticColliders g) (pathfinder g)
    (input g) (player g) (spawner g) (enemies g) (bullets g) (pickups g)
    (turrets g) (molotovs g) (activePotion g) (turretTokens g)
    (molotovTokens g) (draggingTurret g) v (camera g) (randomCalls g)
    (trace g)
    (pendingMolotovs g).
Definition set_camera (v : Camera) (g : Game) : Game :=
  mkGame (paused g) (isGameOver g) (staticColliders g) (pathfinder g)
    (input g) (player g) (spawner g) (enemies g) (bullets g) (pickups g)
    (turrets g) (molotovs g) (activePotion g) (turretTokens g)
    (molotovTokens g) (draggingTurret g) (draggingMolotov g) v
    (randomCalls g) (trace g)
    (pendingMolotovs g).
Definition set_randomCalls (v : nat) (g : Game) : Game :=
  mkGame (paused g) (isGameOver g) (staticColliders g) (pathfinder g)
    (input g) (player g) (spawner g) (enemies g) (bullets g) (pickups g)
    (turrets g) (molotovs g) (activePotion g) (turretTokens g)
    (molotovTokens g) (draggingTurret g) (draggingMolotov g) (camera g) v
    (trace g)
    (pendingMolotovs g).
Definition set_trace (v : list Call) (g : Game) : Game :=
  mkGame (paused g) (isGameOver g) (staticColliders g) (pathfinder g)
    (input g) (player g) (spawner g) (enemies g) (bullets g) (pickups g)
    (turrets g) (molotovs g) (activePotion g) (turretTokens g)
    (molotovTokens g) (draggingTurret g) (draggingMolotov g) (camera g)
    (randomCalls g) v
    (pendingMolotovs g).
Definition set_pendingMolotovs (v : list Vector3) (g : Game) : Game :=
  mkGame (paused g) (isGameOver g) (staticColliders g) (pathfinder g)
    (input g) (player g) (spawner g) (enemies g) (bullets g) (pickups g)
    (turrets g) (molotovs g) (activePotion g) (turretTokens g)
    (molotovTokens g) (draggingTurret g) (draggingMolotov g) (camera g)
    (randomCalls g) (trace g) v.

(** A call is appended to the trace. *)
Definition call (c : Call) (g : Game) : Game := set_trace (trace g ++ [c]) g.
End GameState.

(* ================================================================= *)
(** ** The methods of Game *)

Section Operations.
Context {N : Number} {M : Modules}.
Local Open Scope js_scope.

(** *** Constructor constants *)

Definition playerSpawnPos : Vector3 := vec3 #0 #0 #0.
Definition reservedRadius : num := #60.
Definition reservedRadiusSq : num := pow2 reservedRadius.
Definition TURRET_RADIUS : num := dec 16 1.

(** *** togglePause *)

Definition togglePause (g : Game) : Game :=
  let g := set_paused (negb (paused g)) g in
  if paused g then
    let g := call ClockStop g in
    let g := call CallSpawnerPause (set_spawner (Spawner_pause (spawner g)) g) in
    let g := set_turrets (map (set_turret_active false) (turrets g)) g in
    let g := call (UI ui_dimStage) g in
    call (UI ui_showFloatingMessage) g
  else
    let g := call ClockStart g in
    let g := call CallSpawnerResume (set_spawner (Spawner_resume (spawner g)) g) in
    let g := set_turrets (map (set_turret_active true) (turrets g)) g in
    call (UI ui_undimStage) g.

(** *** isTurretPlacementValid *)

(** The flat box around the proposed centre. *)
Definition turretFootprint (pos : Vector3) : Box3 :=
  let r := TURRET_RADIUS in
  box3 (vec3 (vx pos - r) #(-1) (vz pos - r))
       (vec3 (vx pos + r) #3 (vz pos + r)).

(** The loop over the turrets already placed. *)
Fixpoint turretsAllow (ts : list Turret) (pos : Vector3) : bool :=
  match ts with
  | [] => true
  | t :: ts' =>
      if distanceToSquared (turret_position t) pos <? pow2 (TURRET_RADIUS * #2)
      then false
      else turretsAllow ts' pos
  end.

Definition isTurretPlacementValid (g : Game) (pos : Vector3) : bool :=
  let bb := turretFootprint pos in
  if existsb (fun box => intersectsBox box bb) (staticColliders g) then false
  else turretsAllow (turrets g) pos.

(** *** Scattered props: loadStaticRocks and loadStaticFences *)

Definition rockCount : nat := 15.
Definition fenceCount : nat := 5.
Definition minScale : num := #1.
Definition maxScale : num := #10.
Definition fenceScale : num := #8.
Definition mapHalfSize : num := #250.
Definition maxAttempts : nat := 40.

(** [Math.random()] where Game.js samples: the next value. *)
Definition random (g : Game) : num * Game :=
  (Math_random (randomCalls g), set_randomCalls (S (randomCalls g)) g).

(** Step 1 of an attempt: clone and randomise. *)
Definition sampleRock (g : Game) : Object3D * Game :=
  let (u, g) := random g in
  let t := pow3 u in
  let s := lerp minScale maxScale t in
  let (u, g) := random g in
  let rotation := u * npi * #2 in
  let (ux, g) := random g in
  let (uz, g) := random g in
  (mkObject3D RockTemplate s rotation
     (vec3 (randFloatSpread (mapHalfSize * #2) ux) #0
           (randFloatSpread (mapHalfSize * #2) uz)), g).

Definition sampleFence (g : Game) : Object3D * Game :=
  let (u, g) := random g in
  let rotation := u * npi * #2 in
  let (ux, g) := random g in
  let (uz, g) := random g in
  (mkObject3D FenceTemplate fenceScale rotation
     (vec3 (randFloatSpread (mapHalfSize * #2) ux) #0
           (randFloatSpread (mapHalfSize * #2) uz)), g).

(** Keep clear of the player spawn pad. *)
Definition clearOfPlayer (pos : Vector3) : bool :=
  distanceToSquared (setY pos #0) playerSpawnPos >? reservedRadiusSq.

(** Step 2 of an attempt: the world box, the two tests, and the
    commit.  Returns [placed]. *)
Definition tryPlace (o : Object3D) (g : Game) : bool * Game :=
  let tmpBox := setFromObject o in
  let overlapsSomething :=
    negb (clearOfPlayer (obj_position o)) ||
    existsb (fun b => intersectsBox b tmpBox) (staticColliders g) in
  if negb overlapsSomething then
    let g := call (SceneAdd (PropNode o)) g in
    let g := set_staticColliders (staticColliders g ++ [tmpBox]) g in
    (true, g)
  else (false, g).

(** [for (attempt = 0; attempt < maxAttempts && !placed; attempt++)],
    on the number of attempts left. *)
Fixpoint attempts (sample : Game -> Object3D * Game) (left : nat) (g : Game)
  : Game :=
  match left with
  | O => g
  | S left' =>
      let (o, g) := sample g in
      let (placed, g) := tryPlace o g in
      if placed then g else attempts sample left' g
  end.

(** [for (n = 0; n < count; n++)], on the number of instances left. *)
Fixpoint scatter (sample : Game -> Object3D * Game) (count : nat) (g : Game)
  : Game :=
  match count with
  | O => g
  | S count' => scatter sample count' (attempts sample maxAttempts g)
  end.

Definition loadStaticRocks (g : Game) : Game := scatter sampleRock rockCount g.
Definition loadStaticFences (g : Game) : Game := scatter sampleFence fenceCount g.

(** *** initPathfinding *)

Definition mapCells : Z := 250.
Definition cellSize : num := #2.

Definition initPathfinding (g : Game) : Game :=
  let pf := mkGridPathFinder mapCells mapCells cellSize [] in
  set_pathfinder (Some (fold_left addCollider (staticColliders g) pf)) g.

(** The tail of the constructor once the fixed scenery (barn, farm,
    trees, vehicles) is registered: the random props, then the grid. *)
Definition worldBuild (g : Game) : Game :=
  initPathfinding (loadStaticFences (loadStaticRocks g)).

(** *** The knife: player.onKnifeHit *)

Definition knifeRange : num := #10.

(** The player's forward direction. *)
Definition knifeForward (p : Player) : Vector3 :=
  normalize (applyQuaternion (vec3 #0 #0 #1) (player_quaternion p)).

(** Modelled from the spec: EnemySpawner.js is not among the sources.
    [removeEnemy(enemy)] takes the enemy out of the live collection at
    once (section 4.4, no deferred removal) and in place (section 5,
    "in-place removal"): the first slot holding that object leaves
    the array and the later enemies move down by one. *)
Fixpoint removeById (id : nat) (es : list Enemy) : list Enemy :=
  match es with
  | [] => []
  | e :: es' => if Nat.eqb (enemy_id e) id then es' else e :: removeById id es'
  end.

Definition removeEnemy (enemy : Enemy) (g : Game) : Game :=
  call (CallRemoveEnemy (enemy_id enemy))
       (set_enemies (removeById (enemy_id enemy) (enemies g)) g).

(** The callback given to [forEach], for the enemy read at index [k].
    The object is mutated where it sits in the array. *)
Definition knifeHitEnemy (damage : num) (forward : Vector3) (k : nat)
  (enemy : Enemy) (g : Game) : Game :=
  let toEnemy := v_sub (enemy_position enemy) (player_position (player g)) in
  let distance := v_length toEnemy in
  if distance <? knifeRange then
    let toEnemy := normalize toEnemy in
    if dot forward toEnemy >? #0 then
      let (enemyDead, health) := takeDamage damage enemy in
      let enemy := set_enemy_health health enemy in
      let g := call (CallTakeDamage (enemy_id enemy) damage)
                    (set_enemies (list_set k enemy (enemies g)) g) in
      if enemyDead then removeEnemy enemy g
      else
        let knockback := damage * dec 5 1 in
        let knockbackDir := normalize (setY toEnemy #0) in
        let enemy :=
          set_enemy_velocity
            (v_add (enemy_velocity enemy)
                   (multiplyScalar knockbackDir (knockback / enemy_mass enemy)))
            enemy in
        set_enemies (list_set k enemy (enemies g)) g
    else g
  else g.

(** [enemies.forEach(callback)]: the length is read once; index [k]
    is visited when it is still an index of the array, which the
    callback may have shortened in the meantime. *)
Fixpoint knifeForEach (damage : num) (forward : Vector3) (left k : nat)
  (g : Game) : Game :=
  match left with
  | O => g
  | S left' =>
      let g := match nth_error (enemies g) k with
               | Some enemy => knifeHitEnemy damage forward k enemy g
               | None => g
               end in
      knifeForEach damage forward left' (S k) g
  end.

Definition onKnifeHit (damage : num) (g : Game) : Game :=
  let forward := knifeForward (player g) in
  knifeForEach damage forward (List.length (enemies g)) 0 g.

(** *** Dragging and placing a turret *)

Definition cancelActiveDrag (g : Game) : Game :=
  let g :=
    match draggingTurret g with
    | Some _ => set_draggingTurret None (call (SceneRemove GhostNode) g)
    | None => g
    end in
  match draggingMolotov g with
  | Some _ => set_draggingMolotov None (call (SceneRemove MolotovGhostNode) g)
  | None => g
  end.

Definition onStartTurretDrag (g : Game) : Game :=
  if (turretTokens g <=? 0)%Z then g
  else
    let g := cancelActiveDrag g in
    let g := call (SceneAdd GhostNode) g in
    set_draggingTurret (Some (mkGhost (vec3 #0 #0 #0) true)) g.

(** The optional grid snap of the pointer-move listener. *)
Definition snapToGrid (hit : Vector3) : Vector3 :=
  let grid := #2 in
  vec3 (nround (vx hit / grid) * grid) #0 (nround (vz hit / grid) * grid).

(** The [pointermove] listener of the turret drag.  [hit] is what
    [ray.intersectPlane(ground, hit)] found: the point of the ground
    under the pointer, if any. *)
Definition pointermove (hit : option Vector3) (g : Game) : Game :=
  match draggingTurret g with
  | None => g
  | Some _ =>
      match hit with
      | Some hit =>
          let hit := snapToGrid hit in
          let ok := isTurretPlacementValid g hit in
          set_draggingTurret (Some (mkGhost hit ok)) g
      | None => g
      end
  end.

Definition addTurretToken (count : Z) (g : Game) : Game :=
  let g := set_turretTokens (turretTokens g + count)%Z g in
  let g := call (UI (ui_updateTurretCount (turretTokens g))) g in
  call (UI ui_showFloatingMessage) g.

Definition turretCost : num := #50.

(** The [pointerup] listener of the turret drag. *)
Definition pointerup (g : Game) : Game :=
  match draggingTurret g with
  | None => g
  | Some ghost =>
      let pos := ghost_position ghost in
      let ok := negb (isNaN (vx pos)) && isTurretPlacementValid g pos in
      let g :=
        if ok then
          let (paid, p) := spendMana turretCost (player g) in
          let g := call (CallSpendMana turretCost) (set_player p g) in
          if paid then
            let turret := newTurret pos in
            let g := call (CallTurretNew pos) g in
            let g := set_turrets (turrets g ++ [turret]) g in
            addTurretToken (-1) g
          else g
        else call (UI ui_showFloatingMessage) g in
      let g := call (SceneRemove GhostNode) g in
      set_draggingTurret None g
  end.

(** *** Dragging and placing a molotov *)

Definition onStartMolotovDrag (g : Game) : Game :=
  if (molotovTokens g <=? 0)%Z then g
  else
    let g := cancelActiveDrag g in
    let g := call (SceneAdd MolotovGhostNode) g in
    set_draggingMolotov (Some (vec3 #0 #0 #0)) g.

(** The [pointermove] listener of the molotov drag. *)
Definition pointermoveMolotov (hit : option Vector3) (g : Game) : Game :=
  match draggingMolotov g with
  | None => g
  | Some _ =>
      match hit with
      | Some hit => set_draggingMolotov (Some (snapToGrid hit)) g
      | None => g
      end
  end.

Definition addMolotovToken (count : Z) (g : Game) : Game :=
  let g := set_molotovTokens (molotovTokens g + count)%Z g in
  let g := call (UI (ui_updateMolotovCount (molotovTokens g))) g in
  call (UI ui_showFloatingMessage) g.

Definition molotovCost : num := #50.

(** The [pointerup] listener of the molotov drag, up to its [await]:
    the listener is [async], and when the mana is paid it suspends at
    [await import('./Molotov.js')] with the drop position in hand. *)
Definition pointerupMolotov (g : Game) : Game :=
  match draggingMolotov g with
  | None => g
  | Some dropPos =>
      let g := call (SceneRemove MolotovGhostNode) g in
      let g := set_draggingMolotov None g in
      if negb (isNaN (vx dropPos)) then
        let (paid, p) := spendMana molotovCost (player g) in
        let g := call (CallSpendMana molotovCost) (set_player p g) in
        if paid then set_pendingMolotovs (pendingMolotovs g ++ [dropPos]) g
        else g
      else g
  end.

(** The rest of that listener, run in a later turn of the event loop,
    once the module has arrived: the listener suspended first goes on
    first. *)
Definition molotovImported (g : Game) : Game :=
  match pendingMolotovs g with
  | [] => g
  | dropPos :: rest =>
      let g := set_pendingMolotovs rest g in
      let m := Molotov_new dropPos in
      let g := call (CallMolotovNew dropPos) g in
      let g := set_molotovs (molotovs g ++ [m]) g in
      addMolotovToken (-1) g
  end.

(** *** onPlayerDeath *)

Definition onPlayerDeath (g : Game) : Game :=
  if isGameOver g then g
  else
    let g := set_isGameOver true g in
    let g := call CallSpawnerPause (set_spawner (Spawner_pause (spawner g)) g) in
    let g := set_turrets (map (set_turret_active false) (turrets g)) g in
    let g := call (SceneAdd SpotLightNode) g in
    call (UI ui_dimStage) g.

(** *** animate: the phases of a running frame *)

Definition updatePlayer (delta : num) (g : Game) : Game :=
  call CallPlayerUpdate
       (set_player (Player_update delta (input g) (camera g) (player g)) g).

Definition attackRange : num := #5.

(** The body of the loop over the enemies, for the enemy read at
    index [k]. *)
Definition enemyTick (delta : num) (k : nat) (enemy : Enemy) (g : Game) : Game :=
  let g := call (CallEnemyUpdate (enemy_id enemy)) g in
  let enemy := Enemy_update delta enemy in
  let (enemy, g) :=
    match isAttacking enemy, attackAction enemy with
    | true, Some time =>
        let enemy :=
          if time <? lastAttackCycleTime enemy
          then set_hasDamaged false enemy else enemy in
        let enemy := set_lastAttackCycleTime time enemy in
        let distance :=
          distanceTo (enemy_position enemy) (player_position (player g)) in
        if (distance <? attackRange) && negb (hasDamaged enemy) then
          let g := call (CallPlayerTakeDamage #10)
                        (set_player (Player_takeDamage #10 (player g)) g) in
          (set_hasDamaged true enemy, g)
        else (enemy, g)
    | _, _ => (set_hasDamaged false enemy, g)
    end in
  set_enemies (list_set k enemy (enemies g)) g.

(** [for (let enemy of enemies)]: the iterator stops at the first
    index that is not in the array. *)
Fixpoint enemiesForOf (delta : num) (left k : nat) (g : Game) : Game :=
  match left with
  | O => g
  | S left' =>
      match nth_error (enemies g) k with
      | Some enemy => enemiesForOf delta left' (S k) (enemyTick delta k enemy g)
      | None => g
      end
  end.

Definition updateEnemies (delta : num) (g : Game) : Game :=
  let (sp, es) := Spawner_update delta (spawner g) (enemies g) in
  let g := call CallSpawnerUpdate (set_enemies es (set_spawner sp g)) in
  enemiesForOf delta (List.length (enemies g)) 0 g.

(** Kinetic energy of the bullet, scaled; [bullet.damage] replaces it
    when a power-up has set it. *)
Definition bulletDamage (bullet : Bullet) : num :=
  let energy := dec 5 1 * bullet_mass bullet * lengthSq (bullet_velocity bullet) in
  let baseDmg := energy * dec 2 2 in
  match bullet_damage bullet with
  | Some d => d
  | None => baseDmg
  end.

(** The sphere test of the inner loop. *)
Definition bulletHits (bullet : Bullet) (enemy : Enemy) : bool :=
  let collisionDistance := bullet_radius bullet + enemy_radius enemy in
  let distance := distanceTo (bullet_position bullet) (enemy_position enemy) in
  distance <? collisionDistance.

(** [for (j = enemies.length - 1; j >= 0; j--)] for the bullet read at
    index [i]; [j1] is [j + 1].  A hit ends the loop. *)
Fixpoint bulletVsEnemies (i : nat) (bullet : Bullet) (j1 : nat) (g : Game)
  : option Game :=
  match j1 with
  | O => Some g
  | S j =>
      enemy <- nth_error (enemies g) j ;;
      if bulletHits bullet enemy then
        let dmg := bulletDamage bullet in
        let (enemyDead, health) := takeDamage dmg enemy in
        let enemy := set_enemy_health health enemy in
        let g := call (CallTakeDamage (enemy_id enemy) dmg)
                      (set_enemies (list_set j enemy (enemies g)) g) in
        let g := if enemyDead then removeEnemy enemy g else g in
        let g := call (SceneRemove (BulletMesh (bullet_id bullet))) g in
        Some (set_bullets (splice1 i (bullets g)) g)
      else bulletVsEnemies i bullet j g
  end.

(** [for (i = bullets.length - 1; i >= 0; i--)]; [i1] is [i + 1]. *)
Fixpoint bulletsLoop (delta : num) (i1 : nat) (g : Game) : option Game :=
  match i1 with
  | O => Some g
  | S i =>
      bullet <- nth_error (bullets g) i ;;
      let g := call (CallBulletUpdate (bullet_id bullet)) g in
      let bullet := Bullet_update delta bullet in
      let g := set_bullets (list_set i bullet (bullets g)) g in
      g <- bulletVsEnemies i bullet (List.length (enemies g)) g ;;
      bulletsLoop delta i g
  end.

Definition updateBullets (delta : num) (g : Game) : option Game :=
  bulletsLoop delta (List.length (bullets g)) g.

(** [for (i = pickups.length - 1; i >= 0; i--)]; [i1] is [i + 1]. *)
Fixpoint pickupsLoop (delta : num) (i1 : nat) (g : Game) : option Game :=
  match i1 with
  | O => Some g
  | S i =>
      heart <- nth_error (pickups g) i ;;
      let g := call (CallPickupUpdate heart) g in
      let '(collected, heart, p) := Pickup_update delta (player g) heart in
      let g := set_player p (set_pickups (list_set i heart (pickups g)) g) in
      let g :=
        if collected then
          let g := call (SceneRemove (PickupMesh heart)) g in
          let g := call (CallPickupDestroy heart) g in
          let g := set_pickups (splice1 i (pickups g)) g in
          call (UI ui_showFloatingMessage) g
        else g in
      pickupsLoop delta i g
  end.

Definition updatePickups (delta : num) (g : Game) : option Game :=
  pickupsLoop delta (List.length (pickups g)) g.

Definition updateCamera (delta : num) (g : Game) : Game :=
  call CallCameraUpdate
       (set_camera (Camera_update delta (input g) (player g) (camera g)) g).

(** [for (const t of turrets) t.update(delta)]; a turret that fires
    pushes its bullets. *)
Fixpoint turretsForOf (delta : num) (left k : nat) (g : Game) : Game :=
  match left with
  | O => g
  | S left' =>
      match nth_error (turrets g) k with
      | Some t =>
          let g := call (CallTurretUpdate (turret_position t)) g in
          let (t, fired) := Turret_update delta (enemies g) t in
          let g := set_turrets (list_set k t (turrets g)) g in
          let g := set_bullets (bullets g ++ fired) g in
          turretsForOf delta left' (S k) g
      | None => g
      end
  end.

Definition updateTurrets (delta : num) (g : Game) : Game :=
  turretsForOf delta (List.length (turrets g)) 0 g.

(** [for (i = molotovs.length - 1; i >= 0; i--)]; [i1] is [i + 1]. *)
Fixpoint molotovsLoop (delta : num) (i1 : nat) (g : Game) : option Game :=
  match i1 with
  | O => Some g
  | S i =>
      m <- nth_error (molotovs g) i ;;
      let g := call (CallMolotovUpdate m) g in
      let '(dead, m, es) := Molotov_update delta (enemies g) m in
      let g := set_enemies es (set_molotovs (list_set i m (molotovs g)) g) in
      let g := if dead then set_molotovs (splice1 i (molotovs g)) g else g in
      molotovsLoop delta i g
  end.

Definition updateMolotovs (delta : num) (g : Game) : option Game :=
  molotovsLoop delta (List.length (molotovs g)) g.

Definition updatePotion (delta : num) (g : Game) : Game :=
  match activePotion g with
  | Some potion =>
      let g := call CallPotionUpdate g in
      let '(expired, potion, p) := Potion_update delta (player g) potion in
      let g := set_player p g in
      if expired then set_activePotion None g
      else set_activePotion (Some potion) g
  | None => g
  end.

Definition updatePlayerBars (delta : num) (g : Game) : Game :=
  let g := call CallRegenMana (set_player (regenMana delta (player g)) g) in
  let g := call (UI ui_updateManaBar) g in
  let g := call (UI ui_updatePlayerBars) g in
  let g := call (UI ui_updateCenterHUD) g in
  call (UI ui_updateLevelRing) g.

(** *** animate *)

(** One frame; [delta] is what [clock.getDelta()] returned. *)
Definition animate (delta : num) (g : Game) : option Game :=
  let g := call RequestAnimationFrame g in
  let g := call ClockGetDelta g in
  if paused g then Some (call RendererRender g)
  else if isGameOver g then Some (call RendererRender g)
  else if negb (player_mesh (player g)) then Some g
  else
    let g := updatePlayer delta g in
    let g := call CallLightsUpdate g in
    let g := updateEnemies delta g in
    g <- updateBullets delta g ;;
    g <- updatePickups delta g ;;
    let g := call (UI ui_update) g in
    let g := updateCamera delta g in
    let g := updateTurrets delta g in
    g <- updateMolotovs delta g ;;
    let g := updatePotion delta g in
    let g := updatePlayerBars delta g in
    let g := call CallMinimapUpdate g in
    Some (call RendererRender g).

(** [n] frames in a row, with the deltas the clock gives. *)
Fixpoint frames (deltas : list num) (g : Game) : option Game :=
  match deltas with
  | [] => Some g
  | delta :: rest => g <- animate delta g ;; frames rest g
  end.
End Operations.

(* ================================================================= *)
(** ** Events *)

Section Events.
Context {N : Number} {M : Modules}.

(** What reaches the game once the world is built: a frame with its
    clock delta, the pause key, the turret and molotov buttons, the
    pointer (both drags listen to it, the turret's listener first),
    the knife reaching its hit moment, the death of the player, the
    arrival of the molotov module for the listener that has waited
    longest, and the calls of [addTurretToken] and [addMolotovToken]
    that come from outside Game.js. *)
Inductive Event : Type :=
| EvFrame (delta : num)
| EvTogglePause
| EvStartTurretDrag
| EvStartMolotovDrag
| EvPointerMove (hit : option Vector3)
| EvPointerUp
| EvKnifeHit (damage : num)
| EvPlayerDeath
| EvMolotovImported
| EvAddTurretToken (count : Z)
| EvAddMolotovToken (count : Z).

Definition dispatch (ev : Event) (g : Game) : option Game :=
  match ev with
  | EvFrame delta => animate delta g
  | EvTogglePause => Some (togglePause g)
  | EvStartTurretDrag => Some (onStartTurretDrag g)
  | EvStartMolotovDrag => Some (onStartMolotovDrag g)
  | EvPointerMove hit => Some (pointermoveMolotov hit (pointermove hit g))
  | EvPointerUp => Some (pointerupMolotov (pointerup g))
  | EvKnifeHit damage => Some (onKnifeHit damage g)
  | EvPlayerDeath => Some (onPlayerDeath g)
  | EvMolotovImported => Some (molotovImported g)
  | EvAddTurretToken count => Some (addTurretToken count g)
  | EvAddMolotovToken count => Some (addMolotovToken count g)
  end.

Fixpoint run (evs : list Event) (g : Game) : option Game :=
  match evs with
  | [] => Some g
  | ev :: rest => g <- dispatch ev g ;; run rest g
  end.

(** The state the simulation acts on: everything but the drags in
    progress, the count of random draws and the trace. *)
Definition gameplay (g : Game) :=
  (paused g, isGameOver g, staticColliders g, pathfinder g, input g,
   player g, spawner g, enemies g, bullets g, pickups g, turrets g,
   molotovs g, activePotion g, turretTokens g, molotovTokens g, camera g,
   pendingMolotovs g).
End Events.

(* ================================================================= *)
(** ** A small world to run the code in *)

Section SimpleWorld.
Context {N : Number}.
Local Open Scope js_scope.

(** Modelled from the spec: Enemy.js is not among the sources.
    Section 4.4: [takeDamage(amount)] returns whether the target's
    health reached zero; health is clamped at zero, never negative. *)
Definition simple_takeDamage (amount : num) (e : Enemy) : bool * num :=
  let h := enemy_health e - amount in
  if h <=? #0 then (true, #0) else (false, h).

(** A mana purse: the cost is paid when the player can afford it. *)
Definition simple_spendMana (cost : num) (p : Player) : bool * Player :=
  if cost <=? player_mana p then
    (true, mkPlayer (player_mesh p) (player_position p) (player_quaternion p)
             (player_mana p - cost) (player_health p))
  else (false, p).

Definition simple_Player_takeDamage (amount : num) (p : Player) : Player :=
  mkPlayer (player_mesh p) (player_position p) (player_quaternion p)
    (player_mana p) (player_health p - amount).

(** A bullet flies on: [position += velocity * delta]. *)
Definition simple_Bullet_update (delta : num) (b : Bullet) : Bullet :=
  mkBullet (bullet_id b)
    (v_add (bullet_position b) (multiplyScalar (bullet_velocity b) delta))
    (bullet_velocity b) (bullet_mass b) (bullet_radius b) (bullet_damage b).

(** A prop whose template is the cube of half-size 1 around its
    origin. *)
Definition simple_setFromObject (o : Object3D) : Box3 :=
  let s := obj_scale o in
  let p := obj_position o in
  box3 (vec3 (vx p - s) (vy p - s) (vz p - s))
       (vec3 (vx p + s) (vy p + s) (vz p + s)).

(** Draws in [0, 1): 0.11, 0.48, 0.85, 0.22, ... *)
Definition simple_random (k : nat) : num :=
  dec ((Z.of_nat k * 37 + 11) mod 100) 2.

Definition Simple : Modules := {|
  Input := unit;
  Spawner := bool;
  Pickup := nat;
  Molotov := nat;
  Potion := nat;
  Camera := unit;
  Player_update := fun _ _ _ p => p;
  Player_takeDamage := simple_Player_takeDamage;
  spendMana := simple_spendMana;
  regenMana := fun _ p => p;
  Spawner_update := fun _ s es => (s, es);
  Spawner_pause := fun _ => true;
  Spawner_resume := fun _ => false;
  Enemy_update := fun _ e => e;
  takeDamage := simple_takeDamage;
  Bullet_update := simple_Bullet_update;
  Pickup_update := fun _ p h => (Nat.eqb h 0, h, p);
  Turret_update := fun _ _ t => (t, []);
  Molotov_new := fun _ => 3%nat;
  Molotov_update := fun _ es m => (Nat.eqb m 0, Nat.pred m, es);
  Potion_update := fun _ p n => (Nat.eqb n 0, Nat.pred n, p);
  Camera_update := fun _ _ _ c => c;
  setFromObject := simple_setFromObject;
  Math_random := simple_random
|}.

(** A built world with nothing in it: no collider, no enemy, the
    player at the spawn point with 100 mana. *)
Definition emptyGame : @Game N Simple :=
  @mkGame N Simple false false [] None tt
    (mkPlayer true (vec3 #0 #0 #0) (quat #0 #0 #0 #1) #100 #100)
    false [] [] [] [] [] None 1900%Z 1000%Z None None tt 0 [] [].

(** An enemy at rest at [(x, 0, z)], of mass 1 and radius 1. *)
Definition enemyAt (id : nat) (x z : Z) (health : Z) : Enemy :=
  mkEnemy id (vec3 #x #0 #z) (vec3 #0 #0 #0) #1 #1 #health false None #0 false.
End SimpleWorld.

(* ================================================================= *)
(** ** Vocabulary of the statements *)

Section Vocabulary.
Context {N : Number} {M : Modules}.
Local Open Scope js_scope.

(** The static collision world: the collider registry and the grid
    baked from it. *)
Definition static_world (g : Game) : list Box3 * option GridPathFinder :=
  (staticColliders g, pathfinder g).

(** What a running frame and the knife never write. *)
Definition untouched (g : Game) :=
  (staticColliders g, pathfinder g, draggingTurret g, draggingMolotov g,
   turretTokens g, molotovTokens g, randomCalls g, paused g, isGameOver g,
   pendingMolotovs g).

(** At most one drag is in progress. *)
Definition oneDrag (g : Game) : Prop :=
  draggingTurret g = None \/ draggingMolotov g = None.

(** The test of the [pointerup] listener. *)
Definition commitOk (g : Game) (pos : Vector3) : bool :=
  negb (isNaN (vx pos)) && isTurretPlacementValid g pos.

(** What a frame that simulates nothing leaves in the trace. *)
Definition frozenFrame : list Call :=
  [RequestAnimationFrame; ClockGetDelta; RendererRender].

(** The sampler of a template and the number of values one attempt
    samples: [Math.random()] and [randFloatSpread] take one each.  The
    draws three.js makes for the identifiers of the clone are not
    among them. *)
Definition sampler (t : Template) : Game -> Object3D * Game :=
  match t with
  | RockTemplate => sampleRock
  | FenceTemplate => sampleFence
  end.

Definition draws (t : Template) : nat :=
  match t with
  | RockTemplate => 4
  | FenceTemplate => 3
  end.

(** The game after [n] more sampled values and nothing else. *)
Definition skipDraws (n : nat) (g : Game) : Game :=
  set_randomCalls (n + randomCalls g) g.

(** The validity test of an attempt, failed. *)
Definition overlapsSomething (o : Object3D) (g : Game) : bool :=
  negb (clearOfPlayer (obj_position o)) ||
  existsb (fun b => intersectsBox b (setFromObject o)) (staticColliders g).

(** The candidate of attempt [k] for the instance placed from [g]. *)
Definition candidate (t : Template) (g : Game) (k : nat) : Object3D :=
  fst (sampler t (skipDraws (draws t * k) g)).

(** Each object stands clear of the spawn pad and its box meets no box
    registered before it: those of [cs] and those of the objects
    earlier in the list. *)
Fixpoint wellPlaced (cs : list Box3) (objs : list Object3D) : Prop :=
  match objs with
  | [] => True
  | o :: rest =>
      clearOfPlayer (obj_position o) = true /\
      (forall b, In b cs -> intersectsBox b (setFromObject o) = false) /\
      wellPlaced (cs ++ [setFromObject o]) rest
  end.

(** What a pass of the placement loops commits: the objects added to
    the scene, in order, with their boxes appended to the colliders. *)
Definition commits (g g' : Game) (objs : list Object3D) : Prop :=
  staticColliders g' = staticColliders g ++ map setFromObject objs /\
  trace g' = trace g ++ map (fun o => SceneAdd (PropNode o)) objs /\
  turrets g' = turrets g.


(** The objects a pass handed to [update], in the order of the calls. *)
Definition pickupVisits (tr : list Call) : list Pickup :=
  flat_map (fun c => match c with CallPickupUpdate p => [p] | _ => [] end) tr.

Definition molotovVisits (tr : list Call) : list Molotov :=
  flat_map (fun c => match c with CallMolotovUpdate m => [m] | _ => [] end) tr.

Definition bulletVisits (tr : list Call) : list nat :=
  flat_map (fun c => match c with CallBulletUpdate id => [id] | _ => [] end) tr.

(** The enemies a knife pass handed to [takeDamage]. *)
Definition damagedIds (tr : list Call) : list nat :=
  flat_map (fun c => match c with CallTakeDamage id _ => [id] | _ => [] end) tr.

(** The test of the callback: closer than [knifeRange] and in the
    forward half-space. *)
Definition knifeReaches (forward : Vector3) (p : Player) (enemy : Enemy) : bool :=
  let toEnemy := v_sub (enemy_position enemy) (player_position p) in
  (v_length toEnemy <? knifeRange) && (dot forward (normalize toEnemy) >? #0).


(** The enemy after a blow it survives with [health] left. *)
Definition struck (damage : num) (p : Player) (health : num) (enemy : Enemy)
  : Enemy :=
  let toEnemy := normalize (v_sub (enemy_position enemy) (player_position p)) in
  let knockbackDir := normalize (setY toEnemy #0) in
  set_enemy_velocity
    (v_add (enemy_velocity enemy)
           (multiplyScalar knockbackDir (damage * dec 5 1 / enemy_mass enemy)))
    (set_enemy_health health enemy).
End Vocabulary.

Section IdealVocabulary.
#[local] Existing Instance Ideal.
Local Open Scope R_scope.

(** The length of the horizontal part of a vector. *)
Definition horizontalLength (a : Vector3) : R :=
  sqrt (vx a * vx a + vz a * vz a).
End IdealVocabulary.

(* ================================================================= *)
(** ** Worlds the code is run in *)

Section Worlds.
#[local] Existing Instance Float64.
#[local] Existing Instance Simple.
Local Open Scope js_scope.

(** A drag whose ghost stands on the player spawn point, in the empty
    world. *)
Definition dragAtSpawn : Game :=
  set_draggingTurret (Some (mkGhost (vec3 #0 #0 #0) true)) emptyGame.

(** The same drag when one collider covers the whole playfield. *)
Definition coveredGame : Game :=
  set_staticColliders
    [box3 (vec3 #(-1000) #(-1000) #(-1000)) (vec3 #1000 #1000 #1000)]
    dragAtSpawn.

(** A bullet of mass 1 flying at speed 10, with no damage set, one
    metre from an enemy of mass 1 at the origin. *)
Definition speedTen : Bullet :=
  mkBullet 7 (vec3 #0 #0 #1) (vec3 #0 #0 #10) #1 #1 None.


(** Two enemies in front of the player, three and four metres away,
    the nearer one with 5 health and the other with 50. *)
Definition twoInReach : Game :=
  set_enemies [enemyAt 1 0 3 5; enemyAt 2 0 4 50] emptyGame.





End Worlds.

Section IdealWorlds.
#[local] Existing Instance Ideal.
#[local] Existing Instance Simple.
Local Open Scope R_scope.

End IdealWorlds.

(* ================================================================= *)
(** ** More of Math, THREE.MathUtils, THREE.Vector3 and THREE.Box3 *)

Section MathUtils.
Context {N : Number}.
Local Open Scope js_scope.

(** [Math.sign(x)]: [1] or [-1], and [x] itself when it is a zero or
    NaN. *)
Definition sign (x : num) : num :=
  if x >? #0 then #1 else if x <? #0 then #(-1) else x.

(** [Math.min(a, b)] and [Math.max(a, b)]: NaN as soon as an argument
    is NaN; of the two zeros, [-0] is the smaller. *)
Definition nmin (a b : num) : num :=
  if isNaN a then a else if isNaN b then b
  else if a <? b then a else if b <? a then b
  else if #1 / a <? #0 then a else b.

Definition nmax (a b : num) : num :=
  if isNaN a then a else if isNaN b then b
  else if a <? b then b else if b <? a then a
  else if #1 / a <? #0 then b else a.

(** [THREE.MathUtils.clamp(value, min, max)]. *)
Definition clamp (value lo hi : num) : num := nmax lo (nmin hi value).

Definition addScalar (a : Vector3) (s : num) : Vector3 :=
  vec3 (vx a + s) (vy a + s) (vz a + s).

(** [a.addScaledVector(v, s)]. *)
Definition addScaledVector (a v : Vector3) (s : num) : Vector3 :=
  vec3 (vx a + vx v * s) (vy a + vy v * s) (vz a + vz v * s).

(** [new Vector3().crossVectors(a, b)]. *)
Definition crossVectors (a b : Vector3) : Vector3 :=
  vec3 (vy a * vz b - vz a * vy b)
       (vz a * vx b - vx a * vz b)
       (vx a * vy b - vy a * vx b).

(** [box.expandByScalar(s)]. *)
Definition expandByScalar (b : Box3) (s : num) : Box3 :=
  box3 (addScalar (bmin b) (- s)) (addScalar (bmax b) s).
End MathUtils.

(** [Math.cos], [Math.sin] and [Math.atan2]: the language leaves their
    rounding to the implementation, so binary64 has no instance; on
    the real numbers they are the functions of analysis. *)
Class Trig {N : Number} : Type := {
  ncos : num -> num;
  nsin : num -> num;
  natan2 : num -> num -> num
}.

Definition Ratan2 (y x : R) : R :=
  if Rlt_dec 0 x then atan (y / x)
  else if Rlt_dec x 0 then
    if Rle_dec 0 y then (atan (y / x) + PI)%R else (atan (y / x) - PI)%R
  else if Rlt_dec 0 y then (PI / 2)%R
  else if Rlt_dec y 0 then (- PI / 2)%R
  else 0%R.

Definition IdealTrig : @Trig Ideal := @Build_Trig Ideal cos sin Ratan2.

(* ================================================================= *)
(** ** The camera, the pointer and the fixed scenery *)

(** The values of [event.code] that Game.js names. *)
Section KeyCodes.
Import String.
Local Open Scope string_scope.

Definition Digit1 : string := "Digit1".
Definition Digit2 : string := "Digit2".
Definition Digit3 : string := "Digit3".
Definition Digit4 : string := "Digit4".
Definition KeyC : string := "KeyC".
Definition KeyP : string := "KeyP".
Definition KeyQ : string := "KeyQ".
Definition KeyE : string := "KeyE".
Definition KeyR : string := "KeyR".
Definition MouseLeft : string := "MouseLeft".
End KeyCodes.

Section Stage.
Context {N : Number}.
Local Open Scope js_scope.

(** The camera fields of [this]: the orthographic frustum, zoom,
    position and look-at point of [this.camera], the orbit parameters,
    the spring velocity, the centre of the fixed mode, and the state of
    the right-button pan.  [cameraFollow] starts out undefined, which
    every test reads as false; [cursorGrab] says that the container
    shows [panCursor]. *)
Record Rig : Type := mkRig {
  camera_left : num;
  camera_right : num;
  camera_top : num;
  camera_bottom : num;
  camera_zoom : num;
  camera_position : Vector3;
  camera_target : Vector3;
  cameraAngle : num;
  cameraDistance : num;
  cameraHeight : num;
  cameraVel : Vector3;
  fixedCameraCenter : Vector3;
  cameraFollow : bool;
  isRMBPanning : bool;
  panPrev : num * num;
  cursorGrab : bool
}.

Definition set_frustum (l r t b : num) (c : Rig) : Rig :=
  mkRig l r t b (camera_zoom c) (camera_position c) (camera_target c)
    (cameraAngle c) (cameraDistance c) (cameraHeight c) (cameraVel c)
    (fixedCameraCenter c) (cameraFollow c) (isRMBPanning c) (panPrev c)
    (cursorGrab c).
Definition set_camera_zoom (z : num) (c : Rig) : Rig :=
  mkRig (camera_left c) (camera_right c) (camera_top c) (camera_bottom c) z
    (camera_position c) (camera_target c) (cameraAngle c) (cameraDistance c)
    (cameraHeight c) (cameraVel c) (fixedCameraCenter c) (cameraFollow c)
    (isRMBPanning c) (panPrev c) (cursorGrab c).
Definition set_camera_position (p : Vector3) (c : Rig) : Rig :=
  mkRig (camera_left c) (camera_right c) (camera_top c) (camera_bottom c)
    (camera_zoom c) p (camera_target c) (cameraAngle c) (cameraDistance c)
    (cameraHeight c) (cameraVel c) (fixedCameraCenter c) (cameraFollow c)
    (isRMBPanning c) (panPrev c) (cursorGrab c).
Definition lookAt (target : Vector3) (c : Rig) : Rig :=
  mkRig (camera_left c) (camera_right c) (camera_top c) (camera_bottom c)
    (camera_zoom c) (camera_position c) target (cameraAngle c)
    (cameraDistance c) (cameraHeight c) (cameraVel c) (fixedCameraCenter c)
    (cameraFollow c) (isRMBPanning c) (panPrev c) (cursorGrab c).
Definition set_cameraAngle (a : num) (c : Rig) : Rig :=
  mkRig (camera_left c) (camera_right c) (camera_top c) (camera_bottom c)
    (camera_zoom c) (camera_position c) (camera_target c) a
    (cameraDistance c) (cameraHeight c) (cameraVel c) (fixedCameraCenter c)
    (cameraFollow c) (isRMBPanning c) (panPrev c) (cursorGrab c).
Definition set_cameraVel (v : Vector3) (c : Rig) : Rig :=
  mkRig (camera_left c) (camera_right c) (camera_top c) (camera_bottom c)
    (camera_zoom c) (camera_position c) (camera_target c) (cameraAngle c)
    (cameraDistance c) (cameraHeight c) v (fixedCameraCenter c)
    (cameraFollow c) (isRMBPanning c) (panPrev c) (cursorGrab c).
Definition set_fixedCameraCenter (p : Vector3) (c : Rig) : Rig :=
  mkRig (camera_left c) (camera_right c) (camera_top c) (camera_bottom c)
    (camera_zoom c) (camera_position c) (camera_target c) (cameraAngle c)
    (cameraDistance c) (cameraHeight c) (cameraVel c) p (cameraFollow c)
    (isRMBPanning c) (panPrev c) (cursorGrab c).
Definition set_cameraFollow (b : bool) (c : Rig) : Rig :=
  mkRig (camera_left c) (camera_right c) (camera_top c) (camera_bottom c)
    (camera_zoom c) (camera_position c) (camera_target c) (cameraAngle c)
    (cameraDistance c) (cameraHeight c) (cameraVel c) (fixedCameraCenter c) b
    (isRMBPanning c) (panPrev c) (cursorGrab c).
Definition set_isRMBPanning (b : bool) (c : Rig) : Rig :=
  mkRig (camera_left c) (camera_right c) (camera_top c) (camera_bottom c)
    (camera_zoom c) (camera_position c) (camera_target c) (cameraAngle c)
    (cameraDistance c) (cameraHeight c) (cameraVel c) (fixedCameraCenter c)
    (cameraFollow c) b (panPrev c) (cursorGrab c).
Definition set_panPrev (p : num * num) (c : Rig) : Rig :=
  mkRig (camera_left c) (camera_right c) (camera_top c) (camera_bottom c)
    (camera_zoom c) (camera_position c) (camera_target c) (cameraAngle c)
    (cameraDistance c) (cameraHeight c) (cameraVel c) (fixedCameraCenter c)
    (cameraFollow c) (isRMBPanning c) p (cursorGrab c).
Definition set_cursorGrab (b : bool) (c : Rig) : Rig :=
  mkRig (camera_left c) (camera_right c) (camera_top c) (camera_bottom c)
    (camera_zoom c) (camera_position c) (camera_target c) (cameraAngle c)
    (cameraDistance c) (cameraHeight c) (cameraVel c) (fixedCameraCenter c)
    (cameraFollow c) (isRMBPanning c) (panPrev c) b.

(** The fixed scenery: the barn, the farm, the walls of trees around
    the playfield, and the two vehicles. *)
Inductive Prefab : Type := CarPrefab | VanPrefab.

Record Vehicle : Type := mkVehicle {
  veh_prefab : Prefab;
  veh_position : Vector3;
  veh_scale : num;
  veh_rotationY : num
}.

Inductive Fixture : Type :=
| BarnFixture
| FarmFixture
| ForestWall (pos : Vector3) (rotY : num)
| VehicleFixture (v : Vehicle).

(** What the listeners and the loaders do to the page and to the
    renderer, in the order it is done. *)
Inductive DomCall : Type :=
| WindowReload
| PreventDefault
| UpdateProjectionMatrix
| RendererSetSize (width height : num)
| RendererCompile
| FirstRenderComplete
| ClickCameraToggleBtn
| ConsoleWarn (pos : Vector3)
| SceneAddFixture (f : Fixture).
End Stage.

(** What is asked of the page, of the asset files and of Potion.js.
    [this.input] is a plain object used as a map from key codes to
    booleans: [input_set] is [input[code] = v] and [input_get] the
    truth value of [input[code]].  The boxes are what
    [Box3.setFromObject] measures on the loaded models: every mesh of
    the barn in traversal order, the farm, the tree template, a clone
    of the tree template moved to a position, a placed vehicle. *)
Class Host {N : Number} {M : Modules} : Type := {
  input_set : String.string -> bool -> Input -> Input;
  input_get : String.string -> Input -> bool;
  Potion_tryConsume : Game -> Game;
  barnMeshBoxes : list Box3;
  farmBox : Box3;
  treeLocalBBox : Box3;
  forestWallBox : Vector3 -> num -> Box3;
  vehicleBox : Vehicle -> Box3
}.

Section Sessions.
Context {N : Number} {M : Modules}.

(** The game together with its camera fields and with what it did to
    the page. *)
Record Session : Type := mkSession {
  game : Game;
  rig : Rig;
  dom : list DomCall
}.

Definition set_game (g : Game) (s : Session) : Session :=
  mkSession g (rig s) (dom s).
Definition set_rig (r : Rig) (s : Session) : Session :=
  mkSession (game s) r (dom s).
Definition tell (c : DomCall) (s : Session) : Session :=
  mkSession (game s) (rig s) (dom s ++ [c]).

Definition set_input (v : Input) (g : Game) : Game :=
  mkGame (paused g) (isGameOver g) (staticColliders g) (pathfinder g) v
    (player g) (spawner g) (enemies g) (bullets g) (pickups g) (turrets g)
    (molotovs g) (activePotion g) (turretTokens g) (molotovTokens g)
    (draggingTurret g) (draggingMolotov g) (camera g) (randomCalls g)
    (trace g)
    (pendingMolotovs g).
End Sessions.

Section Controls.
Context {N : Number} {T : Trig} {M : Modules} {H : Host}.
Local Open Scope js_scope.

(** *** initCamera and onWindowResize *)

Definition viewSize : num := #100.

(** [initCamera], with the pan state as [registerEventListeners]
    first sets it. *)
Definition initCamera (clientWidth clientHeight : num) : Rig :=
  let aspect := clientWidth / clientHeight in
  let left := - viewSize * aspect / #2 in
  let right := viewSize * aspect / #2 in
  let top := viewSize / #2 in
  let bottom := - viewSize / #2 in
  let position := vec3 #40 #40 #40 in
  let initialCameraAngle := natan2 (vz position) (vx position) in
  mkRig left right top bottom #1 position (vec3 #0 #0 #0)
    initialCameraAngle
    (nsqrt (vx position * vx position + vz position * vz position))
    (vy position)
    (vec3 #0 #0 #0) (vec3 #0 #0 #0) false false (#0, #0) false.

Definition onWindowResize (clientWidth clientHeight : num) (s : Session)
  : Session :=
  let aspect := clientWidth / clientHeight in
  let s := set_rig (set_frustum (- viewSize * aspect / #2)
                                (viewSize * aspect / #2)
                                (viewSize / #2)
                                (- viewSize / #2) (rig s)) s in
  let s := tell UpdateProjectionMatrix s in
  tell (RendererSetSize clientWidth clientHeight) s.

(** *** The mouse: attack button, right-button pan, wheel zoom *)

Definition pixelsToWorld : num := dec 12 2.
Definition zoomMin : num := #1.
Definition zoomMax : num := #2.
Definition zoomStep : num := dec 85 2.

(** The [mousemove] listener; [dir] is what
    [camera.getWorldDirection] gives. *)
Definition mousemove (clientX clientY : num) (dir : Vector3) (s : Session)
  : Session :=
  let r := rig s in
  let r :=
    if isRMBPanning r then
      let scale := pixelsToWorld in
      let yUp := vec3 #0 #1 #0 in
      let forward := normalize (setY dir #0) in
      let right := normalize (crossVectors forward yUp) in
      let dxPx := clientX - fst (panPrev r) in
      let dyPx := clientY - snd (panPrev r) in
      let r := set_panPrev (clientX, clientY) r in
      let move :=
        addScaledVector
          (addScaledVector (vec3 #0 #0 #0) right (- dxPx * scale))
          forward (dyPx * scale) in
      if negb (cameraFollow r)
      then set_fixedCameraCenter (v_add (fixedCameraCenter r) move) r
      else r
    else r in
  set_rig (set_panPrev (clientX, clientY) r) s.

Definition dragging (g : Game) : bool :=
  match draggingTurret g, draggingMolotov g with
  | None, None => false
  | _, _ => true
  end.

(** The [mousedown] listener. *)
Definition mousedown (button : Z) (clientX clientY : num) (s : Session)
  : Session :=
  if (button =? 0)%Z && dragging (game s) then s
  else
    let s :=
      if (button =? 0)%Z
      then set_game (set_input (input_set MouseLeft true (input (game s)))
                       (game s)) s
      else s in
    if (button =? 2)%Z then
      if negb (cameraFollow (rig s)) then
        let r := set_isRMBPanning true (rig s) in
        let r := set_panPrev (clientX, clientY) r in
        let r := set_cursorGrab true r in
        tell PreventDefault (set_rig r s)
      else s
    else s.

(** The [mouseup] listener. *)
Definition mouseup (button : Z) (s : Session) : Session :=
  let s :=
    if (button =? 0)%Z
    then set_game (set_input (input_set MouseLeft false (input (game s)))
                     (game s)) s
    else s in
  if (button =? 2)%Z
  then set_rig (set_cursorGrab false (set_isRMBPanning false (rig s))) s
  else s.

(** The [mouseleave] listener. *)
Definition mouseleave (s : Session) : Session :=
  if isRMBPanning (rig s)
  then set_rig (set_cursorGrab false (set_isRMBPanning false (rig s))) s
  else s.

(** The [wheel] listener. *)
Definition wheel (deltaY : num) (s : Session) : Session :=
  let s := tell PreventDefault s in
  let dir := sign deltaY in
  let factor := if dir <? #0 then zoomStep else #1 / zoomStep in
  let zoom := clamp (camera_zoom (rig s) * factor) zoomMin zoomMax in
  tell UpdateProjectionMatrix (set_rig (set_camera_zoom zoom (rig s)) s).

(** *** The keyboard *)

(** [simulatePointerMoveAtMouse]: a [pointermove] event at [panPrev]
    is dispatched, and both drag listeners hear it; [hit] is the point
    of the ground under [panPrev], if any. *)
Definition simulatePointerMoveAtMouse (hit : option Vector3) (g : Game) : Game :=
  pointermoveMolotov hit (pointermove hit g).

(** The [keydown] listener. *)
Definition keydown (code : String.string) (hit : option Vector3) (s : Session)
  : Session :=
  let s := set_game (set_input (input_set code true (input (game s)))
                       (game s)) s in
  if isGameOver (game s) && String.eqb code KeyR then tell WindowReload s
  else if String.eqb code Digit1 then
    let g := cancelActiveDrag (game s) in
    let g := onStartTurretDrag g in
    set_game (simulatePointerMoveAtMouse hit g) s
  else if String.eqb code Digit2 then
    let g := cancelActiveDrag (game s) in
    let g := onStartMolotovDrag g in
    set_game (simulatePointerMoveAtMouse hit g) s
  else if String.eqb code Digit3 then
    set_game (Potion_tryConsume (game s)) s
  else if String.eqb code Digit4 then s
  else if String.eqb code KeyC then tell ClickCameraToggleBtn s
  else if String.eqb code KeyP then set_game (togglePause (game s)) s
  else s.

(** The [keyup] listener. *)
Definition keyup (code : String.string) (s : Session) : Session :=
  set_game (set_input (input_set code false (input (game s))) (game s)) s.

(** *** Camera modes *)

(** [ui.onToggleCameraFollow]; it reads the position of the player's
    mesh, which has to be there. *)
Definition onToggleCameraFollow (s : Session) : Session :=
  let r := set_cameraFollow (negb (cameraFollow (rig s))) (rig s) in
  let r :=
    if negb (cameraFollow r) then
      let r := set_fixedCameraCenter (player_position (player (game s))) r in
      set_cameraVel (vec3 #0 #0 #0) r
    else r in
  set_game (call (UI ui_showFloatingMessage) (game s)) (set_rig r s).

Definition rotationSpeed : num := #1.
Definition springStiffness : num := #12.
Definition springDamping : num := #8.

(** Where the camera of the follow mode comes to rest. *)
Definition followTarget (p : Vector3) (r : Rig) : Vector3 :=
  v_add p (vec3 (cameraDistance r * ncos (cameraAngle r))
                (cameraHeight r)
                (cameraDistance r * nsin (cameraAngle r))).

(** The camera phase of [animate], which [updateCamera] stands for. *)
Definition cameraPhase (delta : num) (s : Session) : Session :=
  let g := game s in
  let r := rig s in
  let r :=
    if input_get KeyQ (input g)
    then set_cameraAngle (cameraAngle r - delta * rotationSpeed) r else r in
  let r :=
    if input_get KeyE (input g)
    then set_cameraAngle (cameraAngle r + delta * rotationSpeed) r else r in
  let r :=
    if cameraFollow r && player_mesh (player g) then
      let target := followTarget (player_position (player g)) r in
      let k := springStiffness in
      let c := springDamping in
      let camAcc :=
        v_add (multiplyScalar (v_sub target (camera_position r)) k)
              (multiplyScalar (cameraVel r) (- c)) in
      let r := set_cameraVel (addScaledVector (cameraVel r) camAcc delta) r in
      let r := set_camera_position
                 (addScaledVector (camera_position r) (cameraVel r) delta) r in
      lookAt (player_position (player g)) r
    else
      let r := set_camera_position
                 (vec3 (vx (fixedCameraCenter r)
                        + cameraDistance r * ncos (cameraAngle r))
                       (vy (fixedCameraCenter r) + cameraHeight r)
                       (vz (fixedCameraCenter r)
                        + cameraDistance r * nsin (cameraAngle r))) r in
      lookAt (fixedCameraCenter r) r in
  set_rig r s.

(** *** The fixed scenery: loadStaticModels *)

Definition pushCollider (box : Box3) (s : Session) : Session :=
  set_game (set_staticColliders (staticColliders (game s) ++ [box]) (game s)) s.

(** [loadStaticBarn]: the barn goes into the scene and every mesh of
    it registers its own box. *)
Definition loadStaticBarn (s : Session) : Session :=
  let s := tell (SceneAddFixture BarnFixture) s in
  fold_left (fun s box => pushCollider box s) barnMeshBoxes s.

Definition loadStaticFarm (s : Session) : Session :=
  let s := tell (SceneAddFixture FarmFixture) s in
  pushCollider farmBox s.

Definition mapHalf : num := #250.

(** The helper of [loadStaticTrees]. *)
Definition addForestWall (pos : Vector3) (rotY : num) (s : Session) : Session :=
  let rotY := orElse rotY #0 in
  let s := tell (SceneAddFixture (ForestWall pos rotY)) s in
  let box := expandByScalar (forestWallBox pos rotY) (dec 5 1) in
  pushCollider box s.

(** The twelve places of [loadStaticTrees], in the order of the calls:
    south, north, west and east twice each, then the four corners. *)
Definition forestWalls : list Vector3 :=
  let lo := vx (bmin treeLocalBBox) in
  let hi := vx (bmax treeLocalBBox) in
  [ vec3 (- mapHalf - lo) #0 (mapHalf - lo);
    vec3 (mapHalf - hi) #0 (mapHalf - lo);
    vec3 (- mapHalf - lo) #0 (#2 * (- mapHalf + lo));
    vec3 (mapHalf - hi) #0 (#2 * (- mapHalf + lo));
    vec3 (- #2 * mapHalf - lo) #0 (- mapHalf - lo);
    vec3 (- #2 * mapHalf - lo) #0 (mapHalf - hi);
    vec3 (#2 * mapHalf - hi) #0 (- mapHalf - lo);
    vec3 (#2 * mapHalf - hi) #0 (mapHalf - hi);
    vec3 (- #2 * mapHalf) #0 (mapHalf - lo);
    vec3 mapHalf #0 mapHalf;
    vec3 mapHalf #0 (- #2 * mapHalf);
    vec3 (- #2 * mapHalf) #0 (- #2 * mapHalf) ].

Definition loadStaticTrees (s : Session) : Session :=
  fold_left (fun s pos => addForestWall pos #0 s) forestWalls s.

(** The helper of [loadStaticVehicles]; a rotation that is not given
    is drawn at random. *)
Definition placeAt (prefab : Prefab) (pos : Vector3) (scale : num)
  (rotation : option num) (s : Session) : Session :=
  let (rotation, s) :=
    match rotation with
    | Some rotation => (rotation, s)
    | None => let (u, g) := random (game s) in (u * npi * #2, set_game g s)
    end in
  let clone := mkVehicle prefab pos scale rotation in
  let tmpBox := vehicleBox clone in
  let farFromPlayer :=
    distanceToSquared (setY pos #0) playerSpawnPos >? reservedRadiusSq in
  let overlaps :=
    negb farFromPlayer ||
    existsb (fun b => intersectsBox b tmpBox) (staticColliders (game s)) in
  if overlaps then tell (ConsoleWarn pos) s
  else
    let s := tell (SceneAddFixture (VehicleFixture clone)) s in
    pushCollider tmpBox s.

Definition CAR_SPAWNS : list Vector3 := [vec3 #80 #0 #(-60)].
Definition VAN_SPAWNS : list Vector3 := [vec3 #160 #0 #(-60)].

Definition loadStaticVehicles (s : Session) : Session :=
  let s := fold_left (fun s p => placeAt CarPrefab p #4 (Some #(-90)) s) CAR_SPAWNS s in
  fold_left (fun s p => placeAt VanPrefab p #5 (Some #(-90)) s) VAN_SPAWNS s.

(** [loadStaticModels]: the fixed scenery first, the random props
    afterwards. *)
Definition loadStaticModels (s : Session) : Session :=
  let s := loadStaticBarn s in
  let s := loadStaticFarm s in
  let s := loadStaticTrees s in
  let s := loadStaticVehicles s in
  let s := set_game (loadStaticRocks (game s)) s in
  let s := set_game (loadStaticFences (game s)) s in
  let s := tell RendererCompile s in
  tell FirstRenderComplete s.
End Controls.

(* ================================================================= *)
(** ** A small world with a keyboard and scenery *)

Section KeyedWorld.
Context {N : Number}.
Local Open Scope js_scope.

(** The modules of [Simple], with the keys held as the input object. *)
Definition Keyed : Modules := {|
  Input := String.string -> bool;
  Spawner := bool;
  Pickup := nat;
  Molotov := nat;
  Potion := nat;
  Camera := unit;
  Player_update := fun _ _ _ p => p;
  Player_takeDamage := simple_Player_takeDamage;
  spendMana := simple_spendMana;
  regenMana := fun _ p => p;
  Spawner_update := fun _ s es => (s, es);
  Spawner_pause := fun _ => true;
  Spawner_resume := fun _ => false;
  Enemy_update := fun _ e => e;
  takeDamage := simple_takeDamage;
  Bullet_update := simple_Bullet_update;
  Pickup_update := fun _ p h => (Nat.eqb h 0, h, p);
  Turret_update := fun _ _ t => (t, []);
  Molotov_new := fun _ => 3%nat;
  Molotov_update := fun _ es m => (Nat.eqb m 0, Nat.pred m, es);
  Potion_update := fun _ p n => (Nat.eqb n 0, Nat.pred n, p);
  Camera_update := fun _ _ _ c => c;
  setFromObject := simple_setFromObject;
  Math_random := simple_random
|}.

(** A cube of half-size [h] around [p]. *)
Definition cubeAt (p : Vector3) (h : num) : Box3 :=
  box3 (vec3 (vx p - h) (vy p - h) (vz p - h))
       (vec3 (vx p + h) (vy p + h) (vz p + h)).

(** A page whose input object is the set of keys held, with no potion
    in stock, a barn of two meshes, a farm, and trees and vehicles
    measured as cubes. *)
Definition KeyedHost : @Host N Keyed := {|
  input_set := fun k v (i : @Input N Keyed) k' =>
                 if String.eqb k' k then v else i k';
  input_get := fun k (i : @Input N Keyed) => i k;
  Potion_tryConsume := fun g => g;
  barnMeshBoxes := [cubeAt (vec3 #110 #0 #(-90)) #10;
                    cubeAt (vec3 #110 #15 #(-90)) #5];
  farmBox := cubeAt (vec3 #50 #0 #30) #10;
  treeLocalBBox := cubeAt (vec3 #0 #0 #0) #20;
  forestWallBox := fun pos _ => cubeAt pos #20;
  vehicleBox := fun v => cubeAt (veh_position v) (veh_scale v)
|}.

(** The game as the constructor leaves it before the models load: no
    collider, no key held, the player at the spawn point. *)
Definition newGame : @Game N Keyed :=
  @mkGame N Keyed false false [] None (fun _ => false)
    (mkPlayer true (vec3 #0 #0 #0) (quat #0 #0 #0 #1) #100 #100)
    false [] [] [] [] [] None 1900%Z 1000%Z None None tt 0 [] [].

(** A camera in the fixed mode: at angle 0, 40 away from the origin
    and 40 above it, at rest, with no pan in progress. *)
Definition restingRig : Rig :=
  mkRig #(-80) #80 #50 #(-50) #1 (vec3 #40 #40 #0) (vec3 #0 #0 #0)
    #0 #40 #40 (vec3 #0 #0 #0) (vec3 #0 #0 #0) false false (#0, #0) false.

Definition newSession : @Session N Keyed := mkSession newGame restingRig [].
End KeyedWorld.

(* ================================================================= *)
(** ** Vocabulary of the statements about frames, tokens and ghosts *)

Section FrameVocabulary.
Context {N : Number} {M : Modules}.
Local Open Scope js_scope.

(** The calls the phases of a running frame make, between reading
    the clock and rendering. *)
Definition simulationCall (c : Call) : bool :=
  match c with
  | CallPlayerUpdate | CallLightsUpdate | CallSpawnerUpdate
  | CallEnemyUpdate _ | CallPlayerTakeDamage _
  | CallBulletUpdate _ | CallTakeDamage _ _ | CallRemoveEnemy _
  | SceneRemove (BulletMesh _)
  | CallPickupUpdate _ | SceneRemove (PickupMesh _) | CallPickupDestroy _
  | UI ui_showFloatingMessage | UI ui_update
  | CallCameraUpdate | CallTurretUpdate _ | CallMolotovUpdate _
  | CallPotionUpdate | CallRegenMana
  | UI ui_updateManaBar | UI ui_updatePlayerBars | UI ui_updateCenterHUD
  | UI ui_updateLevelRing | CallMinimapUpdate => true
  | _ => false
  end.

(** [g'] comes from [g] by simulation: the trace grew by simulation
    calls and no turret was added or removed. *)
Definition advances (g g' : Game) : Prop :=
  List.length (turrets g') = List.length (turrets g) /\
  exists l, trace g' = trace g ++ l /\ forallb simulationCall l = true.

(** Ghosts in the scene: additions minus removals. *)
Definition turretGhosts (tr : list Call) : Z :=
  fold_right Z.add 0%Z
    (map (fun c => match c with
                   | SceneAdd GhostNode => 1%Z
                   | SceneRemove GhostNode => (-1)%Z
                   | _ => 0%Z
                   end) tr).

Definition molotovGhosts (tr : list Call) : Z :=
  fold_right Z.add 0%Z
    (map (fun c => match c with
                   | SceneAdd MolotovGhostNode => 1%Z
                   | SceneRemove MolotovGhostNode => (-1)%Z
                   | _ => 0%Z
                   end) tr).

(** One for a drag in progress. *)
Definition held {A : Type} (drag : option A) : Z :=
  match drag with Some _ => 1%Z | None => 0%Z end.

(** The molotovs built so far, by where they were dropped. *)
Definition molotovsThrown (tr : list Call) : list Vector3 :=
  flat_map (fun c => match c with CallMolotovNew pos => [pos] | _ => [] end) tr.

(** The bullets handed to [update], by identity. *)
Definition bulletUpdateCalls (bs : list Bullet) : list Call :=
  map (fun b => CallBulletUpdate (bullet_id b)) bs.

(** The enemy a non-lethal knife blow leaves in the place of [e]. *)
Definition afterBlow (damage : num) (forward : Vector3) (p : Player)
  (e : Enemy) : Enemy :=
  if knifeReaches forward p e
  then struck damage p (snd (takeDamage damage e)) e
  else e.
End FrameVocabulary.

Section EventVocabulary.
Context {N : Number} {M : Modules}.

(** Every call a frame makes. *)
Definition frameCall (c : Call) : bool :=
  simulationCall c ||
  match c with
  | RequestAnimationFrame | ClockGetDelta | RendererRender => true
  | _ => false
  end.


(** What an event leaves in the books: the turrets and the turret
    tokens together, the molotovs built and the molotov tokens
    together, and each ghost count with its drag. *)
Definition ledger (g : Game) : Z * Z * Z * Z :=
  ((turretTokens g + Z.of_nat (List.length (turrets g)))%Z,
   (molotovTokens g + Z.of_nat (List.length (molotovsThrown (trace g))))%Z,
   (turretGhosts (trace g) - held (draggingTurret g))%Z,
   (molotovGhosts (trace g) - held (draggingMolotov g))%Z).

(** The tokens an event hands out from outside Game.js. *)
Definition turretAward (ev : Event) : Z :=
  match ev with EvAddTurretToken count => count | _ => 0%Z end.

Definition molotovAward (ev : Event) : Z :=
  match ev with EvAddMolotovToken count => count | _ => 0%Z end.

Definition turretAwards (evs : list Event) : Z :=
  fold_right Z.add 0%Z (map turretAward evs).

Definition molotovAwards (evs : list Event) : Z :=
  fold_right Z.add 0%Z (map molotovAward evs).

(** No call from outside takes tokens away. *)
Definition awardsAreGifts (evs : list Event) : bool :=
  forallb (fun ev => (0 <=? turretAward ev)%Z && (0 <=? molotovAward ev)%Z) evs.

(** The books after tokens were handed out. *)
Definition credited (turret molotov : Z) (books : Z * Z * Z * Z)
  : Z * Z * Z * Z :=
  let '(t, m, gt, gm) := books in ((t + turret)%Z, (m + molotov)%Z, gt, gm).

(** A turret drag in progress has a token to spend, and the count of
    turret tokens is not negative. *)
Definition tokensCover (g : Game) : Prop :=
  (draggingTurret g <> None -> 0 < turretTokens g)%Z /\
  (0 <= turretTokens g)%Z.
End EventVocabulary.

(* ================================================================= *)
(** ** The passes of a frame, read as folds *)

Section PassVocabulary.
Context {N : Number} {M : Modules}.

(** The pickups pass read from the last heart to the first: a heart
    is updated with the player as the later hearts left him, and
    stays unless it was collected. *)
Fixpoint sweepPickups (delta : num) (hs : list Pickup) (p : Player)
  : list Pickup * Player :=
  match hs with
  | [] => ([], p)
  | h :: rest =>
      let (kept, p) := sweepPickups delta rest p in
      let '(collected, h, p) := Pickup_update delta p h in
      (if collected then kept else h :: kept, p)
  end.

(** The molotovs pass likewise, with the enemies as the later
    molotovs left them. *)
Fixpoint sweepMolotovs (delta : num) (ms : list Molotov) (es : list Enemy)
  : list Molotov * list Enemy :=
  match ms with
  | [] => ([], es)
  | m :: rest =>
      let (kept, es) := sweepMolotovs delta rest es in
      let '(dead, m, es) := Molotov_update delta es m in
      (if dead then kept else m :: kept, es)
  end.

(** The floating messages of a trace. *)
Definition floatingMessages (tr : list Call) : nat :=
  List.length (filter (fun c => match c with
                                | UI ui_showFloatingMessage => true
                                | _ => false
                                end) tr).
End PassVocabulary.

(* ================================================================= *)
(** ** Mouse events *)

Section Gestures.
Context {N : Number} {M : Modules} {H : Host}.

(** What the mouse sends: a button pressed or released, the pointer
    leaving the canvas, the pointer moving (with the direction the
    camera looks in), the wheel turning. *)
Inductive Gesture : Type :=
| MouseDown (button : Z) (clientX clientY : num)
| MouseUp (button : Z)
| MouseLeave
| MouseMove (clientX clientY : num) (dir : Vector3)
| Wheel (deltaY : num).

Definition gesture (e : Gesture) (s : Session) : Session :=
  match e with
  | MouseDown button clientX clientY => mousedown button clientX clientY s
  | MouseUp button => mouseup button s
  | MouseLeave => mouseleave s
  | MouseMove clientX clientY dir => mousemove clientX clientY dir s
  | Wheel deltaY => wheel deltaY s
  end.

Definition gestures (es : list Gesture) (s : Session) : Session :=
  fold_left (fun s e => gesture e s) es s.

(** What the mouse cannot reach: the camera pose and mode, and
    everything of the game but the input object. *)
Definition beyondTheMouse (s : Session) :=
  (camera_position (rig s), camera_target (rig s), cameraAngle (rig s),
   cameraDistance (rig s), cameraHeight (rig s), cameraVel (rig s),
   cameraFollow (rig s),
   (camera_left (rig s), camera_right (rig s), camera_top (rig s),
    camera_bottom (rig s)),
   (paused (game s), isGameOver (game s), staticColliders (game s),
    pathfinder (game s), player (game s), spawner (game s),
    enemies (game s), bullets (game s), pickups (game s),
    turrets (game s), molotovs (game s), activePotion (game s),
    turretTokens (game s), molotovTokens (game s), draggingTurret (game s),
    draggingMolotov (game s), camera (game s), randomCalls (game s),
    trace (game s))).
End Gestures.

(* ================================================================= *)
(** ** Vocabulary of the statements about the scenery *)

Section SceneryVocabulary.
Context {N : Number} {M : Modules} {H : Host}.
Local Open Scope js_scope.

(** The two vehicles [loadStaticVehicles] tries to place. *)
Definition theCar : Vehicle :=
  mkVehicle CarPrefab (vec3 #80 #0 #(-60)) #4 #(-90).
Definition theVan : Vehicle :=
  mkVehicle VanPrefab (vec3 #160 #0 #(-60)) #5 #(-90).

(** The boxes registered without any test: the meshes of the barn,
    the farm, and the twelve walls of trees with their margin. *)
Definition untestedBoxes : list Box3 :=
  barnMeshBoxes ++ [farmBox] ++
  map (fun pos => expandByScalar (forestWallBox pos #0) (dec 5 1)) forestWalls.

(** Each vehicle stands clear of the spawn pad and its box meets no
    box registered before it. *)
Fixpoint vehiclesPlaced (cs : list Box3) (vs : list Vehicle) : Prop :=
  match vs with
  | [] => True
  | v :: rest =>
      clearOfPlayer (veh_position v) = true /\
      (forall b, In b cs -> intersectsBox b (vehicleBox v) = false) /\
      vehiclesPlaced (cs ++ [vehicleBox v]) rest
  end.

(** The test of [placeAt], passed. *)
Definition vehicleFits (v : Vehicle) (cs : list Box3) : bool :=
  clearOfPlayer (veh_position v) &&
  negb (existsb (fun b => intersectsBox b (vehicleBox v)) cs).
End SceneryVocabulary.

(* ================================================================= *)
(** ** More worlds the code is run in *)

Section MoreWorlds.
#[local] Existing Instance Float64.
#[local] Existing Instance Simple.
Local Open Scope js_scope.

(** A drag begun, the pointer moved and released, then a molotov
    dragged and dropped, a frame while its module loads, the module
    arriving, and a turret token handed out. *)
Definition placeOneOfEach : list Event :=
  [EvStartTurretDrag; EvPointerMove (Some (vec3 #10 #0 #10)); EvPointerUp;
   EvStartMolotovDrag; EvPointerMove (Some (vec3 #20 #0 #20)); EvPointerUp;
   EvFrame (dec 16 3); EvMolotovImported; EvAddTurretToken 1].

(** The last molotov token, and two molotovs dropped before the
    module has arrived for the first. *)
Definition lastMolotov : Game := set_molotovTokens 1 emptyGame.

Definition twoHastyDrops : list Event :=
  [EvStartMolotovDrag; EvPointerMove (Some (vec3 #20 #0 #20)); EvPointerUp;
   EvStartMolotovDrag; EvPointerMove (Some (vec3 #30 #0 #30)); EvPointerUp;
   EvMolotovImported; EvMolotovImported].

(** A bullet a hundred metres from the only enemy. *)
Definition farBullet : Bullet :=
  mkBullet 8 (vec3 #0 #0 #100) (vec3 #0 #0 #10) #1 #1 None.

Definition missGame : Game :=
  set_bullets [farBullet] (set_enemies [enemyAt 1 0 0 5] emptyGame).

(** An enemy three metres from the player, half a second into its
    attack animation, that has not bitten yet. *)
Definition biter : Enemy :=
  mkEnemy 3 (vec3 #0 #0 #3) (vec3 #0 #0 #0) #1 #1 #20 true (Some (dec 5 1))
    #0 false.

Definition bitingGame : Game := set_enemies [biter] emptyGame.
End MoreWorlds.

Section MoreIdealWorlds.
#[local] Existing Instance Ideal.
#[local] Existing Instance IdealTrig.
#[local] Existing Instance Keyed.
#[local] Existing Instance KeyedHost.
Local Open Scope R_scope.

(** A pan in progress in the fixed mode, the pointer last seen at
    (100, 100). *)
Definition panningSession : Session :=
  set_rig (set_panPrev (100, 100) (set_isRMBPanning true restingRig)) newSession.

(** The camera following the player, at rest one metre short of its
    target. *)
Definition followingSession : Session :=
  set_rig (set_camera_position (@vec3 Ideal 39 40 0)
             (set_cameraFollow true restingRig)) newSession.
End MoreIdealWorlds.

(* ================================================================= *)
(** ** Comparisons on the real numbers *)

Lemma Rltb_true (a b : R) : Rltb a b = true <-> (a < b)%R.
Proof.
  unfold Rltb. destruct (Rlt_dec a b); split; intros;
    try discriminate; auto; contradiction.
Qed.

Lemma Rltb_false (a b : R) : Rltb a b = false <-> (b <= a)%R.
Proof.
  unfold Rltb. destruct (Rlt_dec a b); split; intros;
    try discriminate; auto; lra.
Qed.

Lemma Reqb_true (a b : R) : Reqb a b = true <-> a = b.
Proof.
  unfold Reqb. destruct (Req_dec_T a b); split; intros;
    try discriminate; auto; contradiction.
Qed.

Lemma sq_le_sqrt (c d : R) :
  (0 <= c -> 0 <= d -> (c * c <= d <-> c <= sqrt d))%R.
Proof.
  intros Hc Hd. split; intros H.
  - apply Rsqr_incr_0_var; [|apply sqrt_pos].
    rewrite Rsqr_sqrt by exact Hd. unfold Rsqr. exact H.
  - apply Rsqr_incr_1 in H; [|exact Hc|apply sqrt_pos].
    rewrite Rsqr_sqrt in H by exact Hd. unfold Rsqr in H. exact H.
Qed.

(* ================================================================= *)
(** ** Turret placement: the validity predicate *)

Section PlacementPredicate.
Context {N : Number} {M : Modules}.
Local Open Scope js_scope.

Lemma turretsAllow_true_iff (ts : list Turret) (pos : Vector3) :
  turretsAllow ts pos = true <->
  forall t, In t ts ->
    (distanceToSquared (turret_position t) pos <? pow2 (TURRET_RADIUS * #2))
    = false.
Proof.
  induction ts as [|t ts IH]; simpl.
  - split; [intros _ t []|reflexivity].
  - destruct (distanceToSquared (turret_position t) pos
              <? pow2 (TURRET_RADIUS * #2)) eqn:E.
    + split; [discriminate|]. intros H.
      rewrite (H t (or_introl eq_refl)) in E. discriminate.
    + rewrite IH. split.
      * intros H t' [<-|Hin]; [exact E|now apply H].
      * intros H t' Hin. apply H. now right.
Qed.

Lemma turretsAllow_app (ts : list Turret) (t : Turret) (pos : Vector3) :
  turretsAllow (ts ++ [t]) pos =
  turretsAllow ts pos &&
  negb (distanceToSquared (turret_position t) pos <? pow2 (TURRET_RADIUS * #2)).
Proof.
  induction ts as [|t' ts IH]; simpl.
  - destruct (_ <? _); reflexivity.
  - destruct (distanceToSquared (turret_position t') pos <? _);
      [reflexivity|exact IH].
Qed.

(** With any arithmetic, binary64 included: the predicate holds
    exactly when no collider meets the footprint and no turret has
    its squared distance below [(2r)^2]. *)
Lemma isTurretPlacementValid_true_iff (g : Game) (pos : Vector3) :
  isTurretPlacementValid g pos = true <->
  (forall box, In box (staticColliders g) ->
     intersectsBox box (turretFootprint pos) = false) /\
  (forall t, In t (turrets g) ->
     (distanceToSquared (turret_position t) pos <? pow2 (TURRET_RADIUS * #2))
     = false).
Proof.
  unfold isTurretPlacementValid.
  destruct (existsb _ (staticColliders g)) eqn:E.
  - split; [discriminate|]. intros [H _].
    apply existsb_exists in E. destruct E as [box [Hin Hbox]].
    rewrite (H box Hin) in Hbox. discriminate.
  - rewrite turretsAllow_true_iff. split.
    + intros H. split; [|exact H]. intros box Hin.
      destruct (intersectsBox box (turretFootprint pos)) eqn:Hb;
        [|reflexivity].
      assert (existsb (fun box => intersectsBox box (turretFootprint pos))
                      (staticColliders g) = true)
        by (apply existsb_exists; eauto).
      congruence.
    + intros [_ H]. exact H.
Qed.

(** The predicate reads the colliders and the turrets and nothing
    else. *)
Lemma isTurretPlacementValid_ext (g g' : Game) (pos : Vector3) :
  staticColliders g' = staticColliders g ->
  turrets g' = turrets g ->
  isTurretPlacementValid g' pos = isTurretPlacementValid g pos.
Proof. unfold isTurretPlacementValid. intros -> ->. reflexivity. Qed.

Lemma pointermove_dragging (g : Game) (ghost : Ghost) (hit : Vector3) :
  draggingTurret g = Some ghost ->
  pointermove (Some hit) g =
  set_draggingTurret
    (Some (mkGhost (snapToGrid hit)
                   (isTurretPlacementValid g (snapToGrid hit)))) g.
Proof. unfold pointermove. intros ->. reflexivity. Qed.

Lemma pointermove_idle (g : Game) (hit : option Vector3) :
  draggingTurret g = None -> pointermove hit g = g.
Proof. unfold pointermove. intros ->. reflexivity. Qed.

Lemma pointermove_off_the_ground (g : Game) : pointermove None g = g.
Proof. unfold pointermove. now destruct (draggingTurret g). Qed.
End PlacementPredicate.

Section PlacementPredicateIdeal.
#[local] Existing Instance Ideal.
Context {M : Modules}.
Local Open Scope R_scope.

Lemma ideal_TURRET_RADIUS : TURRET_RADIUS = 16 / 10.
Proof. unfold TURRET_RADIUS, dec. simpl. lra. Qed.

Lemma ideal_far_enough (a b : Vector3) :
  nltb (distanceToSquared a b) (pow2 (nmul TURRET_RADIUS (fromZ 2))) = false
  <-> 2 * TURRET_RADIUS <= distanceTo a b.
Proof.
  rewrite ideal_TURRET_RADIUS. unfold distanceTo, pow2. simpl.
  rewrite Rltb_false.
  match goal with
  | |- context [sqrt ?d] =>
      assert (Hd : 0 <= d) by
        (repeat apply Rplus_le_le_0_compat; apply Rle_0_sqr);
      rewrite <- (sq_le_sqrt (2 * (16 / 10)) d) by lra
  end.
  split; intros H; lra.
Qed.

(** On the real numbers, a prop is clear of the player exactly when
    its horizontal distance to the spawn point exceeds the clearance
    radius of 60. *)
Lemma ideal_clearOfPlayer (pos : Vector3) :
  clearOfPlayer pos = true <->
  60 < sqrt (vx pos * vx pos + vz pos * vz pos).
Proof.
  unfold clearOfPlayer, reservedRadiusSq, reservedRadius, pow2,
    distanceToSquared, setY, playerSpawnPos. simpl.
  rewrite Rltb_true.
  replace ((vx pos - 0) * (vx pos - 0) + (0 - 0) * (0 - 0)
           + (vz pos - 0) * (vz pos - 0))
    with (vx pos * vx pos + vz pos * vz pos) by ring.
  set (d := vx pos * vx pos + vz pos * vz pos).
  assert (Hd : 0 <= d) by (unfold d; nra).
  pose proof (sq_le_sqrt (sqrt d) (60 * 60) (sqrt_pos d)) as H1.
  rewrite sqrt_sqrt in H1 by exact Hd.
  rewrite sqrt_square in H1 by lra.
  split; intros H.
  - apply Rnot_le_lt. intros Hle. apply H1 in Hle; lra.
  - apply Rnot_le_lt. intros Hle. apply H1 in Hle; lra.
Qed.

(** C5, amended. [isTurretPlacementValid(pos)] is true exactly when
    the flat footprint box centred at [pos], of half-width
    [TURRET_RADIUS = 1.6], meets no box of [staticColliders] and every
    placed turret stands at distance at least [2 * TURRET_RADIUS] from
    [pos].  The predicate is a function of the game and changes
    nothing; every pointer-move of a drag whose ray meets the ground
    evaluates it at the snapped point and only the ghost is rewritten;
    a pointer-move whose ray misses the ground, like one outside a
    drag, evaluates nothing and leaves the game as it was. *)
Theorem turret_placement_predicate (g : Game) (pos : Vector3) :
  TURRET_RADIUS = 16 / 10 /\
  turretFootprint pos =
    box3 (vec3 (vx pos - TURRET_RADIUS) (-1) (vz pos - TURRET_RADIUS))
         (vec3 (vx pos + TURRET_RADIUS) 3 (vz pos + TURRET_RADIUS)) /\
  (isTurretPlacementValid g pos = true <->
     (forall box, In box (staticColliders g) ->
        intersectsBox box (turretFootprint pos) = false) /\
     (forall t, In t (turrets g) ->
        2 * TURRET_RADIUS <= distanceTo (turret_position t) pos)) /\
  (forall ghost hit, draggingTurret g = Some ghost ->
     pointermove (Some hit) g =
     set_draggingTurret
       (Some (mkGhost (snapToGrid hit)
                      (isTurretPlacementValid g (snapToGrid hit)))) g) /\
  (forall hit, draggingTurret g = None -> pointermove hit g = g) /\
  pointermove None g = g.
Proof.
  split; [exact ideal_TURRET_RADIUS|].
  split; [reflexivity|].
  split; [|split; [|split]].
  - rewrite isTurretPlacementValid_true_iff.
    split; intros [Hc Ht]; (split; [exact Hc|]); intros t Hin.
    + apply ideal_far_enough. now apply Ht.
    + apply ideal_far_enough. now apply Ht.
  - intros ghost hit. apply pointermove_dragging.
  - intros hit. apply pointermove_idle.
  - apply pointermove_off_the_ground.
Qed.
End PlacementPredicateIdeal.

(* ================================================================= *)
(** ** What the handlers leave alone *)

Section StaticWorld.
Context {N : Number} {M : Modules}.
Local Open Scope js_scope.

Ltac case_all :=
  repeat match goal with
         | |- context [match ?x with _ => _ end] => destruct x eqn:?
         | |- context [if ?x then _ else _] => destruct x eqn:?
         end.

Ltac field_eq := repeat (simpl; progress case_all); simpl; try reflexivity.

Lemma untouched_removeEnemy (e : Enemy) (g : Game) :
  untouched (removeEnemy e g) = untouched g.
Proof. reflexivity. Qed.

Lemma untouched_knifeHitEnemy damage forward k enemy (g : Game) :
  untouched (knifeHitEnemy damage forward k enemy g) = untouched g.
Proof. unfold knifeHitEnemy. field_eq. Qed.

Lemma untouched_knifeForEach damage forward left k (g : Game) :
  untouched (knifeForEach damage forward left k g) = untouched g.
Proof.
  revert k g. induction left as [|left IH]; intros k g; simpl;
    [reflexivity|].
  rewrite IH. destruct (nth_error (enemies g) k);
    [apply untouched_knifeHitEnemy|reflexivity].
Qed.

Lemma static_world_togglePause (g : Game) :
  static_world (togglePause g) = static_world g.
Proof. unfold togglePause. field_eq. Qed.

Lemma static_world_onStartTurretDrag (g : Game) :
  static_world (onStartTurretDrag g) = static_world g.
Proof. unfold onStartTurretDrag, cancelActiveDrag. field_eq. Qed.

Lemma static_world_pointermove hit (g : Game) :
  static_world (pointermove hit g) = static_world g.
Proof. unfold pointermove. field_eq. Qed.

Lemma static_world_pointerup (g : Game) :
  static_world (pointerup g) = static_world g.
Proof. unfold pointerup. field_eq. Qed.

Lemma static_world_onStartMolotovDrag (g : Game) :
  static_world (onStartMolotovDrag g) = static_world g.
Proof. unfold onStartMolotovDrag, cancelActiveDrag. field_eq. Qed.

Lemma static_world_pointermoveMolotov hit (g : Game) :
  static_world (pointermoveMolotov hit g) = static_world g.
Proof. unfold pointermoveMolotov. field_eq. Qed.

Lemma static_world_pointerupMolotov (g : Game) :
  static_world (pointerupMolotov g) = static_world g.
Proof. unfold pointerupMolotov. field_eq. Qed.

Lemma static_world_onPlayerDeath (g : Game) :
  static_world (onPlayerDeath g) = static_world g.
Proof. unfold onPlayerDeath. field_eq. Qed.

Lemma untouched_enemyTick delta k enemy (g : Game) :
  untouched (enemyTick delta k enemy g) = untouched g.
Proof.
  unfold enemyTick.
  destruct (isAttacking _); [destruct (attackAction _) as [time|]|];
    try reflexivity.
  destruct (_ && _); reflexivity.
Qed.

Lemma untouched_enemiesForOf delta left k (g : Game) :
  untouched (enemiesForOf delta left k g) = untouched g.
Proof.
  revert k g. induction left as [|left IH]; intros k g; simpl;
    [reflexivity|].
  destruct (nth_error (enemies g) k); [|reflexivity].
  rewrite IH. apply untouched_enemyTick.
Qed.

Lemma untouched_updateEnemies delta (g : Game) :
  untouched (updateEnemies delta g) = untouched g.
Proof.
  unfold updateEnemies. destruct (Spawner_update _ _ _) as [sp es].
  rewrite untouched_enemiesForOf. reflexivity.
Qed.

Lemma untouched_bulletVsEnemies i bullet j1 (g g' : Game) :
  bulletVsEnemies i bullet j1 g = Some g' ->
  untouched g' = untouched g.
Proof.
  revert g. induction j1 as [|j IH]; intros g; simpl.
  - intros [= <-]. reflexivity.
  - destruct (nth_error (enemies g) j) as [enemy|]; simpl; [|discriminate].
    destruct (bulletHits bullet enemy); [|apply IH].
    destruct (takeDamage _ _) as [dead health].
    destruct dead; intros [= <-]; reflexivity.
Qed.

Lemma untouched_bulletsLoop delta i1 (g g' : Game) :
  bulletsLoop delta i1 g = Some g' -> untouched g' = untouched g.
Proof.
  revert g. induction i1 as [|i IH]; intros g; simpl.
  - intros [= <-]. reflexivity.
  - destruct (nth_error (bullets g) i) as [bullet|]; simpl; [|discriminate].
    destruct (bulletVsEnemies _ _ _ _) as [g1|] eqn:E; simpl; [|discriminate].
    intros H. rewrite (IH _ H).
    apply untouched_bulletVsEnemies in E. exact E.
Qed.

Lemma untouched_pickupsLoop delta i1 (g g' : Game) :
  pickupsLoop delta i1 g = Some g' -> untouched g' = untouched g.
Proof.
  revert g. induction i1 as [|i IH]; intros g; simpl.
  - intros [= <-]. reflexivity.
  - destruct (nth_error (pickups g) i) as [heart|]; simpl; [|discriminate].
    destruct (Pickup_update _ _ _) as [[collected heart'] p].
    intros H. rewrite (IH _ H). destruct collected; reflexivity.
Qed.

Lemma untouched_molotovsLoop delta i1 (g g' : Game) :
  molotovsLoop delta i1 g = Some g' -> untouched g' = untouched g.
Proof.
  revert g. induction i1 as [|i IH]; intros g; simpl.
  - intros [= <-]. reflexivity.
  - destruct (nth_error (molotovs g) i) as [m|]; simpl; [|discriminate].
    destruct (Molotov_update _ _ _) as [[dead m'] es].
    intros H. rewrite (IH _ H). destruct dead; reflexivity.
Qed.

Lemma untouched_turretsForOf delta left k (g : Game) :
  untouched (turretsForOf delta left k g) = untouched g.
Proof.
  revert k g. induction left as [|left IH]; intros k g; simpl;
    [reflexivity|].
  destruct (nth_error (turrets g) k) as [t|]; [|reflexivity].
  destruct (Turret_update _ _ _) as [t' fired]. rewrite IH. reflexivity.
Qed.

Lemma untouched_updatePotion delta (g : Game) :
  untouched (updatePotion delta g) = untouched g.
Proof. unfold updatePotion. field_eq. Qed.

Lemma untouched_animate delta (g g' : Game) :
  animate delta g = Some g' -> untouched g' = untouched g.
Proof.
  unfold animate. simpl.
  destruct (paused g); [intros [= <-]; reflexivity|].
  destruct (isGameOver g); [intros [= <-]; reflexivity|].
  destruct (player_mesh (player g)); simpl; [|intros [= <-]; reflexivity].
  destruct (updateBullets _ _) as [g1|] eqn:E1; simpl; [|discriminate].
  destruct (updatePickups _ _) as [g2|] eqn:E2; simpl; [|discriminate].
  destruct (updateMolotovs _ _) as [g3|] eqn:E3; simpl; [|discriminate].
  intros [= <-].
  apply untouched_bulletsLoop in E1.
  apply untouched_pickupsLoop in E2.
  apply untouched_molotovsLoop in E3.
  rewrite untouched_updateEnemies in E1.
  change (untouched (updatePotion delta g3) = untouched g).
  rewrite untouched_updatePotion, E3.
  unfold updateTurrets, updateCamera. rewrite untouched_turretsForOf.
  change (untouched g2 = untouched g). rewrite E2, E1. reflexivity.
Qed.

Lemma untouched_static_world (g g' : Game) :
  untouched g' = untouched g -> static_world g' = static_world g.
Proof. unfold untouched, static_world. now intros [= -> ->]. Qed.

Lemma static_world_dispatch ev (g g' : Game) :
  dispatch ev g = Some g' -> static_world g' = static_world g.
Proof.
  destruct ev; simpl; try (intros [= <-]).
  - intros H. apply untouched_static_world. now apply untouched_animate in H.
  - apply static_world_togglePause.
  - apply static_world_onStartTurretDrag.
  - apply static_world_onStartMolotovDrag.
  - rewrite static_world_pointermoveMolotov. apply static_world_pointermove.
  - rewrite static_world_pointerupMolotov. apply static_world_pointerup.
  - unfold onKnifeHit. apply untouched_static_world.
    apply untouched_knifeForEach.
  - apply static_world_onPlayerDeath.
  - unfold molotovImported, addMolotovToken. field_eq.
  - reflexivity.
  - reflexivity.
Qed.

Lemma static_world_run evs (g : Game) :
  match run evs g with
  | Some g' => static_world g' = static_world g
  | None => True
  end.
Proof.
  revert g. induction evs as [|ev evs IH]; intros g; simpl; [reflexivity|].
  destruct (dispatch ev g) as [g1|] eqn:E; simpl; [|exact I].
  specialize (IH g1). destruct (run evs g1); [|exact I].
  rewrite IH. now apply static_world_dispatch in E.
Qed.
End StaticWorld.

(* ================================================================= *)
(** ** Committing a turret *)

Section TurretCommit.
Context {N : Number} {M : Modules}.
Local Open Scope js_scope.

Lemma pointerup_idle (g : Game) :
  draggingTurret g = None -> pointerup g = g.
Proof. unfold pointerup. intros ->. reflexivity. Qed.

Lemma pointerup_invalid (g : Game) (ghost : Ghost) :
  draggingTurret g = Some ghost ->
  commitOk g (ghost_position ghost) = false ->
  pointerup g =
  set_draggingTurret None
    (call (SceneRemove GhostNode) (call (UI ui_showFloatingMessage) g)).
Proof.
  unfold pointerup, commitOk. intros -> Hok. rewrite Hok. reflexivity.
Qed.

Lemma pointerup_unpaid (g : Game) (ghost : Ghost) (p : Player) :
  draggingTurret g = Some ghost ->
  commitOk g (ghost_position ghost) = true ->
  spendMana turretCost (player g) = (false, p) ->
  pointerup g =
  set_draggingTurret None
    (call (SceneRemove GhostNode)
       (call (CallSpendMana turretCost) (set_player p g))).
Proof.
  unfold pointerup, commitOk. intros -> Hok Hpay. rewrite Hok, Hpay.
  reflexivity.
Qed.

Lemma pointerup_commit (g : Game) (ghost : Ghost) (p : Player) :
  draggingTurret g = Some ghost ->
  commitOk g (ghost_position ghost) = true ->
  spendMana turretCost (player g) = (true, p) ->
  pointerup g =
  set_draggingTurret None
    (call (SceneRemove GhostNode)
       (addTurretToken (-1)
          (set_turrets (turrets g ++ [newTurret (ghost_position ghost)])
             (call (CallTurretNew (ghost_position ghost))
                (call (CallSpendMana turretCost) (set_player p g)))))).
Proof.
  unfold pointerup, commitOk. intros -> Hok Hpay. rewrite Hok, Hpay.
  reflexivity.
Qed.

Lemma isTurretPlacementValid_push (g g' : Game) (t : Turret) (pos : Vector3) :
  staticColliders g' = staticColliders g ->
  turrets g' = turrets g ++ [t] ->
  isTurretPlacementValid g' pos =
  isTurretPlacementValid g pos &&
  negb (distanceToSquared (turret_position t) pos <? pow2 (TURRET_RADIUS * #2)).
Proof.
  unfold isTurretPlacementValid. intros -> ->.
  destruct (existsb _ (staticColliders g)); [reflexivity|].
  apply turretsAllow_app.
Qed.

(** C10. Committing a turret never touches the static collision
    world: [pointerup] leaves [staticColliders] and the grid as they
    were and at most appends one turret to [turrets]; the grid is baked
    from [staticColliders] by [initPathfinding], and no event after
    the world is built changes the colliders or the grid again.  A
    committed turret weighs on later placements only through the
    distance test of [isTurretPlacementValid]. *)
Theorem turret_commit_leaves_static_world (g : Game) :
  staticColliders (pointerup g) = staticColliders g /\
  pathfinder (pointerup g) = pathfinder g /\
  ((turrets (pointerup g) = turrets g /\
    forall pos, isTurretPlacementValid (pointerup g) pos
                = isTurretPlacementValid g pos) \/
   (exists ghost,
      draggingTurret g = Some ghost /\
      turrets (pointerup g) = turrets g ++ [newTurret (ghost_position ghost)] /\
      forall pos,
        isTurretPlacementValid (pointerup g) pos =
        isTurretPlacementValid g pos &&
        negb (distanceToSquared (ghost_position ghost) pos
              <? pow2 (TURRET_RADIUS * #2)))) /\
  (exists pf, pathfinder (initPathfinding g) = Some pf /\
              pf_colliders pf = staticColliders g /\
              staticColliders (initPathfinding g) = staticColliders g) /\
  (forall evs,
     match run evs g with
     | Some g' => staticColliders g' = staticColliders g /\
                  pathfinder g' = pathfinder g
     | None => True
     end).
Proof.
  pose proof (static_world_pointerup g) as Hw. unfold static_world in Hw.
  injection Hw as Hc Hp.
  split; [exact Hc|]. split; [exact Hp|]. split; [|split].
  - destruct (draggingTurret g) as [ghost|] eqn:Hd.
    + destruct (commitOk g (ghost_position ghost)) eqn:Hok.
      * destruct (spendMana turretCost (player g)) as [paid p] eqn:Hpay.
        destruct paid.
        -- right. exists ghost. split; [reflexivity|].
           assert (Ht : turrets (pointerup g)
                        = turrets g ++ [newTurret (ghost_position ghost)])
             by (rewrite (pointerup_commit g ghost p Hd Hok Hpay); reflexivity).
           split; [exact Ht|]. intros pos.
           apply (isTurretPlacementValid_push g (pointerup g) _ pos Hc Ht).
        -- left.
           assert (Ht : turrets (pointerup g) = turrets g)
             by (rewrite (pointerup_unpaid g ghost p Hd Hok Hpay); reflexivity).
           split; [exact Ht|]. intros pos.
           now apply isTurretPlacementValid_ext.
      * left.
        assert (Ht : turrets (pointerup g) = turrets g)
          by (rewrite (pointerup_invalid g ghost Hd Hok); reflexivity).
        split; [exact Ht|]. intros pos. now apply isTurretPlacementValid_ext.
    + left. rewrite (pointerup_idle g Hd). split; reflexivity.
  - unfold initPathfinding. simpl. eexists. split; [reflexivity|].
    split; [|reflexivity].
    assert (Hfold : forall cs pf,
               pf_colliders (fold_left addCollider cs pf)
               = pf_colliders pf ++ cs).
    { induction cs as [|c cs IH]; intros pf; simpl.
      - now rewrite app_nil_r.
      - rewrite IH. simpl. now rewrite <- app_assoc. }
    rewrite Hfold. reflexivity.
  - intros evs. pose proof (static_world_run evs g) as H.
    destruct (run evs g) as [g'|]; [|exact I].
    unfold static_world in H. injection H as H1 H2. now split.
Qed.
End TurretCommit.

Section RejectedCommit.
Context {N : Number} {M : Modules}.
Local Open Scope js_scope.

Lemma pointerupMolotov_idle (g : Game) :
  draggingMolotov g = None -> pointerupMolotov g = g.
Proof. unfold pointerupMolotov. intros ->. reflexivity. Qed.

Lemma draggingMolotov_pointerup (g : Game) :
  draggingMolotov (pointerup g) = draggingMolotov g.
Proof.
  unfold pointerup. destruct (draggingTurret g) as [ghost|]; [|reflexivity].
  destruct (negb _ && _); [|reflexivity].
  destruct (spendMana _ _) as [paid p]. destruct paid; reflexivity.
Qed.

Lemma draggingTurret_pointerup (g : Game) :
  draggingTurret (pointerup g) = None.
Proof.
  unfold pointerup. destruct (draggingTurret g) as [ghost|] eqn:E;
    [reflexivity|exact E].
Qed.

Lemma draggingTurret_pointerupMolotov (g : Game) :
  draggingTurret (pointerupMolotov g) = draggingTurret g.
Proof.
  unfold pointerupMolotov. destruct (draggingMolotov g) as [pos|];
    [|reflexivity].
  destruct (negb _); [|reflexivity].
  destruct (spendMana _ _) as [paid p]. destruct paid; reflexivity.
Qed.

Lemma cancelActiveDrag_drags (g : Game) :
  draggingTurret (cancelActiveDrag g) = None /\
  draggingMolotov (cancelActiveDrag g) = None.
Proof.
  unfold cancelActiveDrag.
  destruct (draggingTurret g) eqn:Et; simpl;
    destruct (draggingMolotov g) eqn:Em; simpl; auto.
Qed.

(** The two drags exclude each other: starting one cancels the
    other, and nothing else starts a drag. *)
Lemma oneDrag_dispatch ev (g g' : Game) :
  oneDrag g -> dispatch ev g = Some g' -> oneDrag g'.
Proof.
  unfold oneDrag. intros H. destruct ev; simpl.
  - intros E. apply untouched_animate in E. unfold untouched in E.
    injection E as _ _ -> -> _ _ _ _ _. exact H.
  - intros [= <-]. unfold togglePause. simpl.
    destruct (negb (paused g)); exact H.
  - intros [= <-]. unfold onStartTurretDrag.
    destruct (turretTokens g <=? 0)%Z; [exact H|]. right. simpl.
    apply cancelActiveDrag_drags.
  - intros [= <-]. unfold onStartMolotovDrag.
    destruct (molotovTokens g <=? 0)%Z; [exact H|]. left. simpl.
    apply cancelActiveDrag_drags.
  - intros [= <-]. unfold pointermoveMolotov, pointermove.
    destruct H as [H|H].
    + left. rewrite H.
      destruct (draggingMolotov g); [destruct hit|]; simpl; exact H.
    + right. destruct (draggingTurret g); [destruct hit|]; simpl; rewrite H;
        exact H.
  - intros [= <-]. left.
    rewrite draggingTurret_pointerupMolotov. apply draggingTurret_pointerup.
  - intros [= <-]. unfold onKnifeHit.
    pose proof (untouched_knifeForEach damage (knifeForward (player g))
                  (List.length (enemies g)) 0 g) as E.
    unfold untouched in E. injection E as _ _ -> -> _ _ _ _ _. exact H.
  - intros [= <-]. unfold onPlayerDeath. destruct (isGameOver g); exact H.
  - intros [= <-]. unfold molotovImported.
    destruct (pendingMolotovs g); exact H.
  - intros [= <-]. exact H.
  - intros [= <-]. exact H.
Qed.

Lemma oneDrag_run evs (g : Game) :
  oneDrag g ->
  match run evs g with
  | Some g' => oneDrag g'
  | None => True
  end.
Proof.
  revert g. induction evs as [|ev evs IH]; intros g H; simpl; [exact H|].
  destruct (dispatch ev g) as [g1|] eqn:E; simpl; [|exact I].
  apply IH. exact (oneDrag_dispatch ev g g1 H E).
Qed.

(** C7. A [pointerup] at an invalid position, or one the player
    cannot pay for, commits nothing: no turret is built or appended,
    [turretTokens], the colliders and every other part of the
    gameplay state stay as they were, and no mana is spent (a refusing
    [spendMana] leaves the player alone; at an invalid position it is
    not even called).  Only the drag ends, and the molotov listener
    of the same event has nothing to do. *)
Theorem rejected_commit_mutates_nothing (g : Game) (ghost : Ghost) :
  (forall cost p, fst (spendMana cost p) = false ->
                  snd (spendMana cost p) = p) ->
  oneDrag g ->
  draggingTurret g = Some ghost ->
  commitOk g (ghost_position ghost) = false \/
  fst (spendMana turretCost (player g)) = false ->
  dispatch EvPointerUp g = Some (pointerup g) /\
  gameplay (pointerup g) = gameplay g /\
  turrets (pointerup g) = turrets g /\
  turretTokens (pointerup g) = turretTokens g /\
  player (pointerup g) = player g /\
  draggingTurret (pointerup g) = None /\
  trace (pointerup g) =
    trace g ++
    (if commitOk g (ghost_position ghost)
     then [CallSpendMana turretCost; SceneRemove GhostNode]
     else [UI ui_showFloatingMessage; SceneRemove GhostNode]).
Proof.
  intros Hrefuse Hone Hd Hrej.
  split.
  { simpl. f_equal. apply pointerupMolotov_idle.
    rewrite draggingMolotov_pointerup.
    destruct Hone as [Hone|Hone]; [congruence|exact Hone]. }
  destruct (commitOk g (ghost_position ghost)) eqn:Hok.
  - destruct Hrej as [Hrej|Hrej]; [discriminate|].
    destruct (spendMana turretCost (player g)) as [paid p] eqn:Hpay.
    simpl in Hrej. subst paid.
    assert (Hp : p = player g).
    { specialize (Hrefuse turretCost (player g)).
      rewrite Hpay in Hrefuse. now apply Hrefuse. }
    rewrite (pointerup_unpaid g ghost p Hd Hok Hpay). subst p.
    unfold gameplay. simpl. rewrite <- app_assoc.
    repeat split; reflexivity.
  - rewrite (pointerup_invalid g ghost Hd Hok).
    unfold gameplay. simpl. rewrite <- app_assoc.
    repeat split; reflexivity.
Qed.
End RejectedCommit.

(* ================================================================= *)
(** ** Paused and game-over frames *)

Section FrozenFrames.
Context {N : Number} {M : Modules}.
Local Open Scope js_scope.

Lemma animate_frozen (delta : num) (g : Game) :
  paused g = true \/ isGameOver g = true ->
  animate delta g =
  Some (call RendererRender (call ClockGetDelta (call RequestAnimationFrame g))).
Proof.
  unfold animate. simpl. intros [H|H]; rewrite H; [reflexivity|].
  destruct (paused g); reflexivity.
Qed.

Lemma frames_frozen (deltas : list num) (g : Game) :
  paused g = true \/ isGameOver g = true ->
  exists g',
    frames deltas g = Some g' /\
    gameplay g' = gameplay g /\
    draggingTurret g' = draggingTurret g /\
    randomCalls g' = randomCalls g /\
    trace g' = trace g ++ concat (map (fun _ => frozenFrame) deltas).
Proof.
  revert g. induction deltas as [|delta deltas IH]; intros g H; simpl.
  - exists g. rewrite app_nil_r. repeat split; reflexivity.
  - rewrite (animate_frozen delta g H). simpl.
    set (g1 := call RendererRender
                 (call ClockGetDelta (call RequestAnimationFrame g))).
    destruct (IH g1 H) as [g' [Hf [Hg [Hd [Hr Ht]]]]].
    exists g'. split; [exact Hf|].
    split; [rewrite Hg; reflexivity|].
    split; [rewrite Hd; reflexivity|].
    split; [rewrite Hr; reflexivity|].
    rewrite Ht. unfold g1. simpl. rewrite <- !app_assoc. reflexivity.
Qed.

Ltac by_cases :=
  repeat (simpl;
          progress repeat match goal with
                 | |- context [match ?x with _ => _ end] => destruct x eqn:?
                 | |- context [if ?x then _ else _] => destruct x eqn:?
                 end);
  simpl; try reflexivity.

Lemma isGameOver_listeners (g : Game) :
  isGameOver (togglePause g) = isGameOver g /\
  isGameOver (onStartTurretDrag g) = isGameOver g /\
  isGameOver (onStartMolotovDrag g) = isGameOver g /\
  (forall hit, isGameOver (pointermove hit g) = isGameOver g) /\
  (forall hit, isGameOver (pointermoveMolotov hit g) = isGameOver g) /\
  isGameOver (pointerup g) = isGameOver g /\
  isGameOver (pointerupMolotov g) = isGameOver g.
Proof.
  repeat split; try intros hit.
  - unfold togglePause. by_cases.
  - unfold onStartTurretDrag, cancelActiveDrag. by_cases.
  - unfold onStartMolotovDrag, cancelActiveDrag. by_cases.
  - unfold pointermove. by_cases.
  - unfold pointermoveMolotov. by_cases.
  - unfold pointerup. by_cases.
  - unfold pointerupMolotov. by_cases.
Qed.

Lemma isGameOver_dispatch ev (g : Game) :
  isGameOver g = true ->
  exists g', dispatch ev g = Some g' /\ isGameOver g' = true.
Proof.
  intros H. destruct ev; simpl.
  - rewrite (animate_frozen delta g (or_intror H)). eexists. split;
      [reflexivity|exact H].
  - eexists. split; [reflexivity|].
    now rewrite (proj1 (isGameOver_listeners g)).
  - eexists. split; [reflexivity|].
    now rewrite (proj1 (proj2 (isGameOver_listeners g))).
  - eexists. split; [reflexivity|].
    now rewrite (proj1 (proj2 (proj2 (isGameOver_listeners g)))).
  - eexists. split; [reflexivity|].
    destruct (isGameOver_listeners (pointermove hit g))
      as [_ [_ [_ [_ [Hm _]]]]].
    destruct (isGameOver_listeners g) as [_ [_ [_ [Ht _]]]].
    now rewrite Hm, Ht.
  - eexists. split; [reflexivity|].
    destruct (isGameOver_listeners (pointerup g))
      as [_ [_ [_ [_ [_ [_ Hm]]]]]].
    destruct (isGameOver_listeners g) as [_ [_ [_ [_ [_ [Ht _]]]]]].
    now rewrite Hm, Ht.
  - eexists. split; [reflexivity|]. unfold onKnifeHit.
    pose proof (untouched_knifeForEach damage (knifeForward (player g))
                  (List.length (enemies g)) 0 g) as E.
    unfold untouched in E. injection E as _ _ _ _ _ _ _ _ ->. exact H.
  - eexists. split; [reflexivity|]. unfold onPlayerDeath. rewrite H. exact H.
  - eexists. split; [reflexivity|]. unfold molotovImported.
    destruct (pendingMolotovs g); exact H.
  - eexists. split; [reflexivity|exact H].
  - eexists. split; [reflexivity|exact H].
Qed.

Lemma isGameOver_run evs (g : Game) :
  isGameOver g = true ->
  exists g', run evs g = Some g' /\ isGameOver g' = true.
Proof.
  revert g. induction evs as [|ev evs IH]; intros g H; simpl.
  - exists g. split; [reflexivity|exact H].
  - destruct (isGameOver_dispatch ev g H) as [g1 [E H1]].
    rewrite E. simpl. now apply IH.
Qed.

(** C9. A frame of a paused game, and likewise of a game that is
    over, asks for the next frame, reads the clock, renders, and
    returns: no update of the player, the enemies, the spawner, the
    bullets, the pickups, the turrets, the molotovs or the camera is
    called, and the gameplay state is the one before the frame, for
    any number of frames.  Nothing that reaches the game afterwards
    clears [isGameOver], so that freeze lasts while frames keep
    rendering. *)
Theorem frozen_frames (g : Game) :
  paused g = true \/ isGameOver g = true ->
  (forall delta,
     animate delta g =
     Some (call RendererRender
             (call ClockGetDelta (call RequestAnimationFrame g)))) /\
  (forall deltas,
     exists g',
       frames deltas g = Some g' /\
       gameplay g' = gameplay g /\
       trace g' = trace g ++ concat (map (fun _ => frozenFrame) deltas)) /\
  (isGameOver g = true ->
   forall evs, exists g', run evs g = Some g' /\ isGameOver g' = true).
Proof.
  intros H. split; [|split].
  - intros delta. now apply animate_frozen.
  - intros deltas.
    destruct (frames_frozen deltas g H) as [g' [Hf [Hg [_ [_ Ht]]]]].
    exists g'. repeat split; assumption.
  - intros Hover evs. now apply isGameOver_run.
Qed.
End FrozenFrames.

(* ================================================================= *)
(** ** Scattered props *)

Section Scatter.
Context {N : Number} {M : Modules}.
Local Open Scope js_scope.

Lemma sampler_state (t : Template) (g : Game) :
  snd (sampler t g) = skipDraws (draws t) g.
Proof. destruct t; reflexivity. Qed.

Lemma skipDraws_skipDraws (a b : nat) (g : Game) :
  skipDraws a (skipDraws b g) = skipDraws (b + a) g.
Proof.
  unfold skipDraws, set_randomCalls. simpl. f_equal. lia.
Qed.

Lemma skipDraws_0 (g : Game) : skipDraws 0 g = g.
Proof. destruct g. reflexivity. Qed.

Lemma tryPlace_rejected (o : Object3D) (g : Game) :
  overlapsSomething o g = true -> tryPlace o g = (false, g).
Proof.
  unfold tryPlace, overlapsSomething. intros ->. reflexivity.
Qed.

Lemma tryPlace_accepted (o : Object3D) (g : Game) :
  overlapsSomething o g = false ->
  tryPlace o g =
  (true, set_staticColliders (staticColliders g ++ [setFromObject o])
           (call (SceneAdd (PropNode o)) g)).
Proof.
  unfold tryPlace, overlapsSomething. intros ->. reflexivity.
Qed.

Lemma overlapsSomething_false (o : Object3D) (g : Game) :
  overlapsSomething o g = false ->
  clearOfPlayer (obj_position o) = true /\
  forall b, In b (staticColliders g) ->
            intersectsBox b (setFromObject o) = false.
Proof.
  unfold overlapsSomething. intros H.
  apply orb_false_elim in H. destruct H as [H1 H2].
  split; [now apply negb_false_iff in H1|].
  intros b Hin. destruct (intersectsBox b (setFromObject o)) eqn:E;
    [|reflexivity].
  assert (existsb (fun b => intersectsBox b (setFromObject o))
                  (staticColliders g) = true)
    by (apply existsb_exists; eauto).
  congruence.
Qed.

Lemma attempts_exhausted (t : Template) (n : nat) (g : Game) :
  (forall k, k < n -> overlapsSomething (candidate t g k) g = true) ->
  attempts (sampler t) n g = skipDraws (draws t * n) g.
Proof.
  revert g. induction n as [|n IH]; intros g H; simpl.
  - rewrite Nat.mul_0_r. now rewrite skipDraws_0.
  - destruct (sampler t g) as [o g1] eqn:Es.
    assert (Hg1 : g1 = skipDraws (draws t) g)
      by (rewrite <- sampler_state, Es; reflexivity).
    assert (Ho : overlapsSomething o g1 = true).
    { specialize (H 0 (Nat.lt_0_succ n)). unfold candidate in H.
      rewrite Nat.mul_0_r, skipDraws_0, Es in H. subst g1. exact H. }
    rewrite (tryPlace_rejected o g1 Ho).
    rewrite IH.
    + subst g1. rewrite skipDraws_skipDraws. f_equal. lia.
    + intros k Hk. specialize (H (S k) (proj1 (Nat.succ_lt_mono k n) Hk)).
      unfold candidate in *. subst g1. rewrite skipDraws_skipDraws.
      replace (draws t + draws t * k)%nat with (draws t * S k)%nat by lia.
      exact H.
Qed.

(** C6. When every one of the [maxAttempts] candidates of a rock or a
    fence fails the validity test, the attempt loop ends having only
    drawn random numbers: nothing is appended to [staticColliders],
    nothing is added to the scene, and the build goes on with the
    instances that remain. *)
Theorem exhausted_prop_is_skipped (t : Template) (count : nat) (g : Game) :
  (forall k, k < maxAttempts -> overlapsSomething (candidate t g k) g = true) ->
  attempts (sampler t) maxAttempts g = skipDraws (draws t * maxAttempts) g /\
  staticColliders (attempts (sampler t) maxAttempts g) = staticColliders g /\
  trace (attempts (sampler t) maxAttempts g) = trace g /\
  scatter (sampler t) (S count) g =
  scatter (sampler t) count (skipDraws (draws t * maxAttempts) g).
Proof.
  intros H. pose proof (attempts_exhausted t maxAttempts g H) as E.
  split; [exact E|]. rewrite E. repeat split.
  change (scatter (sampler t) (S count) g)
    with (scatter (sampler t) count (attempts (sampler t) maxAttempts g)).
  now rewrite E.
Qed.

Lemma wellPlaced_app (cs : list Box3) (xs ys : list Object3D) :
  wellPlaced cs xs ->
  wellPlaced (cs ++ map setFromObject xs) ys ->
  wellPlaced cs (xs ++ ys).
Proof.
  revert cs. induction xs as [|x xs IH]; intros cs Hx Hy; simpl in *.
  - now rewrite app_nil_r in Hy.
  - destruct Hx as [Hc [Hb Hrest]]. split; [exact Hc|]. split; [exact Hb|].
    apply IH; [exact Hrest|]. now rewrite <- app_assoc.
Qed.

Lemma attempts_commits (t : Template) (n : nat) (g : Game) :
  exists objs, commits g (attempts (sampler t) n g) objs /\
               wellPlaced (staticColliders g) objs.
Proof.
  revert g. induction n as [|n IH]; intros g; simpl.
  - exists []. unfold commits. simpl. rewrite !app_nil_r. repeat split.
  - destruct (sampler t g) as [o g1] eqn:Es.
    assert (Hg1 : g1 = skipDraws (draws t) g)
      by (rewrite <- sampler_state, Es; reflexivity).
    destruct (overlapsSomething o g1) eqn:Ho.
    + rewrite (tryPlace_rejected o g1 Ho).
      destruct (IH g1) as [objs [Hc Hw]]. exists objs.
      subst g1. exact (conj Hc Hw).
    + rewrite (tryPlace_accepted o g1 Ho). exists [o].
      apply overlapsSomething_false in Ho. subst g1.
      unfold commits. simpl. repeat split; try tauto.
Qed.

Lemma scatter_commits (t : Template) (count : nat) (g : Game) :
  exists objs, commits g (scatter (sampler t) count g) objs /\
               wellPlaced (staticColliders g) objs.
Proof.
  revert g. induction count as [|count IH]; intros g.
  - exists []. unfold commits. simpl. rewrite !app_nil_r. repeat split.
  - change (scatter (sampler t) (S count) g)
      with (scatter (sampler t) count (attempts (sampler t) maxAttempts g)).
    destruct (attempts_commits t maxAttempts g) as [xs [[Hc1 [Ht1 Hu1]] Hw1]].
    destruct (IH (attempts (sampler t) maxAttempts g))
      as [ys [[Hc2 [Ht2 Hu2]] Hw2]].
    exists (xs ++ ys). split.
    + unfold commits. rewrite Hc2, Ht2, Hu2, Hc1, Ht1, Hu1.
      rewrite !map_app, !app_assoc. repeat split.
    + apply wellPlaced_app; [exact Hw1|]. now rewrite <- Hc1.
Qed.

(** C1, as the code has it.  Every rock and every fence committed by
    the rejection sampling has a world box that meets no box registered
    before it and a position strictly outside the clearance radius of
    the player spawn point; every turret committed by [pointerup] has
    a footprint that meets no box of [staticColliders] and no placed
    turret within [2 * TURRET_RADIUS] (squared test).  The clearance
    radius is not part of the turret test. *)
Theorem committed_instances_do_not_overlap (g : Game) :
  (exists rocks, commits g (loadStaticRocks g) rocks /\
                 wellPlaced (staticColliders g) rocks) /\
  (exists fences, commits g (loadStaticFences g) fences /\
                  wellPlaced (staticColliders g) fences) /\
  (forall t, In t (turrets (pointerup g)) ->
     In t (turrets g) \/
     (forall box, In box (staticColliders g) ->
        intersectsBox box (turretFootprint (turret_position t)) = false) /\
     (forall t', In t' (turrets g) ->
        (distanceToSquared (turret_position t') (turret_position t)
         <? pow2 (TURRET_RADIUS * #2)) = false)).
Proof.
  split; [exact (scatter_commits RockTemplate rockCount g)|].
  split; [exact (scatter_commits FenceTemplate fenceCount g)|].
  intros t Hin.
  destruct (draggingTurret g) as [ghost|] eqn:Hd;
    [|rewrite (pointerup_idle g Hd) in Hin; now left].
  destruct (commitOk g (ghost_position ghost)) eqn:Hok;
    [|rewrite (pointerup_invalid g ghost Hd Hok) in Hin; now left].
  destruct (spendMana turretCost (player g)) as [paid p] eqn:Hpay.
  destruct paid;
    [|rewrite (pointerup_unpaid g ghost p Hd Hok Hpay) in Hin; now left].
  rewrite (pointerup_commit g ghost p Hd Hok Hpay) in Hin. simpl in Hin.
  apply in_app_or in Hin. destruct Hin as [Hin|[<-|[]]]; [now left|].
  right. unfold commitOk in Hok. apply andb_prop in Hok.
  destruct Hok as [_ Hvalid].
  now apply isTurretPlacementValid_true_iff in Hvalid.
Qed.
End Scatter.

(* ================================================================= *)
(** ** Running the code on binary64 numbers *)

Section Runs.
#[local] Existing Instance Float64.
#[local] Existing Instance Simple.
Local Open Scope js_scope.

(** Scenario 1 of the spec: one registered box, one box inside it and
    one far away. *)
Example box_inside_intersects :
  intersectsBox (box3 (vec3 #(-5) #(-1) #(-5)) (vec3 #5 #3 #5))
                (box3 (vec3 #0 #(-1) #0) (vec3 #1 #3 #1)) = true.
Proof. vm_compute. reflexivity. Qed.

Example box_far_away_does_not :
  intersectsBox (box3 (vec3 #(-5) #(-1) #(-5)) (vec3 #5 #3 #5))
                (box3 (vec3 #20 #(-1) #20) (vec3 #21 #3 #21)) = false.
Proof. vm_compute. reflexivity. Qed.

(** Next to a turret at the origin: 3.1 away is too close, 3.2, twice
    the radius, is allowed. *)
Example turret_too_close :
  isTurretPlacementValid (set_turrets [newTurret (vec3 #0 #0 #0)] emptyGame)
    (vec3 (dec 31 1) #0 #0) = false.
Proof. vm_compute. reflexivity. Qed.

Example turret_at_two_radii :
  isTurretPlacementValid (set_turrets [newTurret (vec3 #0 #0 #0)] emptyGame)
    (vec3 (dec 32 1) #0 #0) = true.
Proof. vm_compute. reflexivity. Qed.

(** The pointer at [(3.1, 7, -4.9)] snaps to the tile corner
    [(4, 0, -4)]. *)
Example pointer_snaps_to_grid :
  snapToGrid (vec3 (dec 31 1) #7 (dec (-49) 1)) = vec3 #4 #0 #(-4).
Proof. vm_compute. reflexivity. Qed.

(** In the empty world all 15 rocks and 5 fences find a place. *)
Example empty_world_takes_every_prop :
  List.length (staticColliders (worldBuild emptyGame)) = 20%nat.
Proof. vm_compute. reflexivity. Qed.

(** Scenario 4 of the spec: one attempt, the region covered. *)
Example one_attempt_in_covered_world :
  attempts sampleRock 1 coveredGame = skipDraws 4 coveredGame.
Proof. vm_compute. reflexivity. Qed.

(** A running frame: the bullet one metre ahead flies on, meets enemy 1
    and is removed; enemy 1 loses the kinetic damage of 1. *)
Example running_frame :
  match animate (dec 16 3) (set_bullets [speedTen] twoInReach) with
  | Some g =>
      bullets g = [] /\
      map enemy_health (enemies g) = [#4; #50] /\
      damagedIds (trace g) = [1%nat]
  | None => False
  end.
Proof. vm_compute. repeat split; reflexivity. Qed.

Lemma forallb_below (P : nat -> bool) (n : nat) :
  forallb P (seq 0 n) = true -> forall k, k < n -> P k = true.
Proof.
  intros H k Hk. rewrite forallb_forall in H. apply H.
  apply in_seq. lia.
Qed.

(** C1 as stated fails for turrets: in the empty world a turret is
    committed on the player spawn point itself, inside the clearance
    radius. *)
Lemma turret_committed_inside_clearance :
  ~ (forall (g : Game) (t : Turret),
       In t (turrets (pointerup g)) -> ~ In t (turrets g) ->
       clearOfPlayer (turret_position t) = true).
Proof.
  intros H.
  specialize (H dragAtSpawn (newTurret (vec3 #0 #0 #0))).
  assert (Hin : In (newTurret (vec3 #0 #0 #0)) (turrets (pointerup dragAtSpawn)))
    by (vm_compute; left; reflexivity).
  assert (Hnew : ~ In (newTurret (vec3 #0 #0 #0)) (turrets dragAtSpawn))
    by (vm_compute; intros []).
  specialize (H Hin Hnew). vm_compute in H. discriminate.
Qed.

(** C5 as stated fails for a pointer-move whose ray misses the
    ground: in the covered world the ghost of a drag that has just
    begun is green on the spawn point, where no turret may stand, and
    such a move leaves it green: the predicate was not evaluated. *)
Lemma pointer_move_off_the_ground_keeps_the_tint :
  ~ (forall (g : Game) (ghost : Ghost) (hit : option Vector3),
       draggingTurret g = Some ghost ->
       exists ghost',
         draggingTurret (pointermove hit g) = Some ghost' /\
         ghost_green ghost'
         = isTurretPlacementValid g (ghost_position ghost')).
Proof.
  intros H.
  destruct (H coveredGame (mkGhost (vec3 #0 #0 #0) true) None eq_refl)
    as [ghost' [Hd Hg]].
  vm_compute in Hd. injection Hd as <-. vm_compute in Hg. discriminate.
Qed.

Lemma exhausted_prop_is_skipped_witness :
  attempts (sampler RockTemplate) maxAttempts coveredGame
  = skipDraws (draws RockTemplate * maxAttempts) coveredGame /\
  staticColliders (attempts (sampler RockTemplate) maxAttempts coveredGame)
  = staticColliders coveredGame /\
  trace (attempts (sampler RockTemplate) maxAttempts coveredGame)
  = trace coveredGame /\
  scatter (sampler RockTemplate) (S 14) coveredGame =
  scatter (sampler RockTemplate) 14
    (skipDraws (draws RockTemplate * maxAttempts) coveredGame).
Proof.
  apply (@exhausted_prop_is_skipped Float64 Simple RockTemplate 14 coveredGame).
  apply forallb_below. vm_compute. reflexivity.
Defined.

Lemma simple_spendMana_refuses (cost : num) (p : Player) :
  fst (spendMana cost p) = false -> snd (spendMana cost p) = p.
Proof.
  simpl. unfold simple_spendMana.
  destruct (nleb cost (player_mana p)); [discriminate|reflexivity].
Qed.

Lemma rejected_commit_witness :
  dispatch EvPointerUp coveredGame = Some (pointerup coveredGame) /\
  gameplay (pointerup coveredGame) = gameplay coveredGame /\
  turrets (pointerup coveredGame) = turrets coveredGame /\
  turretTokens (pointerup coveredGame) = turretTokens coveredGame /\
  player (pointerup coveredGame) = player coveredGame /\
  draggingTurret (pointerup coveredGame) = None /\
  trace (pointerup coveredGame) =
    trace coveredGame ++
    (if commitOk coveredGame (vec3 #0 #0 #0)
     then [CallSpendMana turretCost; SceneRemove GhostNode]
     else [UI ui_showFloatingMessage; SceneRemove GhostNode]).
Proof.
  apply (@rejected_commit_mutates_nothing Float64 Simple coveredGame
           (mkGhost (vec3 #0 #0 #0) true)).
  - exact simple_spendMana_refuses.
  - right. reflexivity.
  - reflexivity.
  - left. vm_compute. reflexivity.
Defined.

Lemma frozen_frames_witness :
  (forall delta,
     animate delta (set_isGameOver true dragAtSpawn) =
     Some (call RendererRender
             (call ClockGetDelta
                (call RequestAnimationFrame (set_isGameOver true dragAtSpawn))))) /\
  (forall deltas,
     exists g',
       frames deltas (set_isGameOver true dragAtSpawn) = Some g' /\
       gameplay g' = gameplay (set_isGameOver true dragAtSpawn) /\
       trace g' = trace (set_isGameOver true dragAtSpawn)
                  ++ concat (map (fun _ => frozenFrame) deltas)) /\
  (isGameOver (set_isGameOver true dragAtSpawn) = true ->
   forall evs, exists g',
     run evs (set_isGameOver true dragAtSpawn) = Some g' /\ isGameOver g' = true).
Proof.
  apply (@frozen_frames Float64 Simple (set_isGameOver true dragAtSpawn)).
  right. reflexivity.
Defined.
End Runs.

(* ================================================================= *)
(** ** Bullets against enemies *)

Section BulletHits.
Context {N : Number} {M : Modules}.
Local Open Scope js_scope.

Lemma bulletDamage_eq (bullet : Bullet) :
  bulletDamage bullet =
  match bullet_damage bullet with
  | Some d => d
  | None =>
      let v := bullet_velocity bullet in
      dec 5 1 * bullet_mass bullet * (vx v * vx v + vy v * vy v + vz v * vz v)
      * dec 2 2
  end.
Proof. reflexivity. Qed.




End BulletHits.

(* ================================================================= *)
(** ** The knife: knockback *)

Lemma list_set_twice {A : Type} (k : nat) (x y : A) (l : list A) :
  list_set k y (list_set k x l) = list_set k y l.
Proof.
  revert k. induction l as [|h t IH]; intros [|k]; simpl;
    try reflexivity.
  now rewrite IH.
Qed.

Section IdealVectors.
#[local] Existing Instance Ideal.
Local Open Scope R_scope.

Lemma ideal_truthy (x : R) : x <> 0 -> truthy x = true.
Proof.
  intros H. unfold truthy, isNaN. simpl.
  destruct (Reqb x 0) eqn:E; [apply Reqb_true in E; contradiction|].
  assert (E' : Reqb x x = true) by now apply Reqb_true.
  rewrite E'. reflexivity.
Qed.

Lemma ideal_normalize (a : Vector3) :
  0 < v_length a ->
  normalize a =
  vec3 (vx a / v_length a) (vy a / v_length a) (vz a / v_length a).
Proof.
  intros H. unfold normalize, orElse.
  rewrite ideal_truthy by lra.
  unfold divideScalar, multiplyScalar. simpl.
  f_equal; unfold Rdiv; ring.
Qed.


Lemma horizontalLength_sq (a : Vector3) :
  horizontalLength a * horizontalLength a = vx a * vx a + vz a * vz a.
Proof. unfold horizontalLength. apply sqrt_sqrt. nra. Qed.


End IdealVectors.

Section Knockback.
#[local] Existing Instance Ideal.
Context {M : Modules}.
Local Open Scope R_scope.

Lemma normalize_components (a : Vector3) :
  exists c, normalize a = vec3 (vx a * c) (vy a * c) (vz a * c).
Proof.
  unfold normalize, divideScalar, multiplyScalar. eexists. reflexivity.
Qed.





(** An attacker who only turns about the vertical axis looks along
    the ground, and whatever he hits then has a horizontal offset. *)
Lemma knifeForward_horizontal (p : Player) :
  qx (player_quaternion p) = 0 -> qz (player_quaternion p) = 0 ->
  vy (knifeForward p) = 0.
Proof.
  intros Hx Hz. unfold knifeForward.
  destruct (normalize_components
              (applyQuaternion (vec3 (fromZ 0) (fromZ 0) (fromZ 1))
                               (player_quaternion p))) as [c ->].
  unfold applyQuaternion. simpl. rewrite Hx, Hz. ring.
Qed.

Lemma knife_hit_has_horizontal_offset (forward toEnemy : Vector3) :
  vy forward = 0 ->
  0 < dot forward (normalize toEnemy) ->
  0 < horizontalLength toEnemy.
Proof.
  intros Hy Hfront.
  destruct (normalize_components toEnemy) as [c Hc]. rewrite Hc in Hfront.
  unfold dot in Hfront. simpl in Hfront. rewrite Hy in Hfront.
  unfold horizontalLength. apply sqrt_lt_R0.
  destruct (Req_dec (vx toEnemy) 0) as [Hx|Hx];
    destruct (Req_dec (vz toEnemy) 0) as [Hz|Hz]; nra.
Qed.
End Knockback.

Section KnockbackRun.
#[local] Existing Instance Ideal.
#[local] Existing Instance Simple.
Local Open Scope R_scope.

Local Abbreviation rvec := (@vec3 Ideal).



End KnockbackRun.

Section KnockbackFails.
#[local] Existing Instance Float64.
#[local] Existing Instance Simple.
Local Open Scope js_scope.

End KnockbackFails.

Section BulletRun.
#[local] Existing Instance Float64.
#[local] Existing Instance Simple.
Local Open Scope js_scope.

End BulletRun.

(* ================================================================= *)
(** ** Passes over arrays that shrink *)

Section ArrayFacts.
Context {A : Type}.

Lemma length_list_set (k : nat) (x : A) (l : list A) :
  List.length (list_set k x l) = List.length l.
Proof.
  revert k. induction l as [|h t IH]; intros [|k]; simpl; auto.
Qed.

Lemma firstn_list_set (k : nat) (x : A) (l : list A) :
  firstn k (list_set k x l) = firstn k l.
Proof.
  revert k. induction l as [|h t IH]; intros [|k]; simpl; auto.
  now rewrite IH.
Qed.

Lemma firstn_splice1 (k : nat) (l : list A) :
  firstn k (splice1 k l) = firstn k l.
Proof.
  revert k. induction l as [|h t IH]; intros [|k]; simpl; auto.
  now rewrite IH.
Qed.

Lemma length_splice1 (k : nat) (l : list A) :
  k < List.length l -> S (List.length (splice1 k l)) = List.length l.
Proof.
  revert k. induction l as [|h t IH]; intros [|k]; simpl; intros H;
    try lia.
  rewrite IH; lia.
Qed.

Lemma firstn_succ (k : nat) (x : A) (l : list A) :
  nth_error l k = Some x -> firstn (S k) l = firstn k l ++ [x].
Proof.
  revert k. induction l as [|h t IH]; intros [|k]; simpl; try discriminate.
  - now intros [= ->].
  - intros H. now rewrite <- (IH k H).
Qed.

Lemma nth_error_in_range (k : nat) (l : list A) :
  k < List.length l -> exists x, nth_error l k = Some x.
Proof.
  intros H. destruct (nth_error l k) as [x|] eqn:E; [now exists x|].
  apply nth_error_None in E. lia.
Qed.

Lemma nth_error_middle (pre : list A) (x : A) (rest : list A) :
  nth_error (pre ++ x :: rest) (List.length pre) = Some x.
Proof. induction pre as [|h t IH]; simpl; auto. Qed.

Lemma list_set_middle (pre : list A) (x y : A) (rest : list A) :
  list_set (List.length pre) y (pre ++ x :: rest) = pre ++ y :: rest.
Proof. induction pre as [|h t IH]; simpl; auto. now rewrite IH. Qed.
End ArrayFacts.

Section Passes.
Context {N : Number} {M : Modules}.
Local Open Scope js_scope.

Lemma pickupsLoop_visits (delta : num) (i1 : nat) (g : Game) :
  i1 <= List.length (pickups g) ->
  exists g',
    pickupsLoop delta i1 g = Some g' /\
    pickupVisits (trace g') =
    pickupVisits (trace g) ++ rev (firstn i1 (pickups g)).
Proof.
  revert g. induction i1 as [|i IH]; intros g Hlen.
  - exists g. simpl. now rewrite app_nil_r.
  - destruct (nth_error_in_range i (pickups g) Hlen) as [heart Hnth].
    simpl pickupsLoop. rewrite Hnth. simpl bind.
    destruct (Pickup_update delta (player g) heart)
      as [[collected heart'] p] eqn:Eu.
    rewrite (firstn_succ i heart (pickups g) Hnth), rev_app_distr.
    match goal with
    | |- exists g', pickupsLoop delta i ?g1 = Some g' /\ _ =>
        destruct (IH g1) as [g' [Hrun Hvis]];
        [|exists g'; split; [exact Hrun|rewrite Hvis]]
    end.
    + destruct collected; simpl.
      * pose proof (length_splice1 i (list_set i heart' (pickups g))) as Hs.
        rewrite length_list_set in Hs. specialize (Hs Hlen). lia.
      * rewrite length_list_set. lia.
    + destruct collected; simpl; unfold pickupVisits;
        rewrite ?flat_map_app; simpl; rewrite ?app_nil_r;
        rewrite ?firstn_splice1, firstn_list_set, <- app_assoc; reflexivity.
Qed.

Lemma molotovsLoop_visits (delta : num) (i1 : nat) (g : Game) :
  i1 <= List.length (molotovs g) ->
  exists g',
    molotovsLoop delta i1 g = Some g' /\
    molotovVisits (trace g') =
    molotovVisits (trace g) ++ rev (firstn i1 (molotovs g)).
Proof.
  revert g. induction i1 as [|i IH]; intros g Hlen.
  - exists g. simpl. now rewrite app_nil_r.
  - destruct (nth_error_in_range i (molotovs g) Hlen) as [m Hnth].
    simpl molotovsLoop. rewrite Hnth. simpl bind.
    destruct (Molotov_update delta (enemies g) m) as [[dead m'] es] eqn:Eu.
    rewrite (firstn_succ i m (molotovs g) Hnth), rev_app_distr.
    match goal with
    | |- exists g', molotovsLoop delta i ?g1 = Some g' /\ _ =>
        destruct (IH g1) as [g' [Hrun Hvis]];
        [|exists g'; split; [exact Hrun|rewrite Hvis]]
    end.
    + destruct dead; simpl.
      * pose proof (length_splice1 i (list_set i m' (molotovs g))) as Hs.
        rewrite length_list_set in Hs. specialize (Hs Hlen). lia.
      * rewrite length_list_set. lia.
    + destruct dead; simpl; unfold molotovVisits;
        rewrite ?flat_map_app; simpl; rewrite ?app_nil_r;
        rewrite ?firstn_splice1, firstn_list_set, <- app_assoc; reflexivity.
Qed.
End Passes.

Section BulletPass.
Context {N : Number} {M : Modules}.
Local Open Scope js_scope.

Lemma bulletVsEnemies_total (i : nat) (bullet : Bullet) (j1 : nat) (g : Game) :
  j1 <= List.length (enemies g) ->
  i < List.length (bullets g) ->
  exists g',
    bulletVsEnemies i bullet j1 g = Some g' /\
    firstn i (bullets g') = firstn i (bullets g) /\
    i <= List.length (bullets g') /\
    bulletVisits (trace g') = bulletVisits (trace g).
Proof.
  intros Hj Hi. induction j1 as [|j IH].
  - exists g. simpl. repeat split; [lia].
  - destruct (nth_error_in_range j (enemies g) Hj) as [enemy Hnth].
    simpl. rewrite Hnth. simpl.
    destruct (bulletHits bullet enemy); [|apply IH; lia].
    destruct (takeDamage (bulletDamage bullet) enemy) as [dead health].
    eexists. split; [reflexivity|].
    pose proof (length_splice1 i (bullets g) Hi) as Hs.
    destruct dead; simpl; rewrite firstn_splice1; unfold bulletVisits;
      rewrite ?flat_map_app; simpl; rewrite ?app_nil_r;
      repeat split; lia.
Qed.

Lemma bulletsLoop_visits (delta : num) (i1 : nat) (g : Game) :
  i1 <= List.length (bullets g) ->
  exists g',
    bulletsLoop delta i1 g = Some g' /\
    bulletVisits (trace g') =
    bulletVisits (trace g) ++ rev (map bullet_id (firstn i1 (bullets g))).
Proof.
  revert g. induction i1 as [|i IH]; intros g Hlen.
  - exists g. simpl. now rewrite app_nil_r.
  - destruct (nth_error_in_range i (bullets g) Hlen) as [bullet Hnth].
    simpl bulletsLoop. rewrite Hnth. simpl bind.
    set (g1 := set_bullets
                 (list_set i (Bullet_update delta bullet)
                    (bullets (call (CallBulletUpdate (bullet_id bullet)) g)))
                 (call (CallBulletUpdate (bullet_id bullet)) g)).
    destruct (bulletVsEnemies_total i (Bullet_update delta bullet)
                (List.length (enemies g1)) g1) as [g2 [Hrun [Hpre [Hle Hvis]]]].
    + lia.
    + unfold g1. simpl. rewrite length_list_set. lia.
    + change (exists g',
                (g0 <- bulletVsEnemies i (Bullet_update delta bullet)
                         (List.length (enemies g1)) g1 ;;
                 bulletsLoop delta i g0) = Some g' /\
                bulletVisits (trace g') =
                bulletVisits (trace g)
                ++ rev (map bullet_id (firstn (S i) (bullets g)))).
      rewrite Hrun. simpl bind.
      destruct (IH g2 Hle) as [g' [Hloop Hv]].
      exists g'. split; [exact Hloop|].
      rewrite Hv, Hvis, Hpre.
      rewrite (firstn_succ i bullet (bullets g) Hnth).
      rewrite map_app, rev_app_distr. unfold g1. simpl.
      rewrite firstn_list_set. unfold bulletVisits.
      rewrite flat_map_app. simpl. rewrite <- app_assoc. reflexivity.
Qed.

(** The three passes of [animate] that splice while they scan run
    from the last index down: every bullet, pickup and molotov that
    was in its array when the pass began is handed to [update] exactly
    once, last element first, whatever is removed on the way. *)
Lemma back_to_front_passes (delta : num) (g : Game) :
  (exists g', updateBullets delta g = Some g' /\
     bulletVisits (trace g') =
     bulletVisits (trace g) ++ rev (map bullet_id (bullets g))) /\
  (exists g', updatePickups delta g = Some g' /\
     pickupVisits (trace g') = pickupVisits (trace g) ++ rev (pickups g)) /\
  (exists g', updateMolotovs delta g = Some g' /\
     molotovVisits (trace g') = molotovVisits (trace g) ++ rev (molotovs g)).
Proof.
  split; [|split].
  - destruct (bulletsLoop_visits delta (List.length (bullets g)) g (le_n _))
      as [g' [H1 H2]].
    exists g'. split; [exact H1|]. now rewrite firstn_all in H2.
  - destruct (pickupsLoop_visits delta (List.length (pickups g)) g (le_n _))
      as [g' [H1 H2]].
    exists g'. split; [exact H1|]. now rewrite firstn_all in H2.
  - destruct (molotovsLoop_visits delta (List.length (molotovs g)) g (le_n _))
      as [g' [H1 H2]].
    exists g'. split; [exact H1|]. now rewrite firstn_all in H2.
Qed.
End BulletPass.

(* ================================================================= *)
(** ** The knife: who is struck *)

Section KnifePass.
Context {N : Number} {M : Modules}.
Local Open Scope js_scope.

Lemma knifeHitEnemy_miss damage forward k enemy (g : Game) :
  knifeReaches forward (player g) enemy = false ->
  knifeHitEnemy damage forward k enemy g = g.
Proof.
  unfold knifeReaches, knifeHitEnemy. intros H.
  destruct (_ <? knifeRange); [|reflexivity].
  simpl in H. rewrite H. reflexivity.
Qed.

Lemma knifeHitEnemy_alive damage forward k enemy health (g : Game) :
  knifeReaches forward (player g) enemy = true ->
  takeDamage damage enemy = (false, health) ->
  knifeHitEnemy damage forward k enemy g =
  set_enemies (list_set k (struck damage (player g) health enemy) (enemies g))
    (call (CallTakeDamage (enemy_id enemy) damage) g).
Proof.
  unfold knifeReaches, knifeHitEnemy. intros H Hd.
  apply andb_prop in H. destruct H as [H1 H2]. rewrite H1, H2, Hd.
  unfold set_enemies at 1. simpl. rewrite list_set_twice. reflexivity.
Qed.

Lemma knifeHitEnemy_dead damage forward k enemy health (g : Game) :
  knifeReaches forward (player g) enemy = true ->
  takeDamage damage enemy = (true, health) ->
  knifeHitEnemy damage forward k enemy g =
  removeEnemy (set_enemy_health health enemy)
    (call (CallTakeDamage (enemy_id enemy) damage)
       (set_enemies (list_set k (set_enemy_health health enemy) (enemies g)) g)).
Proof.
  unfold knifeReaches, knifeHitEnemy. intros H Hd.
  apply andb_prop in H. destruct H as [H1 H2]. rewrite H1, H2, Hd.
  reflexivity.
Qed.

(** For the enemy the callback is applied to: [takeDamage] is called,
    with the damage of the blow, exactly when the enemy is closer than
    10 and the dot product of the forward vector with the normalized
    vector to the enemy is positive. *)
Lemma knife_callback_damages_iff damage forward k enemy (g : Game) :
  knifeRange = #10 /\
  trace (knifeHitEnemy damage forward k enemy g) =
  trace g ++
  (if knifeReaches forward (player g) enemy
   then CallTakeDamage (enemy_id enemy) damage
        :: (if fst (takeDamage damage enemy)
            then [CallRemoveEnemy (enemy_id enemy)] else [])
   else []).
Proof.
  split; [reflexivity|].
  destruct (knifeReaches forward (player g) enemy) eqn:Hr.
  - destruct (takeDamage damage enemy) as [dead health] eqn:Hd.
    destruct dead.
    + rewrite (knifeHitEnemy_dead damage forward k enemy health g Hr Hd).
      simpl. now rewrite <- app_assoc.
    + now rewrite (knifeHitEnemy_alive damage forward k enemy health g Hr Hd).
  - rewrite (knifeHitEnemy_miss damage forward k enemy g Hr).
    now rewrite app_nil_r.
Qed.

Lemma knifeForEach_without_kill damage forward (rest pre : list Enemy)
  (g : Game) :
  enemies g = pre ++ rest ->
  (forall e, In e rest -> knifeReaches forward (player g) e = true ->
             fst (takeDamage damage e) = false) ->
  let g' := knifeForEach damage forward (List.length rest) (List.length pre) g in
  trace g' =
    trace g ++
    map (fun e => CallTakeDamage (enemy_id e) damage)
        (filter (knifeReaches forward (player g)) rest) /\
  List.length (enemies g') = List.length (enemies g).
Proof.
  revert pre g. induction rest as [|e rest IH]; intros pre g Hes Halive.
  - simpl. now rewrite app_nil_r.
  - simpl knifeForEach. rewrite Hes, nth_error_middle. simpl filter.
    destruct (knifeReaches forward (player g) e) eqn:Hr.
    + destruct (takeDamage damage e) as [dead health] eqn:Hd.
      assert (dead = false)
        by (specialize (Halive e (or_introl eq_refl) Hr);
            now rewrite Hd in Halive).
      subst dead.
      rewrite (knifeHitEnemy_alive damage forward (List.length pre) e health
                 g Hr Hd).
      rewrite Hes, list_set_middle.
      set (e' := struck damage (player g) health e).
      set (g1 := set_enemies (pre ++ e' :: rest)
                   (call (CallTakeDamage (enemy_id e) damage) g)).
      specialize (IH (pre ++ [e']) g1).
      rewrite length_app, Nat.add_comm in IH. simpl in IH.
      destruct IH as [Ht Hl].
      * unfold g1. simpl. now rewrite <- app_assoc.
      * intros x Hx. apply Halive. now right.
      * split.
        -- rewrite Ht. unfold g1. simpl. now rewrite <- app_assoc.
        -- rewrite Hl. unfold g1. simpl. rewrite !length_app. reflexivity.
    + rewrite (knifeHitEnemy_miss damage forward (List.length pre) e g Hr).
      specialize (IH (pre ++ [e]) g).
      rewrite length_app, Nat.add_comm in IH. simpl in IH.
      rewrite <- Hes. apply IH.
      * now rewrite <- app_assoc.
      * intros x Hx. apply Halive. now right.
Qed.

(** A blow that kills nobody strikes the enemies within reach and in
    front, all of them and no other, in the order of the array. *)
Lemma knife_pass_without_kill damage (g : Game) :
  let forward := knifeForward (player g) in
  (forall e, In e (enemies g) -> knifeReaches forward (player g) e = true ->
             fst (takeDamage damage e) = false) ->
  trace (onKnifeHit damage g) =
  trace g ++
  map (fun e => CallTakeDamage (enemy_id e) damage)
      (filter (knifeReaches forward (player g)) (enemies g)).
Proof.
  intros forward H. unfold onKnifeHit.
  exact (proj1 (knifeForEach_without_kill damage forward (enemies g) [] g
                  eq_refl H)).
Qed.
Lemma removeById_middle (id : nat) (pre : list Enemy) (e : Enemy)
  (rest : list Enemy) :
  (forall x, In x pre -> Nat.eqb (enemy_id x) id = false) ->
  enemy_id e = id ->
  removeById id (pre ++ e :: rest) = pre ++ rest.
Proof.
  intros Hpre He. induction pre as [|x pre IH]; simpl.
  - rewrite He, Nat.eqb_refl. reflexivity.
  - rewrite (Hpre x (or_introl eq_refl)). f_equal. apply IH.
    intros y Hy. apply Hpre. now right.
Qed.

(** C8 on the code: the knife pass runs [forEach] front to back over
    the live array.  When the callback kills the enemy at index [k]
    and removes it, the enemy that followed it moves down to index
    [k], and the pass goes on from index [k + 1]: that enemy is
    skipped. *)
Theorem knife_pass_skips_after_removal damage forward
  (pre : list Enemy) (e1 e2 : Enemy) (rest : list Enemy) (health : num)
  (left : nat) (g : Game) :
  enemies g = pre ++ e1 :: e2 :: rest ->
  (forall x, In x pre -> Nat.eqb (enemy_id x) (enemy_id e1) = false) ->
  knifeReaches forward (player g) e1 = true ->
  takeDamage damage e1 = (true, health) ->
  let k := List.length pre in
  let g1 := knifeHitEnemy damage forward k e1 g in
  knifeForEach damage forward (S left) k g =
  knifeForEach damage forward left (S k) g1 /\
  enemies g1 = pre ++ e2 :: rest /\
  nth_error (enemies g1) k = Some e2.
Proof.
  intros Hes Hpre Hr Hd k g1.
  assert (Hg1 : enemies g1 = pre ++ e2 :: rest).
  { unfold g1. rewrite (knifeHitEnemy_dead damage forward k e1 health g Hr Hd).
    simpl. rewrite Hes. unfold k. rewrite list_set_middle.
    now apply removeById_middle. }
  split; [|split].
  - simpl. rewrite Hes. unfold k. rewrite nth_error_middle. reflexivity.
  - exact Hg1.
  - rewrite Hg1. apply nth_error_middle.
Qed.
End KnifePass.

Section KnifeRun.
#[local] Existing Instance Float64.
#[local] Existing Instance Simple.
Local Open Scope js_scope.

(** C4 on the code: a blow of 10 kills the first enemy, and the
    second, four metres away and straight ahead, passes the test of
    the handler and yet is never handed to [takeDamage]; it is left
    with its 50 health. *)
Theorem knife_spares_enemy_in_reach :
  knifeReaches (knifeForward (player twoInReach)) (player twoInReach)
    (enemyAt 1 0 3 5) = true /\
  knifeReaches (knifeForward (player twoInReach)) (player twoInReach)
    (enemyAt 2 0 4 50) = true /\
  trace (onKnifeHit #10 twoInReach) = [CallTakeDamage 1 #10; CallRemoveEnemy 1] /\
  enemies (onKnifeHit #10 twoInReach) = [enemyAt 2 0 4 50].
Proof. repeat split; vm_compute; reflexivity. Qed.

(** The pass on two enemies: a lethal blow removes enemy 1 at index
    0, enemy 2 moves down to index 0, index 1 is no longer in the
    array, and the pass is over: it was the callback on index 0 alone.
    When nobody dies the same pass visits both. *)
Example knife_pass_on_two_enemies :
  map enemy_id (enemies twoInReach) = [1; 2]%nat /\
  damagedIds (trace (onKnifeHit #10 twoInReach)) = [1%nat] /\
  onKnifeHit #10 twoInReach =
  knifeHitEnemy #10 (knifeForward (player twoInReach)) 0 (enemyAt 1 0 3 5)
    twoInReach /\
  damagedIds (trace (onKnifeHit #2 twoInReach)) = [1; 2]%nat.
Proof. repeat split; vm_compute; reflexivity. Qed.

Lemma knife_pass_skips_witness :
  knifeForEach #10 (knifeForward (player twoInReach)) 2 0 twoInReach =
  knifeForEach #10 (knifeForward (player twoInReach)) 1 1
    (knifeHitEnemy #10 (knifeForward (player twoInReach)) 0 (enemyAt 1 0 3 5)
       twoInReach) /\
  enemies (knifeHitEnemy #10 (knifeForward (player twoInReach)) 0
             (enemyAt 1 0 3 5) twoInReach) = [enemyAt 2 0 4 50] /\
  nth_error
    (enemies (knifeHitEnemy #10 (knifeForward (player twoInReach)) 0
                (enemyAt 1 0 3 5) twoInReach)) 0 = Some (enemyAt 2 0 4 50).
Proof.
  apply (@knife_pass_skips_after_removal Float64 Simple #10
           (knifeForward (player twoInReach)) [] (enemyAt 1 0 3 5)
           (enemyAt 2 0 4 50) [] #0 1 twoInReach).
  - reflexivity.
  - intros x [].
  - vm_compute. reflexivity.
  - vm_compute. reflexivity.
Defined.
End KnifeRun.

(* ================================================================= *)
(** ** Pausing, resuming and dying *)

Section PauseAndDeath.
Context {N : Number} {M : Modules}.
Local Open Scope js_scope.

Lemma set_turret_active_twice (a b : bool) (ts : list Turret) :
  map (set_turret_active a) (map (set_turret_active b) ts)
  = map (set_turret_active a) ts.
Proof. rewrite map_map. apply map_ext. intros t. reflexivity. Qed.

Lemma togglePause_fields (g : Game) :
  paused (togglePause g) = negb (paused g) /\
  turrets (togglePause g) = map (set_turret_active (paused g)) (turrets g) /\
  isGameOver (togglePause g) = isGameOver g.
Proof.
  unfold togglePause. simpl. destruct (paused g); simpl; repeat split.
Qed.

(** X1. Pausing and resuming brings [paused] back and leaves every
    turret with the same [active] flag, the negation of [paused],
    whatever the flags were before: a turret that was switched off is
    on after pause and resume.  The same holds after the death of the
    player, which switches the turrets off: pause and resume switch
    them on again while [isGameOver] stays set. *)
Theorem pause_then_resume (g : Game) :
  paused (togglePause (togglePause g)) = paused g /\
  turrets (togglePause (togglePause g))
  = map (set_turret_active (negb (paused g))) (turrets g) /\
  isGameOver (togglePause (togglePause (onPlayerDeath g))) = true /\
  turrets (togglePause (togglePause (onPlayerDeath g)))
  = map (set_turret_active (negb (paused g))) (turrets g).
Proof.
  assert (Htwice : forall g0 : Game,
             paused (togglePause (togglePause g0)) = paused g0 /\
             turrets (togglePause (togglePause g0))
             = map (set_turret_active (negb (paused g0))) (turrets g0) /\
             isGameOver (togglePause (togglePause g0)) = isGameOver g0).
  { intros g0.
    destruct (togglePause_fields g0) as [Hp [Ht Ho]].
    destruct (togglePause_fields (togglePause g0)) as [Hp' [Ht' Ho']].
    rewrite Hp', Ht', Ho', Hp, Ht, Ho, set_turret_active_twice.
    split; [apply negb_involutive|]. split; reflexivity. }
  destruct (Htwice g) as [H1 [H2 _]].
  destruct (Htwice (onPlayerDeath g)) as [_ [H3 H4]].
  split; [exact H1|]. split; [exact H2|].
  rewrite H4, H3. unfold onPlayerDeath.
  destruct (isGameOver g) eqn:Eo; simpl.
  - split; [exact Eo|reflexivity].
  - split; [reflexivity|]. apply set_turret_active_twice.
Qed.

End PauseAndDeath.

(* ================================================================= *)
(** ** What a running frame does *)

Section RunningFrames.
Context {N : Number} {M : Modules}.
Local Open Scope js_scope.

Lemma advances_refl (g : Game) : advances g g.
Proof.
  split; [reflexivity|]. exists []. now rewrite app_nil_r.
Qed.

Lemma advances_trans (g1 g2 g3 : Game) :
  advances g1 g2 -> advances g2 g3 -> advances g1 g3.
Proof.
  intros [H1 [l1 [T1 F1]]] [H2 [l2 [T2 F2]]]. split; [congruence|].
  exists (l1 ++ l2). rewrite T2, T1, <- app_assoc. split; [reflexivity|].
  rewrite forallb_app, F1, F2. reflexivity.
Qed.

Lemma advances_step (g g' : Game) (l : list Call) :
  List.length (turrets g') = List.length (turrets g) ->
  trace g' = trace g ++ l ->
  forallb simulationCall l = true ->
  advances g g'.
Proof. intros H1 H2 H3. split; [exact H1|]. now exists l. Qed.

Ltac step :=
  match goal with
  | |- advances ?g _ =>
      apply (advances_step g _ []);
        [simpl; rewrite ?length_list_set, ?length_map; reflexivity
        |simpl; now rewrite app_nil_r
        |reflexivity]
  | |- advances ?g _ =>
      eapply (advances_step g);
        [simpl; rewrite ?length_list_set, ?length_map; reflexivity
        |simpl; rewrite <- ?app_assoc; reflexivity
        |reflexivity]
  end.

Lemma advances_enemyTick delta k enemy (g : Game) :
  advances g (enemyTick delta k enemy g).
Proof.
  unfold enemyTick.
  destruct (isAttacking _); [destruct (attackAction _) as [time|]|];
    try step.
  destruct (_ && _); step.
Qed.

Lemma advances_enemiesForOf delta left k (g : Game) :
  advances g (enemiesForOf delta left k g).
Proof.
  revert k g. induction left as [|left IH]; intros k g; simpl;
    [apply advances_refl|].
  destruct (nth_error (enemies g) k) as [enemy|]; [|apply advances_refl].
  eapply advances_trans; [apply advances_enemyTick|apply IH].
Qed.

Lemma advances_updateEnemies delta (g : Game) :
  advances g (updateEnemies delta g).
Proof.
  unfold updateEnemies. destruct (Spawner_update _ _ _) as [sp es].
  eapply advances_trans; [|apply advances_enemiesForOf]. step.
Qed.

Lemma advances_bulletVsEnemies i bullet j1 (g g' : Game) :
  bulletVsEnemies i bullet j1 g = Some g' -> advances g g'.
Proof.
  revert g. induction j1 as [|j IH]; intros g; simpl.
  - intros [= <-]. apply advances_refl.
  - destruct (nth_error (enemies g) j) as [enemy|]; simpl; [|discriminate].
    destruct (bulletHits bullet enemy); [|apply IH].
    destruct (takeDamage _ _) as [dead health].
    destruct dead; intros [= <-]; step.
Qed.

Lemma advances_bulletsLoop delta i1 (g g' : Game) :
  bulletsLoop delta i1 g = Some g' -> advances g g'.
Proof.
  revert g. induction i1 as [|i IH]; intros g; simpl.
  - intros [= <-]. apply advances_refl.
  - destruct (nth_error (bullets g) i) as [bullet|]; simpl; [|discriminate].
    destruct (bulletVsEnemies _ _ _ _) as [g1|] eqn:E; simpl; [|discriminate].
    intros H. apply advances_bulletVsEnemies in E. apply IH in H.
    eapply advances_trans; [|exact H].
    eapply advances_trans; [|exact E]. step.
Qed.

Lemma advances_pickupsLoop delta i1 (g g' : Game) :
  pickupsLoop delta i1 g = Some g' -> advances g g'.
Proof.
  revert g. induction i1 as [|i IH]; intros g; simpl.
  - intros [= <-]. apply advances_refl.
  - destruct (nth_error (pickups g) i) as [heart|]; simpl; [|discriminate].
    destruct (Pickup_update _ _ _) as [[collected heart'] p].
    intros H. apply IH in H. eapply advances_trans; [|exact H].
    destruct collected; step.
Qed.

Lemma advances_turretsForOf delta left k (g : Game) :
  advances g (turretsForOf delta left k g).
Proof.
  revert k g. induction left as [|left IH]; intros k g; simpl;
    [apply advances_refl|].
  destruct (nth_error (turrets g) k) as [t|]; [|apply advances_refl].
  destruct (Turret_update _ _ _) as [t' fired].
  eapply advances_trans; [|apply IH]. step.
Qed.

Lemma advances_molotovsLoop delta i1 (g g' : Game) :
  molotovsLoop delta i1 g = Some g' -> advances g g'.
Proof.
  revert g. induction i1 as [|i IH]; intros g; simpl.
  - intros [= <-]. apply advances_refl.
  - destruct (nth_error (molotovs g) i) as [m|]; simpl; [|discriminate].
    destruct (Molotov_update _ _ _) as [[dead m'] es].
    intros H. apply IH in H. eapply advances_trans; [|exact H].
    destruct dead; step.
Qed.

Lemma advances_updatePotion delta (g : Game) :
  advances g (updatePotion delta g).
Proof.
  unfold updatePotion. destruct (activePotion g) as [potion|];
    [|apply advances_refl].
  destruct (Potion_update _ _ _) as [[expired potion'] p].
  destruct expired; step.
Qed.

Lemma advances_knifeForEach damage forward left k (g : Game) :
  advances g (knifeForEach damage forward left k g).
Proof.
  revert k g. induction left as [|left IH]; intros k g; simpl;
    [apply advances_refl|].
  eapply advances_trans; [|apply IH].
  destruct (nth_error (enemies g) k) as [enemy|]; [|apply advances_refl].
  unfold knifeHitEnemy.
  destruct (_ <? knifeRange); [|apply advances_refl].
  destruct (_ <? _); [|apply advances_refl].
  destruct (takeDamage _ _) as [dead health]. destruct dead; step.
Qed.

Lemma simulationCall_frameCall (l : list Call) :
  forallb simulationCall l = true -> forallb frameCall l = true.
Proof.
  induction l as [|c l IH]; simpl; [reflexivity|].
  intros H. apply andb_prop in H. destruct H as [Hc Hl].
  unfold frameCall at 1. rewrite Hc. simpl. now apply IH.
Qed.

Lemma running_frame_advances delta (g : Game) :
  paused g = false -> isGameOver g = false ->
  player_mesh (player g) = true ->
  exists g1,
    advances (call ClockGetDelta (call RequestAnimationFrame g)) g1 /\
    untouched g1 = untouched g /\
    animate delta g = Some (call RendererRender g1).
Proof.
  intros Hp Ho Hm. unfold animate. simpl. rewrite Hp, Ho, Hm. simpl.
  set (g0 := call ClockGetDelta (call RequestAnimationFrame g)).
  set (ga := updateEnemies delta (call CallLightsUpdate (updatePlayer delta g0))).
  assert (Ha : advances g0 ga).
  { unfold ga. eapply advances_trans; [|apply advances_updateEnemies].
    unfold updatePlayer. step. }
  assert (Ua : untouched ga = untouched g).
  { unfold ga. now rewrite untouched_updateEnemies. }
  destruct (bulletsLoop_visits delta (List.length (bullets ga)) ga (le_n _))
    as [gb [Eb _]].
  unfold updateBullets. rewrite Eb. simpl.
  destruct (pickupsLoop_visits delta (List.length (pickups gb)) gb (le_n _))
    as [gc [Ec _]].
  unfold updatePickups. rewrite Ec. simpl.
  set (gd := updateTurrets delta (updateCamera delta (call (UI ui_update) gc))).
  destruct (molotovsLoop_visits delta (List.length (molotovs gd)) gd (le_n _))
    as [ge [Ee _]].
  unfold updateMolotovs. fold gd. rewrite Ee. simpl.
  eexists. split; [|split; [|reflexivity]].
  - eapply advances_trans; [exact Ha|].
    eapply advances_trans; [exact (advances_bulletsLoop _ _ _ _ Eb)|].
    eapply advances_trans; [exact (advances_pickupsLoop _ _ _ _ Ec)|].
    assert (Hd : advances gc gd).
    { unfold gd, updateTurrets. eapply advances_trans;
        [|apply advances_turretsForOf]. unfold updateCamera. step. }
    eapply advances_trans; [exact Hd|].
    eapply advances_trans; [exact (advances_molotovsLoop _ _ _ _ Ee)|].
    eapply advances_trans; [apply advances_updatePotion|].
    unfold updatePlayerBars. step.
  - apply untouched_bulletsLoop in Eb. apply untouched_pickupsLoop in Ec.
    apply untouched_molotovsLoop in Ee.
    change (untouched (updatePotion delta ge) = untouched g).
    rewrite untouched_updatePotion, Ee. unfold gd, updateTurrets, updateCamera.
    rewrite untouched_turretsForOf.
    change (untouched gc = untouched g). now rewrite Ec, Eb.
Qed.

(** X3. Every frame asks for the next frame once and reads the clock
    once, before anything else.  A paused frame and a frame after the
    game is over then render and return; a frame before the player
    mesh has loaded returns without rendering; every other frame runs
    its phases, which never fail on an index, and renders once, last. *)
Theorem frame_protocol (delta : num) (g : Game) :
  exists g' l,
    animate delta g = Some g' /\
    trace g' = trace g ++ [RequestAnimationFrame; ClockGetDelta] ++ l /\
    if paused g || isGameOver g then l = [RendererRender]
    else if player_mesh (player g) then
      exists sim, l = sim ++ [RendererRender] /\
                  forallb simulationCall sim = true
    else l = [].
Proof.
  destruct (paused g) eqn:Hp; [|destruct (isGameOver g) eqn:Ho].
  - exists (call RendererRender
              (call ClockGetDelta (call RequestAnimationFrame g))),
           [RendererRender].
    split; [apply animate_frozen; now left|].
    split; [simpl; now rewrite <- !app_assoc|reflexivity].
  - exists (call RendererRender
              (call ClockGetDelta (call RequestAnimationFrame g))),
           [RendererRender].
    split; [apply animate_frozen; now right|].
    split; [simpl; now rewrite <- !app_assoc|reflexivity].
  - simpl. destruct (player_mesh (player g)) eqn:Hm.
    + destruct (running_frame_advances delta g Hp Ho Hm)
        as [g1 [[_ [sim [Ht Hs]]] [_ Ha]]].
      exists (call RendererRender g1), (sim ++ [RendererRender]).
      split; [exact Ha|]. split.
      * simpl. rewrite Ht. simpl. now rewrite <- !app_assoc.
      * exists sim. now split.
    + exists (call ClockGetDelta (call RequestAnimationFrame g)), [].
      split.
      * unfold animate. simpl. rewrite Hp, Ho, Hm. reflexivity.
      * split; [simpl; now rewrite <- !app_assoc|reflexivity].
Qed.
End RunningFrames.

(* ================================================================= *)
(** ** Tokens and ghosts across events *)

Section Ledger.
Context {N : Number} {M : Modules}.
Local Open Scope Z_scope.

Lemma turretGhosts_app (a b : list Call) :
  turretGhosts (a ++ b) = turretGhosts a + turretGhosts b.
Proof.
  unfold turretGhosts. induction a as [|c a IH]; simpl; [reflexivity|].
  rewrite IH. lia.
Qed.

Lemma molotovGhosts_app (a b : list Call) :
  molotovGhosts (a ++ b) = molotovGhosts a + molotovGhosts b.
Proof.
  unfold molotovGhosts. induction a as [|c a IH]; simpl; [reflexivity|].
  rewrite IH. lia.
Qed.

Lemma molotovsThrown_app (a b : list Call) :
  molotovsThrown (a ++ b) = (molotovsThrown a ++ molotovsThrown b)%list.
Proof. apply flat_map_app. Qed.

Lemma frameCall_silent (l : list Call) :
  forallb frameCall l = true ->
  turretGhosts l = 0 /\ molotovGhosts l = 0 /\ molotovsThrown l = [].
Proof.
  induction l as [|c l IH]; simpl; [repeat split|].
  intros H. apply andb_prop in H. destruct H as [Hc Hl].
  destruct (IH Hl) as [H1 [H2 H3]].
  unfold turretGhosts, molotovGhosts in *. simpl. rewrite H1, H2, H3.
  destruct c as [| | | | |n|n|u| | | | | | | | | | | | | | | | | | | | |];
    try discriminate; try (repeat split; reflexivity);
    try (destruct n; try discriminate; repeat split; reflexivity).
Qed.

Lemma animate_steps (delta : num) (g : Game) :
  exists g' l,
    animate delta g = Some g' /\
    untouched g' = untouched g /\
    List.length (turrets g') = List.length (turrets g) /\
    trace g' = (trace g ++ l)%list /\
    forallb frameCall l = true.
Proof.
  destruct (paused g) eqn:Hp; [|destruct (isGameOver g) eqn:Ho;
    [|destruct (player_mesh (player g)) eqn:Hm]].
  - eexists. exists [RequestAnimationFrame; ClockGetDelta; RendererRender].
    split; [apply animate_frozen; now left|]. simpl.
    rewrite <- !app_assoc. repeat split.
  - eexists. exists [RequestAnimationFrame; ClockGetDelta; RendererRender].
    split; [apply animate_frozen; now right|]. simpl.
    rewrite <- !app_assoc. repeat split.
  - destruct (running_frame_advances delta g Hp Ho Hm)
      as [g1 [[Hlen [sim [Ht Hs]]] [Hu Ha]]].
    exists (call RendererRender g1),
           ([RequestAnimationFrame; ClockGetDelta] ++ sim ++ [RendererRender])%list.
    split; [exact Ha|]. split; [exact Hu|]. split; [exact Hlen|]. split.
    + simpl. rewrite Ht. simpl. now rewrite <- !app_assoc.
    + simpl. rewrite forallb_app. simpl. rewrite andb_true_r.
      clear - Hs. induction sim as [|c sim IH]; simpl in *; [reflexivity|].
      apply andb_prop in Hs. destruct Hs as [Hc Hs]. unfold frameCall at 1.
      rewrite Hc. simpl. now apply IH.
  - exists (call ClockGetDelta (call RequestAnimationFrame g)),
           [RequestAnimationFrame; ClockGetDelta].
    split; [unfold animate; simpl; now rewrite Hp, Ho, Hm|].
    simpl. rewrite <- !app_assoc. repeat split.
Qed.

Ltac books :=
  unfold credited, ledger, held;
  repeat (simpl;
          progress repeat match goal with
                 | |- context [match ?x with _ => _ end] => destruct x eqn:?
                 end);
  simpl in *; try congruence;
  rewrite ?turretGhosts_app, ?molotovGhosts_app, ?molotovsThrown_app,
    ?length_app, ?length_map;
  unfold turretGhosts, molotovGhosts; simpl;
  repeat match goal with |- (_, _) = (_, _) => f_equal end;
  try lia.

Lemma credited_nothing (b : Z * Z * Z * Z) : credited 0 0 b = b.
Proof.
  destruct b as [[[t m] gt] gm]. unfold credited. now rewrite !Z.add_0_r.
Qed.

Lemma credited_credited (a b c d : Z) (books : Z * Z * Z * Z) :
  credited a b (credited c d books) = credited (c + a) (d + b) books.
Proof.
  destruct books as [[[t m] gt] gm]. unfold credited.
  now rewrite <- !Z.add_assoc.
Qed.

Lemma ledger_cancelActiveDrag (g : Game) :
  ledger (cancelActiveDrag g) = ledger g.
Proof. unfold cancelActiveDrag. books. Qed.

Lemma ledger_quiet (g g' : Game) (l : list Call) :
  untouched g' = untouched g ->
  List.length (turrets g') = List.length (turrets g) ->
  trace g' = (trace g ++ l)%list ->
  forallb frameCall l = true ->
  ledger g' = ledger g /\ (tokensCover g -> tokensCover g').
Proof.
  intros Hu Hl Ht Hf.
  destruct (frameCall_silent l Hf) as [H1 [H2 H3]].
  unfold untouched in Hu. injection Hu as _ _ Hdt Hdm Htt Hmt _ _ _ _.
  unfold ledger, tokensCover. rewrite Ht, Hl, Hdt, Hdm, Htt, Hmt.
  rewrite turretGhosts_app, molotovGhosts_app, molotovsThrown_app, H1, H2, H3.
  rewrite app_nil_r, !Z.add_0_r. split; [reflexivity|tauto].
Qed.

Lemma ledger_dispatch ev (g g' : Game) :
  dispatch ev g = Some g' ->
  ledger g' = credited (turretAward ev) (molotovAward ev) (ledger g).
Proof.
  destruct ev; unfold dispatch, turretAward, molotovAward;
    rewrite ?credited_nothing; try (intros [= <-]).
  - intros H. destruct (animate_steps delta g) as [g1 [l [E [Hu [Hl [Ht Hf]]]]]].
    rewrite E in H. injection H as <-.
    exact (proj1 (ledger_quiet g g1 l Hu Hl Ht Hf)).
  - unfold togglePause. books.
  - unfold onStartTurretDrag, cancelActiveDrag. books.
  - unfold onStartMolotovDrag, cancelActiveDrag. books.
  - unfold pointermoveMolotov, pointermove. books.
  - unfold pointerupMolotov, pointerup, addTurretToken. books.
  - unfold onKnifeHit.
    destruct (advances_knifeForEach damage (knifeForward (player g))
                (List.length (enemies g)) 0 g) as [Hl [l [Ht Hs]]].
    apply (ledger_quiet g _ l); auto using untouched_knifeForEach,
      simulationCall_frameCall.
  - unfold onPlayerDeath. books.
  - unfold molotovImported, addMolotovToken. books.
  - unfold addTurretToken. books.
  - unfold addMolotovToken. books.
Qed.

Ltac covers H1 :=
  unfold tokensCover;
  repeat (simpl;
          progress repeat match goal with
                 | |- context [match ?x with _ => _ end] => destruct x eqn:?
                 end);
  simpl in *;
  repeat match goal with
         | H : (_ <=? _)%Z = false |- _ => apply Z.leb_gt in H
         end;
  repeat split; intros; try congruence; try lia;
  try (apply H1; congruence);
  try (pose proof (H1 ltac:(congruence)); lia).

Lemma tokensCover_dispatch ev (g g' : Game) :
  (0 <= turretAward ev)%Z ->
  tokensCover g -> dispatch ev g = Some g' -> tokensCover g'.
Proof.
  intros Hgift Hc. destruct ev; simpl in *; try (intros [= <-]).
  - intros H. destruct (animate_steps delta g) as [g1 [l [E [Hu [Hl [Ht Hf]]]]]].
    rewrite E in H. injection H as <-.
    exact (proj2 (ledger_quiet g g1 l Hu Hl Ht Hf) Hc).
  - destruct Hc as [H1 H3]. unfold togglePause. covers H1.
  - destruct Hc as [H1 H3].
    unfold onStartTurretDrag, cancelActiveDrag. covers H1.
  - destruct Hc as [H1 H3].
    unfold onStartMolotovDrag, cancelActiveDrag. covers H1.
  - destruct Hc as [H1 H3].
    unfold pointermoveMolotov, pointermove. covers H1.
  - destruct Hc as [H1 H3].
    unfold pointerupMolotov, pointerup, addTurretToken. covers H1.
  - unfold onKnifeHit.
    destruct (advances_knifeForEach damage (knifeForward (player g))
                (List.length (enemies g)) 0 g) as [Hl [l [Ht Hs]]].
    apply (ledger_quiet g _ l); auto using untouched_knifeForEach,
      simulationCall_frameCall.
  - destruct Hc as [H1 H3]. unfold onPlayerDeath. covers H1.
  - destruct Hc as [H1 H3]. unfold molotovImported, addMolotovToken.
    covers H1.
  - destruct Hc as [H1 H3]. unfold addTurretToken. covers H1.
  - destruct Hc as [H1 H3]. unfold addMolotovToken. covers H1.
Qed.

Lemma run_keeps_books evs (g : Game) :
  exists g',
    run evs g = Some g' /\
    ledger g' = credited (turretAwards evs) (molotovAwards evs) (ledger g) /\
    (awardsAreGifts evs = true -> tokensCover g -> tokensCover g').
Proof.
  revert g. induction evs as [|ev evs IH]; intros g.
  - exists g. split; [reflexivity|]. split; [|auto].
    change (turretAwards []) with 0%Z. change (molotovAwards []) with 0%Z.
    now rewrite credited_nothing.
  - assert (Hd : exists g1, dispatch ev g = Some g1).
    { destruct ev; simpl; eauto.
      destruct (animate_steps delta g) as [g1 [l [E _]]]. eauto. }
    destruct Hd as [g1 E]. simpl run. rewrite E. simpl bind.
    destruct (IH g1) as [g' [Hr [Hl Hc]]]. exists g'.
    split; [exact Hr|]. split.
    + rewrite Hl, (ledger_dispatch ev g g1 E), credited_credited.
      reflexivity.
    + intros Hg H. simpl in Hg.
      apply andb_prop in Hg. destruct Hg as [Hev Hrest].
      apply andb_prop in Hev. destruct Hev as [Hev _].
      apply Z.leb_le in Hev.
      apply Hc; [exact Hrest|].
      exact (tokensCover_dispatch ev g g1 Hev H E).
Qed.


(** X5. Ghosts follow drags.  Across any events, the turret ghosts
    added to the scene minus those removed changes exactly as the
    turret drag begins and ends, and so for the molotov ghost: with an
    empty scene and no drag at the start, a ghost is in the scene
    exactly while its drag is in progress, and none is left behind. *)
Theorem ghosts_follow_drags (evs : list Event) (g : Game) :
  exists g',
    run evs g = Some g' /\
    (turretGhosts (trace g') - held (draggingTurret g')
     = turretGhosts (trace g) - held (draggingTurret g))%Z /\
    (molotovGhosts (trace g') - held (draggingMolotov g')
     = molotovGhosts (trace g) - held (draggingMolotov g))%Z.
Proof.
  destruct (run_keeps_books evs g) as [g' [Hr [Hl _]]].
  exists g'. split; [exact Hr|].
  unfold ledger in Hl. injection Hl as _ _ H3 H4. now split.
Qed.
End Ledger.

(* ================================================================= *)
(** ** The ghost of a turret drag *)

Section GhostTint.
Context {N : Number} {M : Modules}.
Local Open Scope js_scope.

End GhostTint.

(* ================================================================= *)
(** ** A knife blow that kills nobody *)

Section KnifeBlow.
Context {N : Number} {M : Modules}.
Local Open Scope js_scope.

Lemma knifeForEach_blow damage forward (rest pre : list Enemy) (g : Game) :
  enemies g = pre ++ rest ->
  (forall e, In e rest -> knifeReaches forward (player g) e = true ->
             fst (takeDamage damage e) = false) ->
  let g' := knifeForEach damage forward (List.length rest) (List.length pre) g in
  enemies g' = pre ++ map (afterBlow damage forward (player g)) rest /\
  player g' = player g /\ bullets g' = bullets g /\ turrets g' = turrets g.
Proof.
  revert pre g. induction rest as [|e rest IH]; intros pre g Hes Halive.
  - simpl. rewrite Hes. repeat split.
  - simpl knifeForEach. rewrite Hes, nth_error_middle. simpl map.
    destruct (knifeReaches forward (player g) e) eqn:Hr.
    + destruct (takeDamage damage e) as [dead health] eqn:Hd.
      assert (dead = false)
        by (specialize (Halive e (or_introl eq_refl) Hr);
            now rewrite Hd in Halive).
      subst dead.
      rewrite (knifeHitEnemy_alive damage forward (List.length pre) e health
                 g Hr Hd).
      rewrite Hes, list_set_middle. simpl snd.
      set (e' := struck damage (player g) health e).
      set (g1 := set_enemies (pre ++ e' :: rest)
                   (call (CallTakeDamage (enemy_id e) damage) g)).
      specialize (IH (pre ++ [e']) g1).
      rewrite length_app, Nat.add_comm in IH. simpl in IH.
      destruct IH as [He [Hp [Hb Ht]]].
      * unfold g1. simpl. now rewrite <- app_assoc.
      * intros x Hx. apply Halive. now right.
      * assert (Hab : afterBlow damage forward (player g) e = e')
          by (unfold afterBlow; now rewrite Hr, Hd).
        cbv zeta. rewrite He, Hp, Hb, Ht, Hab. unfold g1. simpl.
        rewrite <- app_assoc. repeat split.
    + rewrite (knifeHitEnemy_miss damage forward (List.length pre) e g Hr).
      specialize (IH (pre ++ [e]) g).
      rewrite length_app, Nat.add_comm in IH. simpl in IH.
      destruct IH as [He [Hp [Hb Ht]]].
      * now rewrite <- app_assoc.
      * intros x Hx. apply Halive. now right.
      * assert (Hab : afterBlow damage forward (player g) e = e)
          by (unfold afterBlow; now rewrite Hr).
        cbv zeta. rewrite He, Hab, <- app_assoc. repeat split; assumption.
Qed.

(** X8. A knife blow that kills nobody strikes every enemy within
    reach and in front, and no other: each of them, in its own slot
    of the array, is left with the health [takeDamage] returns and the
    horizontal knockback added to its velocity; every other enemy, the
    player, the bullets and the turrets are as they were, and
    [takeDamage] was called once per struck enemy, in array order. *)
Theorem knife_blow_without_kill (damage : num) (g : Game) :
  let forward := knifeForward (player g) in
  (forall e, In e (enemies g) -> knifeReaches forward (player g) e = true ->
             fst (takeDamage damage e) = false) ->
  enemies (onKnifeHit damage g)
  = map (afterBlow damage forward (player g)) (enemies g) /\
  trace (onKnifeHit damage g) =
    trace g ++
    map (fun e => CallTakeDamage (enemy_id e) damage)
        (filter (knifeReaches forward (player g)) (enemies g)) /\
  player (onKnifeHit damage g) = player g /\
  bullets (onKnifeHit damage g) = bullets g /\
  turrets (onKnifeHit damage g) = turrets g.
Proof.
  intros forward H. unfold onKnifeHit. fold forward.
  destruct (knifeForEach_blow damage forward (enemies g) [] g eq_refl H)
    as [He [Hp [Hb Ht]]].
  split; [exact He|]. split; [|now repeat split].
  exact (proj1 (knifeForEach_without_kill damage forward (enemies g) [] g
                  eq_refl H)).
Qed.
End KnifeBlow.

(* ================================================================= *)
(** ** Bullets that hit nothing *)

Section BulletsFlyOn.
Context {N : Number} {M : Modules}.
Local Open Scope js_scope.

Lemma skipn_list_set {A : Type} (k : nat) (x y : A) (l : list A) :
  nth_error l k = Some y ->
  skipn k (list_set k x l) = x :: skipn (S k) l.
Proof.
  revert k. induction l as [|h t IH]; intros [|k]; simpl; try discriminate.
  - reflexivity.
  - intros H. now rewrite (IH k H).
Qed.

Lemma bulletVsEnemies_miss i bullet j1 (g : Game) :
  (j1 <= List.length (enemies g))%nat ->
  (forall e, In e (enemies g) -> bulletHits bullet e = false) ->
  bulletVsEnemies i bullet j1 g = Some g.
Proof.
  intros Hj Hm. induction j1 as [|j IH]; simpl; [reflexivity|].
  destruct (nth_error_in_range j (enemies g) Hj) as [enemy Hnth].
  rewrite Hnth. simpl. rewrite (Hm enemy (nth_error_In _ _ Hnth)).
  apply IH. lia.
Qed.

Lemma bulletsLoop_miss delta i1 (g : Game) :
  (i1 <= List.length (bullets g))%nat ->
  (forall b e, In b (firstn i1 (bullets g)) -> In e (enemies g) ->
               bulletHits (Bullet_update delta b) e = false) ->
  exists g',
    bulletsLoop delta i1 g = Some g' /\
    bullets g' = map (Bullet_update delta) (firstn i1 (bullets g))
                 ++ skipn i1 (bullets g) /\
    enemies g' = enemies g /\
    trace g' = trace g ++ rev (bulletUpdateCalls (firstn i1 (bullets g))).
Proof.
  revert g. induction i1 as [|i IH]; intros g Hlen Hmiss.
  - exists g. simpl. rewrite app_nil_r. repeat split.
  - destruct (nth_error_in_range i (bullets g) Hlen) as [bullet Hnth].
    pose proof (firstn_succ i bullet (bullets g) Hnth) as Hfirst.
    simpl bulletsLoop. rewrite Hnth. simpl bind.
    set (b' := Bullet_update delta bullet).
    set (g1 := set_bullets
                 (list_set i b'
                    (bullets (call (CallBulletUpdate (bullet_id bullet)) g)))
                 (call (CallBulletUpdate (bullet_id bullet)) g)).
    assert (Hm1 : bulletVsEnemies i b' (List.length (enemies g1)) g1 = Some g1).
    { apply bulletVsEnemies_miss; [lia|]. intros e He. unfold b'.
      apply Hmiss; [|exact He]. rewrite Hfirst. apply in_or_app. right.
      now left. }
    change (exists g',
              (g0 <- bulletVsEnemies i b' (List.length (enemies g1)) g1 ;;
               bulletsLoop delta i g0) = Some g' /\
              bullets g' = map (Bullet_update delta) (firstn (S i) (bullets g))
                           ++ skipn (S i) (bullets g) /\
              enemies g' = enemies g /\
              trace g' = trace g
                         ++ rev (bulletUpdateCalls (firstn (S i) (bullets g)))).
    rewrite Hm1. simpl bind.
    assert (Hb1 : bullets g1 = list_set i b' (bullets g)) by reflexivity.
    destruct (IH g1) as [g' [Hrun [Hb [He Ht]]]].
    + rewrite Hb1, length_list_set. lia.
    + intros b e Hb He. apply Hmiss; [|exact He].
      rewrite Hb1, firstn_list_set in Hb. rewrite Hfirst.
      apply in_or_app. now left.
    + exists g'. split; [exact Hrun|].
      rewrite Hb, He, Ht, Hb1, firstn_list_set.
      rewrite (skipn_list_set i b' bullet (bullets g) Hnth).
      rewrite Hfirst.
      unfold bulletUpdateCalls. rewrite !map_app, rev_app_distr. simpl.
      rewrite <- !app_assoc. repeat split.
Qed.

(** X9. Bullets that touch nobody fly on.  When no bullet, once
    moved by its [update], is within the two radii of any enemy, the
    pass over the bullets hands each of them to [update], last one
    first, writes it back to its slot, removes none, and leaves the
    enemies as they were: no [takeDamage] is called. *)
Theorem bullets_that_miss_fly_on (delta : num) (g : Game) :
  (forall b e, In b (bullets g) -> In e (enemies g) ->
               bulletHits (Bullet_update delta b) e = false) ->
  exists g',
    updateBullets delta g = Some g' /\
    bullets g' = map (Bullet_update delta) (bullets g) /\
    enemies g' = enemies g /\
    trace g' = trace g ++ rev (bulletUpdateCalls (bullets g)).
Proof.
  intros H.
  destruct (bulletsLoop_miss delta (List.length (bullets g)) g (le_n _))
    as [g' [Hrun [Hb [He Ht]]]].
  - rewrite firstn_all. exact H.
  - exists g'. rewrite firstn_all, skipn_all, app_nil_r in Hb.
    rewrite firstn_all in Ht. repeat split; assumption.
Qed.
End BulletsFlyOn.

(* ================================================================= *)
(** ** Enemy attacks *)

Section EnemyAttacks.
Context {N : Number} {M : Modules}.
Local Open Scope js_scope.

Lemma nth_error_list_set {A : Type} (k : nat) (x y : A) (l : list A) :
  nth_error l k = Some y -> nth_error (list_set k x l) k = Some x.
Proof.
  revert k. induction l as [|h t IH]; intros [|k]; simpl; try discriminate.
  - reflexivity.
  - apply IH.
Qed.

Lemma enemyTick_bite delta k enemy t (g : Game) :
  let e := Enemy_update delta enemy in
  isAttacking e = true -> attackAction e = Some t ->
  (distanceTo (enemy_position e) (player_position (player g)) <? attackRange)
  = true ->
  (if t <? lastAttackCycleTime e then false else hasDamaged e) = false ->
  enemyTick delta k enemy g =
  set_enemies
    (list_set k (set_hasDamaged true (set_lastAttackCycleTime t e)) (enemies g))
    (call (CallPlayerTakeDamage #10)
       (set_player (Player_takeDamage #10 (player g))
          (call (CallEnemyUpdate (enemy_id enemy)) g))).
Proof.
  intros e Ha Hact Hd Hflag. unfold enemyTick. fold e. rewrite Ha, Hact.
  destruct (t <? lastAttackCycleTime e); simpl in *; rewrite Hd;
    simpl; rewrite ?Hflag; reflexivity.
Qed.

Lemma enemyTick_sated delta k enemy t (g : Game) :
  let e := Enemy_update delta enemy in
  isAttacking e = true -> attackAction e = Some t ->
  (t <? lastAttackCycleTime e) = false -> hasDamaged e = true ->
  enemyTick delta k enemy g =
  set_enemies (list_set k (set_lastAttackCycleTime t e) (enemies g))
    (call (CallEnemyUpdate (enemy_id enemy)) g).
Proof.
  intros e Ha Hact Hlt Hflag. unfold enemyTick. fold e.
  rewrite Ha, Hact, Hlt. simpl. rewrite Hflag, andb_false_r. reflexivity.
Qed.

(** X10. An enemy bites once per attack cycle.  Provided
    [Enemy.update] leaves alone the two fields Game.js keeps on the
    enemy ([hasDamaged] and [lastAttackCycleTime]): a tick in which an
    attacking enemy within 5 of the player has not yet bitten costs
    the player 10 health and marks the enemy; the next tick of the
    same enemy, still attacking with the animation time not before the
    recorded one, only updates the enemy and leaves the player alone;
    once the animation time falls back below the recorded one, the
    cycle has restarted and the enemy, still in range, bites again. *)
Theorem enemy_bites_once_per_cycle (delta1 delta2 : num) (k : nat)
  (enemy : Enemy) (t1 t2 : num) (g : Game) :
  (forall d e, hasDamaged (Enemy_update d e) = hasDamaged e /\
               lastAttackCycleTime (Enemy_update d e) = lastAttackCycleTime e) ->
  nth_error (enemies g) k = Some enemy ->
  let e1 := Enemy_update delta1 enemy in
  isAttacking e1 = true -> attackAction e1 = Some t1 ->
  (distanceTo (enemy_position e1) (player_position (player g)) <? attackRange)
  = true ->
  hasDamaged e1 = false ->
  let g1 := enemyTick delta1 k enemy g in
  let enemy' := set_hasDamaged true (set_lastAttackCycleTime t1 e1) in
  let e2 := Enemy_update delta2 enemy' in
  nth_error (enemies g1) k = Some enemy' /\
  player g1 = Player_takeDamage #10 (player g) /\
  trace g1 = trace g ++ [CallEnemyUpdate (enemy_id enemy);
                         CallPlayerTakeDamage #10] /\
  (isAttacking e2 = true -> attackAction e2 = Some t2 ->
   if t2 <? t1 then
     (distanceTo (enemy_position e2) (player_position (player g1))
      <? attackRange) = true ->
     player (enemyTick delta2 k enemy' g1) = Player_takeDamage #10 (player g1)
   else
     player (enemyTick delta2 k enemy' g1) = player g1 /\
     trace (enemyTick delta2 k enemy' g1)
     = trace g1 ++ [CallEnemyUpdate (enemy_id enemy')]).
Proof.
  intros Hkeeps Hnth e1 Ha Hact Hd Hflag g1 enemy' e2.
  assert (Hg1 : g1 =
            set_enemies (list_set k enemy' (enemies g))
              (call (CallPlayerTakeDamage #10)
                 (set_player (Player_takeDamage #10 (player g))
                    (call (CallEnemyUpdate (enemy_id enemy)) g)))).
  { unfold g1. apply enemyTick_bite; try assumption. fold e1. rewrite Hflag.
    now destruct (t1 <? lastAttackCycleTime e1). }
  split; [rewrite Hg1; simpl; exact (nth_error_list_set k enemy' enemy _ Hnth)|].
  split; [rewrite Hg1; reflexivity|].
  split; [rewrite Hg1; simpl; now rewrite <- app_assoc|].
  intros Ha2 Hact2.
  destruct (Hkeeps delta2 enemy') as [Hh Hl]. fold e2 in Hh, Hl.
  simpl in Hh, Hl.
  destruct (t2 <? t1) eqn:Hlt.
  - intros Hd2.
    rewrite (enemyTick_bite delta2 k enemy' t2 g1 Ha2 Hact2 Hd2).
    + reflexivity.
    + fold e2. rewrite Hl, Hlt. reflexivity.
  - rewrite (enemyTick_sated delta2 k enemy' t2 g1 Ha2 Hact2).
    + split; reflexivity.
    + fold e2. now rewrite Hl.
    + fold e2. exact Hh.
Qed.
End EnemyAttacks.

(* ================================================================= *)
(** ** The mouse *)

Section Mouse.
Context {N : Number} {M : Modules} {H : Host}.
Local Open Scope js_scope.

Ltac mouse_cases :=
  repeat (simpl;
          progress repeat match goal with
                 | |- context [if ?x then _ else _] => destruct x eqn:?
                 end);
  simpl in *; try congruence; try reflexivity.

Lemma gesture_beyond (e : Gesture) (s : Session) :
  beyondTheMouse (gesture e s) = beyondTheMouse s.
Proof.
  destruct e; unfold gesture, mousedown, mouseup, mouseleave, mousemove, wheel,
    beyondTheMouse; mouse_cases.
Qed.

Lemma gesture_follow (e : Gesture) (s : Session) :
  cameraFollow (rig s) = true ->
  fixedCameraCenter (rig (gesture e s)) = fixedCameraCenter (rig s) /\
  (isRMBPanning (rig s) = false -> isRMBPanning (rig (gesture e s)) = false).
Proof.
  intros Hf. split; [|intros Hp];
    destruct e; unfold gesture, mousedown, mouseup, mouseleave, mousemove,
      wheel; mouse_cases; rewrite Hf in *; simpl in *; congruence.
Qed.

Lemma mousemove_panning (x y : num) (dir : Vector3) (s : Session) :
  isRMBPanning (rig s) = true -> cameraFollow (rig s) = false ->
  let forward := normalize (setY dir #0) in
  let right := normalize (crossVectors forward (vec3 #0 #1 #0)) in
  let move :=
    addScaledVector
      (addScaledVector (vec3 #0 #0 #0) right
         (- (x - fst (panPrev (rig s))) * pixelsToWorld))
      forward ((y - snd (panPrev (rig s))) * pixelsToWorld) in
  fixedCameraCenter (rig (mousemove x y dir s))
  = v_add (fixedCameraCenter (rig s)) move /\
  panPrev (rig (mousemove x y dir s)) = (x, y).
Proof.
  intros Hp Hf. unfold mousemove. rewrite Hp. simpl. rewrite Hf.
  split; reflexivity.
Qed.

(** X11. The mouse cannot pan a camera that follows the player.
    While [cameraFollow] is set, no sequence of mouse events (buttons
    pressed and released, the pointer moving or leaving, the wheel)
    moves [fixedCameraCenter] or starts a pan; and in either mode the
    mouse changes nothing of the camera pose, the frustum and the game
    other than the input object, the zoom, the centre and the pan
    state. *)
Theorem mouse_cannot_pan_a_following_camera (es : list Gesture) (s : Session) :
  beyondTheMouse (gestures es s) = beyondTheMouse s /\
  (cameraFollow (rig s) = true ->
   fixedCameraCenter (rig (gestures es s)) = fixedCameraCenter (rig s) /\
   (isRMBPanning (rig s) = false -> isRMBPanning (rig (gestures es s)) = false)).
Proof.
  revert s. induction es as [|e es IH]; intros s.
  - split; [reflexivity|]. intros _. split; [reflexivity|auto].
  - change (gestures (e :: es) s) with (gestures es (gesture e s)).
    destruct (IH (gesture e s)) as [Hb Hf].
    pose proof (gesture_beyond e s) as Hb1.
    split; [now rewrite Hb|].
    intros Hfollow.
    assert (Hfollow1 : cameraFollow (rig (gesture e s)) = true).
    { unfold beyondTheMouse in Hb1. injection Hb1 as _ _ _ _ _ _ Hc _ _.
      now rewrite Hc. }
    destruct (gesture_follow e s Hfollow) as [Hc1 Hp1].
    destruct (Hf Hfollow1) as [Hc Hp].
    split; [now rewrite Hc|].
    intros Hidle. apply Hp. now apply Hp1.
Qed.
End Mouse.

Section WheelIdeal.
#[local] Existing Instance Ideal.
Context {M : Modules}.
Local Open Scope R_scope.

Lemma ideal_isNaN (x : R) : isNaN x = false.
Proof.
  unfold isNaN. simpl. assert (E : Reqb x x = true) by now apply Reqb_true.
  now rewrite E.
Qed.

Lemma ideal_nmin (a b : R) : nmin a b = Rmin a b.
Proof.
  unfold nmin. rewrite !ideal_isNaN. simpl.
  destruct (Rltb a b) eqn:E1.
  - apply Rltb_true in E1. rewrite Rmin_left; lra.
  - apply Rltb_false in E1. destruct (Rltb b a) eqn:E2.
    + apply Rltb_true in E2. rewrite Rmin_right; lra.
    + apply Rltb_false in E2. assert (a = b) by lra. subst b.
      rewrite Rmin_left by lra. now destruct (Rltb _ _).
Qed.

Lemma ideal_nmax (a b : R) : nmax a b = Rmax a b.
Proof.
  unfold nmax. rewrite !ideal_isNaN. simpl.
  destruct (Rltb a b) eqn:E1.
  - apply Rltb_true in E1. rewrite Rmax_right; lra.
  - apply Rltb_false in E1. destruct (Rltb b a) eqn:E2.
    + apply Rltb_true in E2. rewrite Rmax_left; lra.
    + apply Rltb_false in E2. assert (a = b) by lra. subst b.
      rewrite Rmax_left by lra. now destruct (Rltb _ _).
Qed.

Lemma ideal_sign_negative (x : R) : Rltb (sign x) 0 = Rltb x 0.
Proof.
  unfold sign. simpl.
  destruct (Rltb 0 x) eqn:E1.
  - apply Rltb_true in E1.
    assert (E : Rltb 1 0 = false) by (apply Rltb_false; lra). rewrite E.
    symmetry. apply Rltb_false. lra.
  - destruct (Rltb x 0) eqn:E2; [|exact E2].
    apply Rltb_true. lra.
Qed.

(** X12. The wheel keeps the zoom in range.  On the real numbers,
    after a wheel event the zoom lies between [zoomMin = 1] and
    [zoomMax = 2], whatever it was; from a zoom in range, a negative
    [deltaY] multiplies it by 0.85 and stops at 1, and every other
    [deltaY], zero included, divides it by 0.85 and stops at 2.  The
    event touches nothing else of the camera and nothing of the game. *)
Theorem wheel_keeps_zoom_in_range (deltaY : R) (s : Session) :
  let z := camera_zoom (rig s) in
  let z' := camera_zoom (rig (wheel deltaY s)) in
  1 <= z' <= 2 /\
  (1 <= z <= 2 ->
   z' = if Rlt_dec deltaY 0 then Rmax 1 (z * (85 / 100))
        else Rmin 2 (z / (85 / 100))) /\
  rig (wheel deltaY s) = set_camera_zoom z' (rig s) /\
  game (wheel deltaY s) = game s /\
  dom (wheel deltaY s) = dom s ++ [PreventDefault; UpdateProjectionMatrix].
Proof.
  intros z z'.
  assert (Hz' : z' = Rmax 1 (Rmin 2
                  (z * (if Rlt_dec deltaY 0 then 85 / 100 else 1 / (85 / 100))))).
  { unfold z', wheel, clamp. simpl camera_zoom.
    rewrite ideal_nmax, ideal_nmin, ideal_sign_negative.
    unfold Rltb. fold z. destruct (Rlt_dec deltaY 0); do 3 f_equal; lra. }
  split; [|split; [|split; [|split]]].
  - rewrite Hz'. split; [apply Rmax_l|].
    apply Rmax_lub; [lra|apply Rmin_l].
  - intros Hz. rewrite Hz'. destruct (Rlt_dec deltaY 0).
    + rewrite (Rmin_right 2) by lra. reflexivity.
    + assert (Hq : z <= z * (1 / (85 / 100))) by (apply Rle_trans with (z * 1); [lra|apply Rmult_le_compat_l; lra]).
      replace (z / (85 / 100)) with (z * (1 / (85 / 100))) by (field; lra).
      apply Rmax_right. apply Rmin_glb; lra.
  - reflexivity.
  - reflexivity.
  - simpl. now rewrite <- app_assoc.
Qed.
End WheelIdeal.

Section PanIdeal.
#[local] Existing Instance Ideal.
Context {M : Modules}.
Local Open Scope R_scope.

Lemma v_length_flat (a : Vector3) :
  v_length (setY a 0) = horizontalLength a.
Proof.
  unfold v_length, lengthSq, horizontalLength, setY. simpl.
  f_equal. ring.
Qed.

Lemma normalize_flat (a : Vector3) :
  0 < horizontalLength a ->
  vy (normalize (setY a 0)) = 0 /\
  vx (normalize (setY a 0)) * vx (normalize (setY a 0))
  + vz (normalize (setY a 0)) * vz (normalize (setY a 0)) = 1.
Proof.
  intros Hh. pose proof (horizontalLength_sq a) as Hsq.
  rewrite ideal_normalize by (rewrite v_length_flat; exact Hh).
  rewrite v_length_flat. simpl. set (h := horizontalLength a) in *.
  split; [unfold Rdiv; ring|].
  replace (vx a / h * (vx a / h) + vz a / h * (vz a / h))
    with ((vx a * vx a + vz a * vz a) / (h * h)) by (field; lra).
  rewrite <- Hsq. field. lra.
Qed.

Lemma right_of_forward (f : Vector3) :
  vy f = 0 -> vx f * vx f + vz f * vz f = 1 ->
  normalize (crossVectors f (vec3 0 1 0)) = vec3 (- vz f) 0 (vx f).
Proof.
  intros Hy Hu.
  assert (Hc : crossVectors f (vec3 0 1 0) = vec3 (- vz f) 0 (vx f)).
  { unfold crossVectors. simpl. rewrite Hy. f_equal; ring. }
  rewrite Hc.
  assert (HL : v_length (vec3 (- vz f) 0 (vx f)) = 1).
  { unfold v_length, lengthSq. simpl.
    replace (- vz f * - vz f + 0 * 0 + vx f * vx f) with 1 by lra.
    exact sqrt_1. }
  rewrite ideal_normalize by (rewrite HL; lra). rewrite HL. simpl.
  f_equal; field.
Qed.

(** X13. A right-button drag moves the centre of the fixed camera
    along the ground by the length of the drag.  On the real numbers,
    while panning in the fixed mode with a camera that does not look
    straight down: a mouse move leaves the height of
    [fixedCameraCenter] as it was and shifts the centre horizontally
    by [pixelsToWorld = 0.12] times the distance the pointer moved on
    the screen since the last event, and records the pointer in
    [panPrev]. *)
Theorem pan_moves_the_centre_by_the_drag (x y px py : R) (dir : Vector3)
  (s : Session) :
  isRMBPanning (rig s) = true -> cameraFollow (rig s) = false ->
  panPrev (rig s) = (px, py) ->
  0 < horizontalLength dir ->
  let c := fixedCameraCenter (rig s) in
  let c' := fixedCameraCenter (rig (mousemove x y dir s)) in
  vy c' = vy c /\
  distanceTo c' c
  = 12 / 100 * sqrt ((x - px) * (x - px) + (y - py) * (y - py)) /\
  panPrev (rig (mousemove x y dir s)) = (x, y).
Proof.
  intros Hpan Hfix Hprev Hh c c'.
  destruct (normalize_flat dir Hh) as [Hy Hu].
  pose proof (right_of_forward _ Hy Hu) as Hr.
  destruct (@mousemove_panning Ideal M x y dir s Hpan Hfix) as [Hc Hp].
  unfold c'. rewrite Hc, Hp. clear Hc Hp. rewrite Hprev.
  change (@fromZ Ideal 0) with 0 in *. change (@fromZ Ideal 1) with 1 in *.
  rewrite Hr.
  remember (normalize (setY dir 0)) as f eqn:Ef. clear Ef Hr.
  assert (Hs : pixelsToWorld = 12 / 100)
    by (unfold pixelsToWorld, dec; simpl; lra).
  rewrite Hs. subst c. generalize (fixedCameraCenter (rig s)). intros c.
  unfold addScaledVector, v_add, distanceTo, distanceToSquared. simpl.
  rewrite Hy. split; [ring|]. split; [|reflexivity].
  match goal with
  | |- sqrt ?e = _ =>
      replace e with ((12 / 100) * (12 / 100)
                      * ((x - px) * (x - px) + (y - py) * (y - py))
                      * (vx f * vx f + vz f * vz f)) by ring
  end.
  rewrite Hu, Rmult_1_r, sqrt_mult_alt by lra.
  rewrite sqrt_square by lra. reflexivity.
Qed.
End PanIdeal.

(* ================================================================= *)
(** ** The camera *)

Section CameraModes.
Context {N : Number} {T : Trig} {M : Modules} {H : Host}.
Local Open Scope js_scope.

Lemma cameraPhase_fixed (delta : num) (s : Session) :
  cameraFollow (rig s) && player_mesh (player (game s)) = false ->
  let angle :=
    let a := cameraAngle (rig s) in
    let a := if input_get KeyQ (input (game s))
             then a - delta * rotationSpeed else a in
    if input_get KeyE (input (game s)) then a + delta * rotationSpeed else a in
  let c := fixedCameraCenter (rig s) in
  rig (cameraPhase delta s) =
  lookAt c
    (set_camera_position
       (vec3 (vx c + cameraDistance (rig s) * ncos angle)
             (vy c + cameraHeight (rig s))
             (vz c + cameraDistance (rig s) * nsin angle))
       (set_cameraAngle angle (rig s))).
Proof.
  intros Hf. unfold cameraPhase. simpl.
  destruct (input_get KeyQ (input (game s)));
    destruct (input_get KeyE (input (game s))); simpl; rewrite Hf;
    destruct (rig s); reflexivity.
Qed.

Lemma cameraPhase_follow (delta : num) (s : Session) :
  cameraFollow (rig s) = true -> player_mesh (player (game s)) = true ->
  input_get KeyQ (input (game s)) = false ->
  input_get KeyE (input (game s)) = false ->
  let p := player_position (player (game s)) in
  let target := followTarget p (rig s) in
  let camAcc :=
    v_add (multiplyScalar (v_sub target (camera_position (rig s)))
                          springStiffness)
          (multiplyScalar (cameraVel (rig s)) (- springDamping)) in
  let vel := addScaledVector (cameraVel (rig s)) camAcc delta in
  rig (cameraPhase delta s) =
  lookAt p
    (set_camera_position (addScaledVector (camera_position (rig s)) vel delta)
       (set_cameraVel vel (rig s))).
Proof.
  intros Hf Hm Hq He. unfold cameraPhase. rewrite Hq, He, Hf, Hm.
  reflexivity.
Qed.

(** X14. Leaving the follow mode parks the camera where the follow
    mode was taking it.  When the camera follows the player (whose
    model has loaded) and the mode is toggled, [fixedCameraCenter]
    becomes the player's position and the spring velocity is reset;
    a camera phase that comes next puts the camera on the orbit point
    above the player, which is the very target the follow mode was
    steering to, and looks at the player's position.  This holds in
    binary64 as on the real numbers: both modes evaluate the same
    expression. *)
Theorem leaving_follow_mode_parks_the_camera (delta : num) (s : Session) :
  cameraFollow (rig s) = true -> player_mesh (player (game s)) = true ->
  let p := player_position (player (game s)) in
  let s1 := onToggleCameraFollow s in
  let s2 := cameraPhase delta s1 in
  cameraFollow (rig s1) = false /\
  fixedCameraCenter (rig s1) = p /\
  cameraVel (rig s1) = vec3 #0 #0 #0 /\
  trace (game s1) = trace (game s) ++ [UI ui_showFloatingMessage] /\
  camera_position (rig s2) = followTarget p (rig s2) /\
  camera_target (rig s2) = p /\
  cameraVel (rig s2) = vec3 #0 #0 #0.
Proof.
  intros Hf _ p s1 s2.
  assert (H1 : rig s1 = set_cameraVel (vec3 #0 #0 #0)
                          (set_fixedCameraCenter p
                             (set_cameraFollow false (rig s)))).
  { unfold s1, onToggleCameraFollow. simpl. rewrite Hf. reflexivity. }
  assert (Hg : game s1 = call (UI ui_showFloatingMessage) (game s))
    by reflexivity.
  split; [now rewrite H1|]. split; [now rewrite H1|].
  split; [now rewrite H1|]. split; [now rewrite Hg|].
  unfold s2. rewrite cameraPhase_fixed by (rewrite H1; reflexivity).
  rewrite H1. unfold followTarget, v_add. simpl. repeat split.
Qed.
End CameraModes.

Section CameraIdeal.
#[local] Existing Instance Ideal.
#[local] Existing Instance IdealTrig.
Context {M : Modules} {H : Host}.
Local Open Scope R_scope.

(** X15. The orthographic frustum keeps the shape of the container.
    On the real numbers, for a container of positive height,
    [onWindowResize] makes the frustum 100 high, symmetric about the
    axis, and its width to its height as [clientWidth] to
    [clientHeight]; it is the frustum [initCamera] builds for the same
    container; nothing else of the camera changes, and the projection
    matrix and the renderer size are refreshed. *)
Theorem frustum_keeps_the_aspect (w h : R) (s : Session) :
  0 < h ->
  let r := rig (onWindowResize w h s) in
  camera_top r - camera_bottom r = 100 /\
  (camera_right r - camera_left r) * h = w * (camera_top r - camera_bottom r) /\
  camera_left r = - camera_right r /\
  camera_bottom r = - camera_top r /\
  (camera_left r, camera_right r, camera_top r, camera_bottom r)
  = (camera_left (initCamera w h), camera_right (initCamera w h),
     camera_top (initCamera w h), camera_bottom (initCamera w h)) /\
  r = set_frustum (camera_left r) (camera_right r) (camera_top r)
        (camera_bottom r) (rig s) /\
  dom (onWindowResize w h s)
  = dom s ++ [UpdateProjectionMatrix; RendererSetSize w h].
Proof.
  intros Hh r. unfold r, onWindowResize, initCamera, viewSize. simpl.
  rewrite <- app_assoc.
  split; [lra|]. split; [field; lra|]. split; [lra|]. split; [lra|].
  repeat split.
Qed.

(** X16. In the fixed mode the camera stands on a circle around the
    centre.  On the real numbers, a camera phase in the fixed mode
    turns the angle by [-delta] when Q is held and by [+delta] when E
    is held (one radian per second; held together they cancel), leaves
    [fixedCameraCenter] and the spring velocity alone, and puts the
    camera [cameraHeight] above the centre at horizontal distance
    [cameraDistance] from it, looking at the centre. *)
Theorem fixed_camera_orbits_the_centre (delta : R) (s : Session) :
  cameraFollow (rig s) = false ->
  let r := rig s in
  let r' := rig (cameraPhase delta s) in
  let c := fixedCameraCenter r in
  cameraAngle r' =
    cameraAngle r
    - (if input_get KeyQ (input (game s)) then delta else 0)
    + (if input_get KeyE (input (game s)) then delta else 0) /\
  fixedCameraCenter r' = c /\
  cameraVel r' = cameraVel r /\
  camera_target r' = c /\
  vy (camera_position r') = vy c + cameraHeight r /\
  (vx (camera_position r') - vx c) * (vx (camera_position r') - vx c)
  + (vz (camera_position r') - vz c) * (vz (camera_position r') - vz c)
  = cameraDistance r * cameraDistance r.
Proof.
  intros Hf r r' c. unfold r'.
  rewrite (@cameraPhase_fixed Ideal IdealTrig M H delta s)
    by (rewrite Hf; reflexivity).
  fold r c. unfold rotationSpeed. simpl. change (@num Ideal) with R in *.
  split; [destruct (input_get KeyQ _); destruct (input_get KeyE _); lra|].
  repeat split.
  match goal with
  | |- context [cos ?a] =>
      pose proof (sin2_cos2 a) as Hsc; unfold Rsqr in Hsc;
      generalize dependent (cos a); generalize dependent (sin a)
  end.
  intros sa ca Hsc.
  replace ((vx c + cameraDistance r * ca - vx c)
           * (vx c + cameraDistance r * ca - vx c)
           + (vz c + cameraDistance r * sa - vz c)
             * (vz c + cameraDistance r * sa - vz c))
    with (cameraDistance r * cameraDistance r * (sa * sa + ca * ca)) by ring.
  rewrite Hsc. ring.
Qed.

Lemma vector_eq (a b : Vector3) :
  vx a = vx b -> vy a = vy b -> vz a = vz b -> a = b.
Proof. destruct a, b. simpl. now intros -> -> ->. Qed.

(** X17. The spring of the follow mode.  On the real numbers, with
    no rotation key held, a camera phase in the follow mode looks at
    the player; a camera that sits on its target with no velocity
    stays there; a frame whose clock delta is zero moves nothing; and
    from rest, one step closes the gap to the target by the fraction
    [12 * delta^2], the stiffness times the squared step. *)
Theorem follow_camera_spring (delta : R) (s : Session) :
  cameraFollow (rig s) = true -> player_mesh (player (game s)) = true ->
  input_get KeyQ (input (game s)) = false ->
  input_get KeyE (input (game s)) = false ->
  let p := player_position (player (game s)) in
  let target := followTarget p (rig s) in
  let x := camera_position (rig s) in
  let v := cameraVel (rig s) in
  let x' := camera_position (rig (cameraPhase delta s)) in
  let v' := cameraVel (rig (cameraPhase delta s)) in
  camera_target (rig (cameraPhase delta s)) = p /\
  (x = target -> v = vec3 0 0 0 -> x' = target /\ v' = vec3 0 0 0) /\
  (delta = 0 -> x' = x /\ v' = v) /\
  (v = vec3 0 0 0 ->
   v_sub x' target
   = multiplyScalar (v_sub x target) (1 - 12 * (delta * delta))).
Proof.
  intros Hf Hm Hq He p target x v x' v'.
  unfold x', v'.
  rewrite (@cameraPhase_follow Ideal IdealTrig M H delta s Hf Hm Hq He).
  fold p target x v. simpl. unfold springStiffness, springDamping.
  generalize target as t. clear. intros t.
  change (@num Ideal) with R in *.
  split; [reflexivity|]. split; [|split].
  - intros -> ->. split; apply vector_eq; simpl; ring.
  - intros ->. split; apply vector_eq; simpl; ring.
  - intros ->. apply vector_eq; simpl; ring.
Qed.

Lemma sqrt_3200 : sqrt (40 * 40 + 40 * 40) = 40 * sqrt 2.
Proof.
  replace (40 * 40 + 40 * 40) with ((40 * 40) * 2) by ring.
  rewrite sqrt_mult_alt by lra. now rewrite sqrt_square by lra.
Qed.

(** X18. The camera starts at rest.  [initCamera] puts the camera at
    (40, 40, 40) and derives the orbit angle, distance and height from
    that position; the follow mode is off at the start, so the first
    camera phases run in the fixed mode around the origin.  On the
    real numbers, with no rotation key held they put the camera back
    exactly where [initCamera] put it, looking at the origin: the
    angle is a quarter of pi and the distance 40 times the square root
    of 2. *)
Theorem initial_camera_is_at_rest (w h delta : R) (g : Game) :
  input_get KeyQ (input g) = false -> input_get KeyE (input g) = false ->
  let s := mkSession g (initCamera w h) [] in
  cameraFollow (rig s) = false /\
  cameraAngle (rig s) = PI / 4 /\
  cameraDistance (rig s) = 40 * sqrt 2 /\
  camera_position (rig (cameraPhase delta s)) = vec3 40 40 40 /\
  camera_target (rig (cameraPhase delta s)) = vec3 0 0 0 /\
  camera_position (rig (cameraPhase delta s)) = camera_position (rig s).
Proof.
  intros Hq He s.
  assert (Ha : cameraAngle (rig s) = PI / 4).
  { simpl. unfold Ratan2. destruct (Rlt_dec 0 40) as [_|Hn]; [|lra].
    replace (40 / 40) with 1 by (field; lra). exact atan_1. }
  assert (Hd : cameraDistance (rig s) = 40 * sqrt 2) by exact sqrt_3200.
  split; [reflexivity|]. split; [exact Ha|]. split; [exact Hd|].
  assert (Hs2 : 0 < sqrt 2) by (apply sqrt_lt_R0; lra).
  assert (Hp : camera_position (rig (cameraPhase delta s)) = vec3 40 40 40).
  { rewrite (@cameraPhase_fixed Ideal IdealTrig M H delta s) by reflexivity.
    change (input (game s)) with (input g). rewrite Hq, He.
    cbv zeta. rewrite Ha, Hd. simpl. rewrite cos_PI4, sin_PI4.
    apply vector_eq; simpl; field; lra. }
  split; [exact Hp|]. split; [|rewrite Hp; reflexivity].
  rewrite (@cameraPhase_fixed Ideal IdealTrig M H delta s) by reflexivity.
  reflexivity.
Qed.
End CameraIdeal.

(* ================================================================= *)
(** ** The keyboard *)

Section Keyboard.
Context {N : Number} {M : Modules} {H : Host}.
Local Open Scope js_scope.

Lemma cancelActiveDrag_keeps (g : Game) :
  staticColliders (cancelActiveDrag g) = staticColliders g /\
  turrets (cancelActiveDrag g) = turrets g /\
  turretTokens (cancelActiveDrag g) = turretTokens g /\
  molotovTokens (cancelActiveDrag g) = molotovTokens g.
Proof.
  unfold cancelActiveDrag.
  destruct (draggingTurret g); simpl; destruct (draggingMolotov g); simpl;
    repeat split.
Qed.

Lemma cancelActiveDrag_idle (g : Game) :
  draggingTurret g = None -> draggingMolotov g = None ->
  cancelActiveDrag g = g.
Proof. unfold cancelActiveDrag. intros -> ->. reflexivity. Qed.

Lemma pointermoveMolotov_idle (hit : option Vector3) (g : Game) :
  draggingMolotov g = None -> pointermoveMolotov hit g = g.
Proof. unfold pointermoveMolotov. intros ->. reflexivity. Qed.

Lemma key_starts_turret_drag (hit : option Vector3) (g : Game) :
  draggingTurret g = None -> draggingMolotov g = None ->
  let g' := simulatePointerMoveAtMouse hit (onStartTurretDrag g) in
  draggingMolotov g' = None /\
  draggingTurret g' =
    (if (turretTokens g <=? 0)%Z then None
     else Some (match hit with
                | Some h => mkGhost (snapToGrid h)
                              (isTurretPlacementValid g (snapToGrid h))
                | None => mkGhost (vec3 #0 #0 #0) true
                end)).
Proof.
  intros Hdt Hdm. unfold simulatePointerMoveAtMouse, onStartTurretDrag.
  destruct (turretTokens g <=? 0)%Z.
  - rewrite (pointermove_idle _ _ Hdt), (pointermoveMolotov_idle _ _ Hdm).
    now split.
  - rewrite (cancelActiveDrag_idle g Hdt Hdm).
    set (g3 := set_draggingTurret (Some (mkGhost (vec3 #0 #0 #0) true))
                 (call (SceneAdd GhostNode) g)).
    destruct hit as [h|].
    + rewrite (pointermove_dragging g3 _ h eq_refl).
      rewrite pointermoveMolotov_idle by exact Hdm.
      split; [exact Hdm|]. reflexivity.
    + unfold pointermove. simpl.
      rewrite pointermoveMolotov_idle by exact Hdm. now split.
Qed.

Lemma key_starts_molotov_drag (hit : option Vector3) (g : Game) :
  draggingTurret g = None -> draggingMolotov g = None ->
  let g' := simulatePointerMoveAtMouse hit (onStartMolotovDrag g) in
  draggingTurret g' = None /\
  draggingMolotov g' =
    (if (molotovTokens g <=? 0)%Z then None
     else Some (match hit with
                | Some h => snapToGrid h
                | None => vec3 #0 #0 #0
                end)).
Proof.
  intros Hdt Hdm. unfold simulatePointerMoveAtMouse, onStartMolotovDrag.
  destruct (molotovTokens g <=? 0)%Z.
  - rewrite (pointermove_idle _ _ Hdt), (pointermoveMolotov_idle _ _ Hdm).
    now split.
  - rewrite (cancelActiveDrag_idle g Hdt Hdm).
    rewrite pointermove_idle by exact Hdt.
    unfold pointermoveMolotov. simpl. destruct hit; now split.
Qed.

(** X19. Keys 1 and 2 cancel the drag in progress before the tokens
    are looked at.  Key 1 ends any drag, then starts a turret drag if
    a turret token is left, and lets both pointer-move listeners hear
    the pointer where it last was: afterwards no molotov drag is in
    progress, and a turret drag is in progress exactly when
    [turretTokens > 0], its ghost on the snapped point under the
    pointer and tinted by the validity there (or where the drag put
    it, at the origin and green, when the pointer is not over the
    ground).  With no token left the
    key has still cancelled the drag, whereas the button of the UI,
    [onStartTurretDrag], leaves everything as it was.  Key 2 does the
    same for molotovs. *)
Theorem digit_keys_cancel_before_they_check_tokens (hit : option Vector3)
  (s : Session) :
  let g := game s in
  let g1 := game (keydown Digit1 hit s) in
  let g2 := game (keydown Digit2 hit s) in
  draggingMolotov g1 = None /\
  draggingTurret g1 =
    (if (turretTokens g <=? 0)%Z then None
     else Some (match hit with
                | Some h => mkGhost (snapToGrid h)
                              (isTurretPlacementValid g (snapToGrid h))
                | None => mkGhost (vec3 #0 #0 #0) true
                end)) /\
  ((turretTokens g <=? 0)%Z = true -> onStartTurretDrag g = g) /\
  draggingTurret g2 = None /\
  draggingMolotov g2 =
    (if (molotovTokens g <=? 0)%Z then None
     else Some (match hit with
                | Some h => snapToGrid h
                | None => vec3 #0 #0 #0
                end)) /\
  ((molotovTokens g <=? 0)%Z = true -> onStartMolotovDrag g = g) /\
  rig (keydown Digit1 hit s) = rig s /\ rig (keydown Digit2 hit s) = rig s.
Proof.
  intros g g1 g2.
  set (g0 := set_input (input_set Digit1 true (input g)) g).
  set (g0' := set_input (input_set Digit2 true (input g)) g).
  assert (E1 : g1 = simulatePointerMoveAtMouse hit
                      (onStartTurretDrag (cancelActiveDrag g0))).
  { unfold g1, keydown. simpl game at 1.
    replace (String.eqb Digit1 KeyR) with false by reflexivity.
    rewrite andb_false_r.
    replace (String.eqb Digit1 Digit1) with true by reflexivity.
    reflexivity. }
  assert (E2 : g2 = simulatePointerMoveAtMouse hit
                      (onStartMolotovDrag (cancelActiveDrag g0'))).
  { unfold g2, keydown. simpl game at 1.
    replace (String.eqb Digit2 KeyR) with false by reflexivity.
    rewrite andb_false_r.
    replace (String.eqb Digit2 Digit1) with false by reflexivity.
    replace (String.eqb Digit2 Digit2) with true by reflexivity.
    reflexivity. }
  destruct (cancelActiveDrag_drags g0) as [Hdt Hdm].
  destruct (cancelActiveDrag_keeps g0) as [Hc [Ht [Htt Hmt]]].
  destruct (cancelActiveDrag_drags g0') as [Hdt' Hdm'].
  destruct (cancelActiveDrag_keeps g0') as [Hc' [Ht' [Htt' Hmt']]].
  destruct (key_starts_turret_drag hit _ Hdt Hdm) as [K1 K2].
  destruct (key_starts_molotov_drag hit _ Hdt' Hdm') as [K3 K4].
  rewrite <- E1 in K1, K2. rewrite <- E2 in K3, K4.
  rewrite Htt in K2. rewrite Hmt' in K4.
  change (turretTokens g0) with (turretTokens g) in K2.
  change (molotovTokens g0') with (molotovTokens g) in K4.
  split; [exact K1|]. split.
  { rewrite K2. destruct (turretTokens g <=? 0)%Z; [reflexivity|].
    destruct hit as [h|]; [|reflexivity]. do 2 f_equal.
    apply isTurretPlacementValid_ext; [now rewrite Hc|now rewrite Ht]. }
  split; [intros Hz; unfold onStartTurretDrag; now rewrite Hz|].
  split; [exact K3|]. split; [exact K4|].
  split; [intros Hz; unfold onStartMolotovDrag; now rewrite Hz|].
  unfold keydown. simpl.
  replace (String.eqb Digit1 KeyR) with false by reflexivity.
  replace (String.eqb Digit2 KeyR) with false by reflexivity.
  rewrite !andb_false_r.
  replace (String.eqb Digit1 Digit1) with true by reflexivity.
  replace (String.eqb Digit2 Digit1) with false by reflexivity.
  replace (String.eqb Digit2 Digit2) with true by reflexivity.
  split; reflexivity.
Qed.
End Keyboard.

(* ================================================================= *)
(** ** The fixed scenery *)

Section Scenery.
Context {N : Number} {M : Modules} {H : Host}.
Local Open Scope js_scope.

Lemma colliders_fold {A : Type} (f : A -> Box3) (step : A -> Session -> Session)
  (xs : list A) (s : Session) :
  (forall a s, staticColliders (game (step a s))
               = staticColliders (game s) ++ [f a]) ->
  staticColliders (game (fold_left (fun s a => step a s) xs s))
  = staticColliders (game s) ++ map f xs.
Proof.
  intros Hstep. revert s. induction xs as [|a xs IH]; intros s; simpl.
  - now rewrite app_nil_r.
  - rewrite IH, Hstep, <- app_assoc. reflexivity.
Qed.

Lemma orElse_same (x : num) : orElse x x = x.
Proof. unfold orElse. now destruct (truthy x). Qed.

Lemma untested_colliders (s : Session) :
  staticColliders (game (loadStaticTrees (loadStaticFarm (loadStaticBarn s))))
  = staticColliders (game s) ++ untestedBoxes.
Proof.
  unfold loadStaticTrees, untestedBoxes.
  rewrite (colliders_fold
             (fun pos => expandByScalar (forestWallBox pos #0) (dec 5 1))
             (fun pos s => addForestWall pos #0 s)).
  - unfold loadStaticFarm, loadStaticBarn. simpl.
    rewrite (colliders_fold (fun b => b) (fun b s => pushCollider b s))
      by reflexivity.
    simpl. rewrite map_id, <- !app_assoc. reflexivity.
  - intros pos s0. unfold addForestWall. rewrite orElse_same. reflexivity.
Qed.

Lemma placeAt_colliders (v : Vehicle) (s : Session) :
  let s' := placeAt (veh_prefab v) (veh_position v) (veh_scale v)
              (Some (veh_rotationY v)) s in
  staticColliders (game s')
  = staticColliders (game s)
    ++ (if vehicleFits v (staticColliders (game s)) then [vehicleBox v] else []) /\
  randomCalls (game s') = randomCalls (game s) /\
  dom s' = dom s ++ [if vehicleFits v (staticColliders (game s))
                     then SceneAddFixture (VehicleFixture v)
                     else ConsoleWarn (veh_position v)].
Proof.
  unfold placeAt, vehicleFits, clearOfPlayer. destruct v as [prefab pos scale rot].
  simpl.
  destruct (distanceToSquared (setY pos #0) playerSpawnPos >? reservedRadiusSq);
    simpl; [|rewrite app_nil_r; repeat split].
  destruct (existsb _ (staticColliders (game s))); simpl;
    rewrite ?app_nil_r; repeat split.
Qed.

Lemma attempts_places (t : Template) (n : nat) (g : Game) :
  exists objs, commits g (attempts (sampler t) n g) objs /\
               wellPlaced (staticColliders g) objs /\
               (List.length objs <= 1)%nat.
Proof.
  revert g. induction n as [|n IH]; intros g; simpl.
  - exists []. unfold commits. simpl. rewrite !app_nil_r. repeat split. lia.
  - destruct (sampler t g) as [o g1] eqn:Es.
    assert (Hg1 : g1 = skipDraws (draws t) g)
      by (rewrite <- sampler_state, Es; reflexivity).
    destruct (overlapsSomething o g1) eqn:Ho.
    + rewrite (tryPlace_rejected o g1 Ho).
      destruct (IH g1) as [objs [Hc [Hw Hl]]]. exists objs.
      subst g1. repeat split; try apply Hc; assumption.
    + rewrite (tryPlace_accepted o g1 Ho). exists [o].
      apply overlapsSomething_false in Ho. subst g1.
      unfold commits. simpl. repeat split; try tauto. lia.
Qed.

Lemma scatter_places (t : Template) (count : nat) (g : Game) :
  exists objs, commits g (scatter (sampler t) count g) objs /\
               wellPlaced (staticColliders g) objs /\
               (List.length objs <= count)%nat.
Proof.
  revert g. induction count as [|count IH]; intros g.
  - exists []. unfold commits. simpl. rewrite !app_nil_r. repeat split. lia.
  - change (scatter (sampler t) (S count) g)
      with (scatter (sampler t) count (attempts (sampler t) maxAttempts g)).
    destruct (attempts_places t maxAttempts g)
      as [xs [[Hc1 [Ht1 Hu1]] [Hw1 Hl1]]].
    destruct (IH (attempts (sampler t) maxAttempts g))
      as [ys [[Hc2 [Ht2 Hu2]] [Hw2 Hl2]]].
    exists (xs ++ ys). split; [|split].
    + unfold commits. rewrite Hc2, Ht2, Hu2, Hc1, Ht1, Hu1.
      rewrite !map_app, !app_assoc. repeat split.
    + apply wellPlaced_app; [exact Hw1|]. now rewrite <- Hc1.
    + rewrite length_app. lia.
Qed.

Lemma vehicleFits_placed (v : Vehicle) (cs : list Box3) :
  vehiclesPlaced cs (if vehicleFits v cs then [v] else []).
Proof.
  destruct (vehicleFits v cs) eqn:Hf; simpl; [|exact I].
  unfold vehicleFits in Hf. apply andb_prop in Hf. destruct Hf as [Hc Hn].
  split; [exact Hc|]. split; [|exact I].
  intros b Hin. destruct (intersectsBox b (vehicleBox v)) eqn:E; [|reflexivity].
  assert (existsb (fun b => intersectsBox b (vehicleBox v)) cs = true)
    by (apply existsb_exists; eauto).
  rewrite H0 in Hn. discriminate.
Qed.

Lemma vehiclesPlaced_app (cs : list Box3) (xs ys : list Vehicle) :
  vehiclesPlaced cs xs ->
  vehiclesPlaced (cs ++ map vehicleBox xs) ys ->
  vehiclesPlaced cs (xs ++ ys).
Proof.
  revert cs. induction xs as [|x xs IH]; intros cs Hx Hy; simpl in *.
  - now rewrite app_nil_r in Hy.
  - destruct Hx as [Hc [Hb Hrest]]. split; [exact Hc|]. split; [exact Hb|].
    apply IH; [exact Hrest|]. now rewrite <- app_assoc.
Qed.

(** X20. The fixed scenery is registered first, and everything
    placed after it keeps clear of it.  [loadStaticModels] appends to
    [staticColliders], in this order: one box per mesh of the barn,
    the box of the farm and the twelve walls of trees with their
    margin of 0.5, none of them tested; then the car and the van,
    each only if it stands outside the clearance of the spawn point
    and its box meets no box registered so far; then at most 15 rocks
    and 5 fences, each clear of the spawn point and of every box
    registered before it, the barn, the farm, the trees and the
    vehicles included. *)
Theorem fixed_scenery_comes_first (s : Session) :
  let fixed := staticColliders (game s) ++ untestedBoxes in
  let car := if vehicleFits theCar fixed then [theCar] else [] in
  let van := if vehicleFits theVan (fixed ++ map vehicleBox car)
             then [theVan] else [] in
  exists props,
    staticColliders (game (loadStaticModels s))
    = fixed ++ map vehicleBox (car ++ van) ++ map setFromObject props /\
    vehiclesPlaced fixed (car ++ van) /\
    wellPlaced (fixed ++ map vehicleBox (car ++ van)) props /\
    (List.length props <= 20)%nat /\
    List.length untestedBoxes = (List.length barnMeshBoxes + 13)%nat.
Proof.
  intros fixed car van.
  set (s3 := loadStaticTrees (loadStaticFarm (loadStaticBarn s))).
  assert (H3 : staticColliders (game s3) = fixed) by apply untested_colliders.
  set (s4 := placeAt CarPrefab (vec3 #80 #0 #(-60)) #4 (Some #(-90)) s3).
  destruct (placeAt_colliders theCar s3) as [Hcar _].
  change (placeAt _ _ _ _ s3) with s4 in Hcar. rewrite H3 in Hcar.
  fold car in Hcar.
  assert (Hcar' : staticColliders (game s4) = fixed ++ map vehicleBox car)
    by (rewrite Hcar; unfold car; now destruct (vehicleFits theCar fixed)).
  set (s5 := placeAt VanPrefab (vec3 #160 #0 #(-60)) #5 (Some #(-90)) s4).
  destruct (placeAt_colliders theVan s4) as [Hvan _].
  change (placeAt _ _ _ _ s4) with s5 in Hvan. rewrite Hcar' in Hvan.
  fold van in Hvan.
  assert (Hvan' : staticColliders (game s5)
                  = fixed ++ map vehicleBox (car ++ van)).
  { rewrite Hvan, map_app, <- app_assoc. f_equal. f_equal.
    unfold van. now destruct (vehicleFits theVan _). }
  destruct (scatter_places RockTemplate rockCount (game s5))
    as [rocks [[Hr _] [Wr Lr]]].
  destruct (scatter_places FenceTemplate fenceCount (loadStaticRocks (game s5)))
    as [fences [[Hf _] [Wf Lf]]].
  exists (rocks ++ fences).
  split; [|split; [|split; [|split]]].
  - change (game (loadStaticModels s))
      with (loadStaticFences (loadStaticRocks (game s5))).
    unfold loadStaticFences at 1. change sampleFence with (sampler FenceTemplate).
    rewrite Hf. unfold loadStaticRocks at 1.
    change sampleRock with (sampler RockTemplate).
    rewrite Hr, Hvan', !map_app, <- !app_assoc. reflexivity.
  - apply vehiclesPlaced_app; apply vehicleFits_placed.
  - rewrite <- Hvan'. apply wellPlaced_app; [exact Wr|].
    unfold loadStaticRocks in Wf. change sampleRock with (sampler RockTemplate) in Wf.
    now rewrite Hr in Wf.
  - rewrite length_app. unfold rockCount, fenceCount in *. lia.
  - unfold untestedBoxes. rewrite !length_app, length_map. simpl. lia.
Qed.
End Scenery.

(* ================================================================= *)
(** ** The passes of a frame are folds *)

Section PassesAsFolds.
Context {N : Number} {M : Modules}.
Local Open Scope js_scope.

Lemma sweepPickups_snoc delta (l : list Pickup) (h : Pickup) (p : Player) :
  sweepPickups delta (l ++ [h]) p =
  let '(collected, h', p') := Pickup_update delta p h in
  let (kept, p'') := sweepPickups delta l p' in
  (kept ++ (if collected then [] else [h']), p'').
Proof.
  induction l as [|x l IH]; simpl.
  - destruct (Pickup_update delta p h) as [[c h'] p']. now destruct c.
  - rewrite IH. destruct (Pickup_update delta p h) as [[c h'] p'].
    destruct (sweepPickups delta l p') as [kept p''].
    destruct (Pickup_update delta p'' x) as [[c2 x'] p3].
    now destruct c2.
Qed.

Lemma sweepMolotovs_snoc delta (l : list Molotov) (m : Molotov)
  (es : list Enemy) :
  sweepMolotovs delta (l ++ [m]) es =
  let '(dead, m', es') := Molotov_update delta es m in
  let (kept, es'') := sweepMolotovs delta l es' in
  (kept ++ (if dead then [] else [m']), es'').
Proof.
  induction l as [|x l IH]; simpl.
  - destruct (Molotov_update delta es m) as [[c m'] es']. now destruct c.
  - rewrite IH. destruct (Molotov_update delta es m) as [[c m'] es'].
    destruct (sweepMolotovs delta l es') as [kept es''].
    destruct (Molotov_update delta es'' x) as [[c2 x'] es3].
    now destruct c2.
Qed.

Lemma skipn_splice1 {A : Type} (k : nat) (y : A) (l : list A) :
  nth_error l k = Some y -> skipn k (splice1 k l) = skipn (S k) l.
Proof.
  revert k. induction l as [|h t IH]; intros [|k]; simpl; try discriminate.
  - reflexivity.
  - intros H. now rewrite (IH k H).
Qed.

Lemma skipn_succ_list_set {A : Type} (k : nat) (x : A) (l : list A) :
  skipn (S k) (list_set k x l) = skipn (S k) l.
Proof.
  revert k. induction l as [|h t IH]; intros [|k]; simpl; auto.
  apply IH.
Qed.

Lemma nth_error_set_same {A : Type} (k : nat) (x y : A) (l : list A) :
  nth_error l k = Some y -> nth_error (list_set k x l) k = Some x.
Proof.
  revert k. induction l as [|h t IH]; intros [|k]; simpl; try discriminate.
  - reflexivity.
  - apply IH.
Qed.

Lemma floatingMessages_app (a b : list Call) :
  floatingMessages (a ++ b) = (floatingMessages a + floatingMessages b)%nat.
Proof. unfold floatingMessages. now rewrite filter_app, length_app. Qed.

Lemma pickupsLoop_sweep delta i1 (g : Game) :
  (i1 <= List.length (pickups g))%nat ->
  exists g' l,
    pickupsLoop delta i1 g = Some g' /\
    pickups g' = fst (sweepPickups delta (firstn i1 (pickups g)) (player g))
                 ++ skipn i1 (pickups g) /\
    player g' = snd (sweepPickups delta (firstn i1 (pickups g)) (player g)) /\
    trace g' = trace g ++ l /\
    (floatingMessages l + List.length (pickups g') = List.length (pickups g))%nat /\
    (enemies g', bullets g', turrets g', molotovs g')
    = (enemies g, bullets g, turrets g, molotovs g).
Proof.
  revert g. induction i1 as [|i IH]; intros g Hlen.
  - exists g, []. simpl. rewrite app_nil_r. repeat split.
  - destruct (nth_error_in_range i (pickups g) Hlen) as [heart Hnth].
    pose proof (firstn_succ i heart (pickups g) Hnth) as Hfirst.
    simpl pickupsLoop. rewrite Hnth. simpl bind.
    rewrite Hfirst, sweepPickups_snoc.
    change (player (call (CallPickupUpdate heart) g)) with (player g).
    destruct (Pickup_update delta (player g) heart) as [[collected h'] p'] eqn:Eu.
    change (pickups (call (CallPickupUpdate heart) g)) with (pickups g).
    set (g0 := set_player p'
                 (set_pickups (list_set i h' (pickups g))
                    (call (CallPickupUpdate heart) g))).
    assert (Hset : nth_error (list_set i h' (pickups g)) i = Some h')
      by exact (nth_error_set_same i h' heart _ Hnth).
    destruct collected.
    + set (g1 := call (UI ui_showFloatingMessage)
                   (set_pickups (splice1 i (pickups
                      (call (CallPickupDestroy h')
                         (call (SceneRemove (PickupMesh h')) g0))))
                      (call (CallPickupDestroy h')
                         (call (SceneRemove (PickupMesh h')) g0)))).
      assert (Hp1 : pickups g1 = splice1 i (list_set i h' (pickups g)))
        by reflexivity.
      assert (Hl1 : S (List.length (pickups g1)) = List.length (pickups g)).
      { rewrite Hp1, length_splice1; rewrite length_list_set; [reflexivity|lia]. }
      destruct (IH g1) as [g' [l [Hrun [Hp [Hpl [Ht [Hm Hrest]]]]]]]; [lia|].
      exists g', ([CallPickupUpdate heart; SceneRemove (PickupMesh h');
                   CallPickupDestroy h'; UI ui_showFloatingMessage] ++ l).
      rewrite Hp1, firstn_splice1, firstn_list_set in Hp, Hpl.
      rewrite (skipn_splice1 i h' _ Hset) in Hp.
      rewrite skipn_succ_list_set in Hp.
      change (player g1) with p' in Hp, Hpl.
      destruct (sweepPickups delta (firstn i (pickups g)) p') as [kept p''].
      simpl in *. rewrite app_nil_r.
      split; [exact Hrun|]. split; [exact Hp|]. split; [exact Hpl|].
      split; [rewrite Ht; unfold g1, g0; simpl; now rewrite <- !app_assoc|].
      split; [|exact Hrest].
      unfold floatingMessages in *. simpl. lia.
    + assert (Hp0 : pickups g0 = list_set i h' (pickups g)) by reflexivity.
      destruct (IH g0) as [g' [l [Hrun [Hp [Hpl [Ht [Hm Hrest]]]]]]].
      { rewrite Hp0, length_list_set. lia. }
      exists g', ([CallPickupUpdate heart] ++ l).
      rewrite Hp0, firstn_list_set in Hp, Hpl.
      rewrite (skipn_list_set i h' heart (pickups g) Hnth) in Hp.
      rewrite Hp0, length_list_set in Hm.
      change (player g0) with p' in Hp, Hpl.
      destruct (sweepPickups delta (firstn i (pickups g)) p') as [kept p''].
      simpl in *.
      split; [exact Hrun|].
      split; [rewrite Hp, <- app_assoc; reflexivity|]. split; [exact Hpl|].
      split; [rewrite Ht; unfold g0; simpl; now rewrite <- !app_assoc|].
      split; [|exact Hrest].
      unfold floatingMessages in *. simpl. lia.
Qed.

Lemma molotovsLoop_sweep delta i1 (g : Game) :
  (i1 <= List.length (molotovs g))%nat ->
  exists g',
    molotovsLoop delta i1 g = Some g' /\
    molotovs g' = fst (sweepMolotovs delta (firstn i1 (molotovs g)) (enemies g))
                  ++ skipn i1 (molotovs g) /\
    enemies g' = snd (sweepMolotovs delta (firstn i1 (molotovs g)) (enemies g)) /\
    trace g' = trace g
               ++ map CallMolotovUpdate (rev (firstn i1 (molotovs g))) /\
    (player g', bullets g', turrets g', pickups g')
    = (player g, bullets g, turrets g, pickups g).
Proof.
  revert g. induction i1 as [|i IH]; intros g Hlen.
  - exists g. simpl. rewrite app_nil_r. repeat split.
  - destruct (nth_error_in_range i (molotovs g) Hlen) as [m Hnth].
    pose proof (firstn_succ i m (molotovs g) Hnth) as Hfirst.
    simpl molotovsLoop. rewrite Hnth. simpl bind.
    rewrite Hfirst, sweepMolotovs_snoc.
    change (enemies (call (CallMolotovUpdate m) g)) with (enemies g).
    destruct (Molotov_update delta (enemies g) m) as [[dead m'] es'] eqn:Eu.
    change (molotovs (call (CallMolotovUpdate m) g)) with (molotovs g).
    set (g0 := set_enemies es'
                 (set_molotovs (list_set i m' (molotovs g))
                    (call (CallMolotovUpdate m) g))).
    assert (Hset : nth_error (list_set i m' (molotovs g)) i = Some m')
      by exact (nth_error_set_same i m' m _ Hnth).
    assert (Hsk : skipn i (list_set i m' (molotovs g))
                  = m' :: skipn (S i) (molotovs g))
      by exact (skipn_list_set i m' m (molotovs g) Hnth).
    rewrite rev_app_distr. simpl rev. simpl map.
    destruct dead.
    + set (g1 := set_molotovs (splice1 i (molotovs g0)) g0).
      assert (Hp1 : molotovs g1 = splice1 i (list_set i m' (molotovs g)))
        by reflexivity.
      destruct (IH g1) as [g' [Hrun [Hp [He [Ht Hrest]]]]].
      { pose proof (length_splice1 i (list_set i m' (molotovs g))) as Hl.
        rewrite length_list_set in Hl. rewrite Hp1. lia. }
      exists g'.
      rewrite Hp1, firstn_splice1, firstn_list_set in Hp, He, Ht.
      rewrite (skipn_splice1 i m' _ Hset) in Hp.
      rewrite skipn_succ_list_set in Hp.
      change (enemies g1) with es' in Hp, He.
      destruct (sweepMolotovs delta (firstn i (molotovs g)) es') as [kept es''].
      simpl in *. rewrite app_nil_r.
      split; [exact Hrun|]. split; [exact Hp|]. split; [exact He|].
      split; [rewrite Ht; unfold g1, g0; simpl; now rewrite <- !app_assoc|].
      exact Hrest.
    + assert (Hp0 : molotovs g0 = list_set i m' (molotovs g)) by reflexivity.
      destruct (IH g0) as [g' [Hrun [Hp [He [Ht Hrest]]]]].
      { rewrite Hp0, length_list_set. lia. }
      exists g'.
      rewrite Hp0, firstn_list_set in Hp, He, Ht. rewrite Hsk in Hp.
      change (enemies g0) with es' in Hp, He.
      destruct (sweepMolotovs delta (firstn i (molotovs g)) es') as [kept es''].
      simpl in *.
      split; [exact Hrun|].
      split; [rewrite Hp, <- app_assoc; reflexivity|]. split; [exact He|].
      split; [rewrite Ht; unfold g0; simpl; now rewrite <- !app_assoc|].
      exact Hrest.
Qed.

(** X21. The passes that splice while they scan keep the survivors.
    The pickups pass of [animate] always runs to its end and leaves
    in [pickups], in their old order, the updated hearts that were not
    collected, each heart having been updated with the player as the
    hearts after it left him; one floating message is shown per heart
    removed; enemies, bullets, turrets and molotovs are not touched.
    The molotovs pass does the same to [molotovs], handing each
    molotov the enemies as the molotovs after it left them, and calls
    [update] once per molotov, last one first. *)
Theorem splicing_passes_keep_the_survivors (delta : num) (g : Game) :
  (exists g' l,
     updatePickups delta g = Some g' /\
     (pickups g', player g') = sweepPickups delta (pickups g) (player g) /\
     trace g' = trace g ++ l /\
     (floatingMessages l + List.length (pickups g') = List.length (pickups g))%nat /\
     (enemies g', bullets g', turrets g', molotovs g')
     = (enemies g, bullets g, turrets g, molotovs g)) /\
  (exists g',
     updateMolotovs delta g = Some g' /\
     (molotovs g', enemies g') = sweepMolotovs delta (molotovs g) (enemies g) /\
     trace g' = trace g ++ map CallMolotovUpdate (rev (molotovs g)) /\
     (player g', bullets g', turrets g', pickups g')
     = (player g, bullets g, turrets g, pickups g)).
Proof.
  split.
  - destruct (pickupsLoop_sweep delta (List.length (pickups g)) g (le_n _))
      as [g' [l [Hrun [Hp [Hpl [Ht [Hm Hrest]]]]]]].
    exists g', l. rewrite firstn_all, skipn_all, app_nil_r in Hp.
    rewrite firstn_all in Hpl.
    split; [exact Hrun|]. split.
    { rewrite Hp, Hpl.
      now destruct (sweepPickups delta (pickups g) (player g)). }
    split; [exact Ht|]. split; [exact Hm|exact Hrest].
  - destruct (molotovsLoop_sweep delta (List.length (molotovs g)) g (le_n _))
      as [g' [Hrun [Hp [He [Ht Hrest]]]]].
    exists g'. rewrite firstn_all, skipn_all, app_nil_r in Hp.
    rewrite firstn_all in He, Ht.
    split; [exact Hrun|]. split.
    { rewrite Hp, He.
      now destruct (sweepMolotovs delta (molotovs g) (enemies g)). }
    split; [exact Ht|exact Hrest].
Qed.

Lemma turretsForOf_fold delta (rest pre : list Turret) (g : Game) :
  turrets g = pre ++ rest ->
  let g' := turretsForOf delta (List.length rest) (List.length pre) g in
  turrets g' = pre ++ map (fun t => fst (Turret_update delta (enemies g) t)) rest /\
  bullets g' = bullets g
               ++ flat_map (fun t => snd (Turret_update delta (enemies g) t)) rest /\
  trace g' = trace g ++ map (fun t => CallTurretUpdate (turret_position t)) rest /\
  (enemies g', player g', pickups g', molotovs g')
  = (enemies g, player g, pickups g, molotovs g).
Proof.
  revert pre g. induction rest as [|t rest IH]; intros pre g Hts.
  - rewrite app_nil_r in Hts. simpl. rewrite !app_nil_r.
    split; [exact Hts|]. repeat split.
  - simpl turretsForOf. rewrite Hts, nth_error_middle.
    change (enemies (call (CallTurretUpdate (turret_position t)) g))
      with (enemies g).
    destruct (Turret_update delta (enemies g) t) as [t' fired] eqn:Eu.
    change (turrets (call (CallTurretUpdate (turret_position t)) g))
      with (turrets g).
    rewrite list_set_middle.
    set (g1 := set_bullets _ _).
    specialize (IH (pre ++ [t']) g1).
    rewrite length_app, Nat.add_comm in IH. simpl in IH.
    destruct IH as [H1 [H2 [H3 H4]]].
    { unfold g1. simpl. now rewrite <- app_assoc. }
    change (enemies g1) with (enemies g) in H1, H2.
    simpl. rewrite Eu. simpl.
    split; [rewrite H1, <- app_assoc; reflexivity|].
    split; [rewrite H2; unfold g1; simpl; now rewrite <- app_assoc|].
    split; [rewrite H3; unfold g1; simpl; now rewrite <- app_assoc|].
    exact H4.
Qed.

(** X22. The turrets pass updates every turret once, in array order,
    against the same enemies, writes each back to its slot, and
    appends what they fired to [bullets] in the order of the turrets,
    after the bullets that were there; enemies, player, pickups and
    molotovs are not touched. *)
Theorem turrets_fire_in_order (delta : num) (g : Game) :
  let g' := updateTurrets delta g in
  turrets g' = map (fun t => fst (Turret_update delta (enemies g) t)) (turrets g) /\
  bullets g' = bullets g
               ++ flat_map (fun t => snd (Turret_update delta (enemies g) t))
                    (turrets g) /\
  trace g' = trace g
             ++ map (fun t => CallTurretUpdate (turret_position t)) (turrets g) /\
  (enemies g', player g', pickups g', molotovs g')
  = (enemies g, player g, pickups g, molotovs g).
Proof.
  unfold updateTurrets.
  apply (turretsForOf_fold delta (turrets g) [] g). reflexivity.
Qed.
End PassesAsFolds.

(* ================================================================= *)
(** ** More runs on binary64 numbers *)

Section MoreRuns.
#[local] Existing Instance Float64.
#[local] Existing Instance Simple.
Local Open Scope js_scope.

(** One turret and one molotov placed from the empty world, a token
    and 50 mana each, and one turret token handed out.  The molotov
    is built, and its token spent, only when the module arrives. *)
Example one_of_each_is_paid_for :
  match run (firstn 7 placeOneOfEach) emptyGame, run placeOneOfEach emptyGame with
  | Some g1, Some g =>
      molotovTokens g1 = 1000%Z /\ molotovsThrown (trace g1) = [] /\
      pendingMolotovs g1 = [vec3 #20 #0 #20] /\
      player_mana (player g1) = #0 /\
      turretTokens g = 1900%Z /\ List.length (turrets g) = 1%nat /\
      molotovTokens g = 999%Z /\ molotovsThrown (trace g) = [vec3 #20 #0 #20] /\
      pendingMolotovs g = [] /\
      draggingTurret g = None /\ draggingMolotov g = None
  | _, _ => False
  end.
Proof. vm_compute. repeat split; reflexivity. Qed.

(** The count of molotov tokens can fall below zero: the token is
    checked when a drag starts and spent when the module arrives, so
    two drops made on the last token while the module loads are both
    built. *)
Example molotov_tokens_can_go_negative :
  match run twoHastyDrops lastMolotov with
  | Some g =>
      molotovTokens g = (-1)%Z /\
      molotovsThrown (trace g) = [vec3 #20 #0 #20; vec3 #30 #0 #30] /\
      List.length (molotovs g) = 2%nat
  | None => False
  end.
Proof. vm_compute. repeat split; reflexivity. Qed.



Lemma knife_blow_without_kill_witness :
  let forward := knifeForward (player twoInReach) in
  enemies (onKnifeHit #2 twoInReach)
  = map (afterBlow #2 forward (player twoInReach)) (enemies twoInReach) /\
  trace (onKnifeHit #2 twoInReach) =
    trace twoInReach ++
    map (fun e => CallTakeDamage (enemy_id e) #2)
        (filter (knifeReaches forward (player twoInReach)) (enemies twoInReach)) /\
  player (onKnifeHit #2 twoInReach) = player twoInReach /\
  bullets (onKnifeHit #2 twoInReach) = bullets twoInReach /\
  turrets (onKnifeHit #2 twoInReach) = turrets twoInReach.
Proof.
  apply (@knife_blow_without_kill Float64 Simple #2 twoInReach).
  intros e [<-|[<-|[]]] _; vm_compute; reflexivity.
Defined.

Lemma bullets_that_miss_fly_on_witness :
  exists g',
    updateBullets (dec 16 3) missGame = Some g' /\
    bullets g' = map (Bullet_update (dec 16 3)) (bullets missGame) /\
    enemies g' = enemies missGame /\
    trace g' = trace missGame ++ rev (bulletUpdateCalls (bullets missGame)).
Proof.
  apply (@bullets_that_miss_fly_on Float64 Simple (dec 16 3) missGame).
  intros b e [<-|[]] [<-|[]]. vm_compute. reflexivity.
Defined.

Lemma enemy_bites_once_per_cycle_witness :
  let delta := dec 16 3 in
  let t1 := dec 5 1 in
  let t2 := dec 6 1 in
  let e1 := Enemy_update delta biter in
  let g1 := enemyTick delta 0 biter bitingGame in
  let enemy' := set_hasDamaged true (set_lastAttackCycleTime t1 e1) in
  let e2 := Enemy_update delta enemy' in
  nth_error (enemies g1) 0 = Some enemy' /\
  player g1 = Player_takeDamage #10 (player bitingGame) /\
  trace g1 = trace bitingGame ++ [CallEnemyUpdate (enemy_id biter);
                                  CallPlayerTakeDamage #10] /\
  (isAttacking e2 = true -> attackAction e2 = Some t2 ->
   if t2 <? t1 then
     (distanceTo (enemy_position e2) (player_position (player g1))
      <? attackRange) = true ->
     player (enemyTick delta 0 enemy' g1) = Player_takeDamage #10 (player g1)
   else
     player (enemyTick delta 0 enemy' g1) = player g1 /\
     trace (enemyTick delta 0 enemy' g1)
     = trace g1 ++ [CallEnemyUpdate (enemy_id enemy')]).
Proof.
  apply (@enemy_bites_once_per_cycle Float64 Simple (dec 16 3) (dec 16 3) 0
           biter (dec 5 1) (dec 6 1) bitingGame).
  - intros d e. split; reflexivity.
  - reflexivity.
  - reflexivity.
  - reflexivity.
  - vm_compute. reflexivity.
  - reflexivity.
Defined.

(** The wheel in binary64: from the initial zoom of 1 a turn up
    changes nothing, a turn down and a wheel event with no vertical
    part both zoom out by 1/0.85, and five turns down stop at 2. *)
Example wheel_runs :
  let zoomAfter (ds : list num) :=
    camera_zoom (rig (fold_left (fun s d => wheel d s) ds
                        (mkSession emptyGame restingRig []))) in
  zoomAfter [#(-100)] = #1 /\
  zoomAfter [#100] = #1 / dec 85 2 /\
  zoomAfter [#0] = #1 / dec 85 2 /\
  zoomAfter [#100; #100; #100; #100; #100] = #2.
Proof. vm_compute. repeat split; reflexivity. Qed.
End MoreRuns.

(* ================================================================= *)
(** ** The camera on the real numbers, at concrete sessions *)

Section CameraRuns.
#[local] Existing Instance Ideal.
#[local] Existing Instance IdealTrig.
#[local] Existing Instance Keyed.
#[local] Existing Instance KeyedHost.
Local Open Scope R_scope.

Lemma pan_moves_the_centre_by_the_drag_witness :
  let dir := @vec3 Ideal (-1) (-1) (-1) in
  let c := fixedCameraCenter (rig panningSession) in
  let c' := fixedCameraCenter (rig (mousemove 103 104 dir panningSession)) in
  vy c' = vy c /\
  distanceTo c' c
  = 12 / 100 * sqrt ((103 - 100) * (103 - 100) + (104 - 100) * (104 - 100)) /\
  panPrev (rig (mousemove 103 104 dir panningSession)) = (103, 104).
Proof.
  apply (@pan_moves_the_centre_by_the_drag Keyed 103 104 100 100
           (@vec3 Ideal (-1) (-1) (-1)) panningSession).
  - reflexivity.
  - reflexivity.
  - reflexivity.
  - unfold horizontalLength. apply sqrt_lt_R0. simpl. lra.
Defined.

Lemma leaving_follow_mode_parks_the_camera_witness :
  let p := player_position (player (game followingSession)) in
  let s1 := onToggleCameraFollow followingSession in
  let s2 := cameraPhase (1 / 60) s1 in
  cameraFollow (rig s1) = false /\
  fixedCameraCenter (rig s1) = p /\
  cameraVel (rig s1) = vec3 0 0 0 /\
  trace (game s1) = trace (game followingSession) ++ [UI ui_showFloatingMessage] /\
  camera_position (rig s2) = followTarget p (rig s2) /\
  camera_target (rig s2) = p /\
  cameraVel (rig s2) = vec3 0 0 0.
Proof.
  apply (@leaving_follow_mode_parks_the_camera Ideal IdealTrig Keyed KeyedHost
           (1 / 60) followingSession); reflexivity.
Defined.

Lemma frustum_keeps_the_aspect_witness :
  let r := rig (onWindowResize 1600 900 newSession) in
  camera_top r - camera_bottom r = 100 /\
  (camera_right r - camera_left r) * 900 = 1600 * (camera_top r - camera_bottom r) /\
  camera_left r = - camera_right r /\
  camera_bottom r = - camera_top r /\
  (camera_left r, camera_right r, camera_top r, camera_bottom r)
  = (camera_left (initCamera 1600 900), camera_right (initCamera 1600 900),
     camera_top (initCamera 1600 900), camera_bottom (initCamera 1600 900)) /\
  r = set_frustum (camera_left r) (camera_right r) (camera_top r)
        (camera_bottom r) (rig newSession) /\
  dom (onWindowResize 1600 900 newSession)
  = dom newSession ++ [UpdateProjectionMatrix; RendererSetSize 1600 900].
Proof.
  apply (@frustum_keeps_the_aspect Keyed 1600 900 newSession). lra.
Defined.

Lemma fixed_camera_orbits_the_centre_witness :
  let r := rig newSession in
  let r' := rig (cameraPhase (1 / 60) newSession) in
  let c := fixedCameraCenter r in
  cameraAngle r' =
    cameraAngle r
    - (if input_get KeyQ (input (game newSession)) then 1 / 60 else 0)
    + (if input_get KeyE (input (game newSession)) then 1 / 60 else 0) /\
  fixedCameraCenter r' = c /\
  cameraVel r' = cameraVel r /\
  camera_target r' = c /\
  vy (camera_position r') = vy c + cameraHeight r /\
  (vx (camera_position r') - vx c) * (vx (camera_position r') - vx c)
  + (vz (camera_position r') - vz c) * (vz (camera_position r') - vz c)
  = cameraDistance r * cameraDistance r.
Proof.
  apply (@fixed_camera_orbits_the_centre Keyed KeyedHost (1 / 60) newSession).
  reflexivity.
Defined.

Lemma follow_camera_spring_witness :
  let s := followingSession in
  let p := player_position (player (game s)) in
  let target := followTarget p (rig s) in
  let x := camera_position (rig s) in
  let v := cameraVel (rig s) in
  let x' := camera_position (rig (cameraPhase (1 / 60) s)) in
  let v' := cameraVel (rig (cameraPhase (1 / 60) s)) in
  camera_target (rig (cameraPhase (1 / 60) s)) = p /\
  (x = target -> v = vec3 0 0 0 -> x' = target /\ v' = vec3 0 0 0) /\
  (1 / 60 = 0 -> x' = x /\ v' = v) /\
  (v = vec3 0 0 0 ->
   v_sub x' target
   = multiplyScalar (v_sub x target) (1 - 12 * (1 / 60 * (1 / 60)))).
Proof.
  apply (@follow_camera_spring Keyed KeyedHost (1 / 60) followingSession);
    reflexivity.
Defined.

Lemma initial_camera_is_at_rest_witness :
  let s := mkSession newGame (initCamera 1600 900) [] in
  cameraFollow (rig s) = false /\
  cameraAngle (rig s) = PI / 4 /\
  cameraDistance (rig s) = 40 * sqrt 2 /\
  camera_position (rig (cameraPhase (1 / 60) s)) = vec3 40 40 40 /\
  camera_target (rig (cameraPhase (1 / 60) s)) = vec3 0 0 0 /\
  camera_position (rig (cameraPhase (1 / 60) s)) = camera_position (rig s).
Proof.
  apply (@initial_camera_is_at_rest Keyed KeyedHost 1600 900 (1 / 60) newGame);
    reflexivity.
Defined.
End CameraRuns.
